(** * WebSocket gateway: routing core and fan-out services

    A shallow embedding of the distributed routing core of the gateway
    ([core/node-manager.js], [core/message-router.js]) and of the state kept
    by its chat, reaction, cursor and presence services, together with the
    properties of the specification that concern them.

    Conventions.
    - The shared key-value store is a value of type [Redis.t]; every command
      sent to it is a step of the monad [Redis.M], which threads the store
      and lets a command reject.  A rejected command raises; the store keeps
      what the earlier commands of the same block wrote, as a JavaScript
      [try]/[catch] around a sequence of [await]s does.
    - Wall-clock readings ([Date.now()], [new Date()]) and random suffixes
      are inputs of the operation that reads them.
    - [async] functions are run to completion, one after the other.
    - Logging is not modelled. *)

From stdpp Require Import base gmap sets list strings.
From Stdlib Require Import ZArith Lia.

#[local] Set Warnings "-register-all,-clear-no-such-hyp".

Local Open Scope string_scope.
Local Open Scope list_scope.

(** ** JavaScript values

    The fields of a parsed client frame.  A missing field reads as
    [JUndefined].  Numbers are integers here: the code only looks at their
    type and their sign. *)
Module Js.

Inductive value :=
| JUndefined
| JNull
| JBool (b : bool)
| JNum (n : Z)
| JStr (s : string)
| JArr (items : list value)
| JObj (fields : list (string * value)).

(** [!v] is [negb (truthy v)]. *)
Definition truthy (v : value) : bool :=
  match v with
  | JUndefined | JNull => false
  | JBool b => b
  | JNum n => negb (n =? 0)%Z
  | JStr s => negb (String.eqb s "")
  | JArr _ | JObj _ => true
  end.

Definition is_number (v : value) : bool :=
  match v with JNum _ => true | _ => false end.

Fixpoint assoc (k : string) (fs : list (string * value)) : value :=
  match fs with
  | [] => JUndefined
  | (k', v) :: rest => if String.eqb k k' then v else assoc k rest
  end.

(** A parameter with a default value: the default stands in for
    [undefined]. *)
Definition defaulted (d v : value) : value :=
  match v with
  | JUndefined => d
  | _ => v
  end.

(** The property names every object literal inherits.  A lookup
    [table[name]] by one of them reads a value that is truthy and has none
    of the fields of the entries of the table. *)
Definition inherited : list string :=
  [ "constructor"; "__defineGetter__"; "__defineSetter__"; "hasOwnProperty";
    "__lookupGetter__"; "__lookupSetter__"; "isPrototypeOf";
    "propertyIsEnumerable"; "toString"; "valueOf"; "__proto__"; "toLocaleString" ].

(** [v.k] for the own fields a parsed frame can carry. *)
Definition field (k : string) (v : value) : value :=
  match v with
  | JObj fs => assoc k fs
  | _ => JUndefined
  end.

End Js.

(** ** The key-value store *)
Module Redis.

(** String keys, set keys and hash keys.  A set key exists exactly while it
    has a member, so the sets are kept as the finite relation "key has
    member".  [faults] is the fate of the commands to come: [true] rejects
    the next command, the empty schedule rejects none. *)
Record t := mk {
  kv : gmap string string;
  members : gset (string * string);
  hashes : gmap string (gmap string string);
  faults : list bool
}.

Definition empty : t := mk ∅ ∅ ∅ [].

Definition with_faults (fs : list bool) (r : t) : t :=
  mk (kv r) (members r) (hashes r) fs.

Inductive outcome (A : Type) :=
| Ok (a : A)
| Thrown.
Arguments Ok {A} a.
Arguments Thrown {A}.

Definition M (A : Type) : Type := t → t * outcome A.

Definition ret {A} (a : A) : M A := λ r, (r, Ok a).

Definition bind {A B} (m : M A) (f : A → M B) : M B :=
  λ r, match m r with
       | (r', Ok a) => f a r'
       | (r', Thrown) => (r', Thrown)
       end.

(** [try { m } catch { return d }] *)
Definition attempt {A} (m : M A) (d : A) : t → t * A :=
  λ r, match m r with
       | (r', Ok a) => (r', a)
       | (r', Thrown) => (r', d)
       end.

Definition command {A} (f : t → t * A) : M A :=
  λ r, match faults r with
       | true :: fs => (with_faults fs r, Thrown)
       | false :: fs => let '(r', a) := f (with_faults fs r) in (r', Ok a)
       | [] => let '(r', a) := f r in (r', Ok a)
       end.

Definition smembers (k : string) (s : gset (string * string)) : gset string :=
  set_map snd (filter (λ p, p.1 = k) s).

Definition set (k v : string) : M unit :=
  command (λ r, (mk (<[k:=v]> (kv r)) (members r) (hashes r) (faults r), tt)).

Definition get (k : string) : M (option string) :=
  command (λ r, (r, kv r !! k)).

Definition del (k : string) : M unit :=
  command (λ r, (mk (delete k (kv r))
                    (filter (λ p, p.1 ≠ k) (members r))
                    (delete k (hashes r)) (faults r), tt)).

Definition sAdd (k m : string) : M unit :=
  command (λ r, (mk (kv r) ({[ (k, m) ]} ∪ members r) (hashes r) (faults r), tt)).

Definition sRem (k m : string) : M unit :=
  command (λ r, (mk (kv r) (members r ∖ {[ (k, m) ]}) (hashes r) (faults r), tt)).

Definition sMembers (k : string) : M (list string) :=
  command (λ r, (r, elements (smembers k (members r)))).

Definition hSet (k : string) (fields : gmap string string) : M unit :=
  command (λ r, (mk (kv r) (members r)
                    (<[k := fields ∪ default ∅ (hashes r !! k)]> (hashes r))
                    (faults r), tt)).

Definition sCard (k : string) : M nat :=
  command (λ r, (r, size (smembers k (members r)))).

(** [for (const x of l) { await f(x) }] *)
Fixpoint forEach {A} (l : list A) (f : A → M unit) : M unit :=
  match l with
  | [] => ret tt
  | x :: rest => bind (f x) (λ _, forEach rest f)
  end.

End Redis.

Notation "'let*' x ':=' m 'in' k" := (Redis.bind m (λ x, k))
  (at level 10, x name, m at level 100, k at level 200, only parsing).
Notation "m '>>>' k" := (Redis.bind m (λ _, k))
  (at level 65, right associativity, only parsing).

(** ** core/node-manager.js *)
Module NodeManager.

Record t := mk {
  redis : option Redis.t;
  nodeId : string
}.

(** The key patterns of [this.keys], and the two written inline. *)
Definition nodeClients (n : string) : string := "websocket:node:" +:+ n +:+ ":clients".
Definition clientNode (c : string) : string := "websocket:client:" +:+ c +:+ ":node".
Definition channelNodes (ch : string) : string := "websocket:channel:" +:+ ch +:+ ":nodes".
Definition nodeChannels (n : string) : string := "websocket:node:" +:+ n +:+ ":channels".
Definition clientChannels (c : string) : string := "websocket:client:" +:+ c +:+ ":channels".
Definition clientMetadata (c : string) : string := "websocket:client:" +:+ c +:+ ":metadata".

Arguments nodeClients : simpl never.
Arguments clientNode : simpl never.
Arguments channelNodes : simpl never.
Arguments nodeChannels : simpl never.
Arguments clientChannels : simpl never.
Arguments clientMetadata : simpl never.

(** [if (!this.redis) return; try { body } catch (error) { log }] *)
Definition guarded (body : Redis.M unit) (nm : t) : t :=
  match redis nm with
  | None => nm
  | Some r => mk (Some (Redis.attempt body tt r).1) (nodeId nm)
  end.

(** [metadata] holds the values already turned into strings. *)
Definition registerClient (clientId : string) (metadata : gmap string string)
    (nm : t) : t :=
  guarded
    (Redis.set (clientNode clientId) (nodeId nm) >>>
     Redis.sAdd (nodeClients (nodeId nm)) clientId >>>
     (if decide (metadata = ∅) then Redis.ret tt
      else Redis.hSet (clientMetadata clientId) metadata)) nm.

Definition unregisterClient (clientId : string) (nm : t) : t :=
  guarded
    (Redis.del (clientNode clientId) >>>
     Redis.sRem (nodeClients (nodeId nm)) clientId >>>
     Redis.del (clientMetadata clientId)) nm.

Definition subscribeClientToChannel (clientId channel : string) (nm : t) : t :=
  guarded
    (Redis.sAdd (channelNodes channel) (nodeId nm) >>>
     Redis.sAdd (nodeChannels (nodeId nm)) channel >>>
     Redis.sAdd (clientChannels clientId) channel) nm.

(** The loop over [nodeClients], with its [break]. *)
Fixpoint hasChannelClients (clients : list string) (channel : string)
    : Redis.M bool :=
  match clients with
  | [] => Redis.ret false
  | client :: rest =>
      let* chans := Redis.sMembers (clientChannels client) in
      if bool_decide (channel ∈ chans) then Redis.ret true
      else hasChannelClients rest channel
  end.

Definition unsubscribeClientFromChannel (clientId channel : string) (nm : t) : t :=
  guarded
    (Redis.sRem (clientChannels clientId) channel >>>
     let* clients := Redis.sMembers (nodeClients (nodeId nm)) in
     let* has := hasChannelClients clients channel in
     if has then Redis.ret tt
     else
       Redis.sRem (channelNodes channel) (nodeId nm) >>>
       Redis.sRem (nodeChannels (nodeId nm)) channel) nm.

Definition getNodesForChannel (channel : string) (nm : t) : t * list string :=
  match redis nm with
  | None => (nm, [nodeId nm])
  | Some r =>
      let '(r', nodes) :=
        Redis.attempt
          (let* nodes := Redis.sMembers (channelNodes channel) in
           Redis.ret (if (0 <? length nodes)%nat then nodes else [nodeId nm]))
          [nodeId nm] r in
      (mk (Some r') (nodeId nm), nodes)
  end.

(** The store, if any, rejects no command. *)
Definition healthy (nm : t) : Prop :=
  match redis nm with
  | Some r => Redis.faults r = []
  | None => True
  end.

Definition getClientNode (clientId : string) (nm : t) : t * option string :=
  match redis nm with
  | None => (nm, Some (nodeId nm))
  | Some r =>
      let '(r', node) :=
        Redis.attempt
          (let* n := Redis.get (clientNode clientId) in
           Redis.ret (match n with
                      | Some s => if String.eqb s "" then None else Some s
                      | None => None
                      end))
          None r in
      (mk (Some r') (nodeId nm), node)
  end.

Definition getNodeClients (nm : t) : t * list string :=
  match redis nm with
  | None => (nm, [])
  | Some r =>
      let '(r', clients) :=
        Redis.attempt (Redis.sMembers (nodeClients (nodeId nm))) [] r in
      (mk (Some r') (nodeId nm), clients)
  end.

Definition getConnectionCount (nm : t) : t * nat :=
  match redis nm with
  | None => (nm, 0%nat)
  | Some r =>
      let '(r', n) := Redis.attempt (Redis.sCard (nodeClients (nodeId nm))) 0%nat r in
      (mk (Some r') (nodeId nm), n)
  end.

(** The remaining key patterns of [this.keys]. *)
Definition nodes : string := "websocket:nodes".
Definition nodeInfo (n : string) : string := "websocket:node:" +:+ n +:+ ":info".
Definition nodeHeartbeat (n : string) : string :=
  "websocket:node:" +:+ n +:+ ":heartbeat".

Arguments nodeInfo : simpl never.
Arguments nodeHeartbeat : simpl never.

(** A method of the node manager awaited inside a block: it works on the
    store as the block left it, catches what it raises and hands the store
    on. *)
Definition within (method : t → t) (nm : t) : Redis.M unit :=
  λ r, (default r (redis (method (mk (Some r) (nodeId nm)))), Redis.Ok tt).

(** The clean-up of the directory that [shutdown] does when it has a store,
    between stopping the heartbeat timer and running the shutdown handlers
    its owner registered. *)
Definition shutdown (nm : t) : t :=
  guarded
    (let* clients := Redis.sMembers (nodeClients (nodeId nm)) in
     Redis.forEach clients (λ clientId, within (unregisterClient clientId) nm) >>>
     let* channels := Redis.sMembers (nodeChannels (nodeId nm)) in
     Redis.forEach channels (λ channel, Redis.sRem (channelNodes channel) (nodeId nm)) >>>
     Redis.del (nodeInfo (nodeId nm)) >>>
     Redis.del (nodeClients (nodeId nm)) >>>
     Redis.del (nodeChannels (nodeId nm)) >>>
     Redis.del (nodeHeartbeat (nodeId nm)) >>>
     Redis.sRem nodes (nodeId nm)) nm.

End NodeManager.

(** ** core/message-router.js

    [Msg] is the type of the payloads handed to the router; the router never
    looks inside them. *)
Module MessageRouter.
Section WithMsg.

Context {Msg : Type}.

(** The three envelopes published between nodes. *)
Inductive envelope :=
| ChannelMessage (channel : string) (message : Msg)
    (excludeClientId : option string) (fromNode : string) (timestamp : Z)
    (targetNodes : list string)
| DirectMessage (clientId : string) (message : Msg) (fromNode targetNode : string)
    (timestamp : Z)
| Broadcast (message : Msg) (excludeClientId : option string) (fromNode : string)
    (timestamp : Z).

(** The egress of a connection: [sent] is what was written to it.
    [sendThrows] tells whether [ws.send] raises. *)
Record websocket := mkWs {
  readyState : Z;
  sendThrows : bool;
  sent : list Msg
}.

Record client := mkClient {
  ws : websocket;
  metadata : gmap string string;
  channels : gset string;
  joinedAt : Z
}.

(** The publishing connection: what was published, on which KVPS channel,
    and the fate of the publishes to come. *)
Record publisher := mkPub {
  published : list (string * envelope);
  pfaults : list bool
}.

(** The subscribing connection: for each KVPS channel the number of
    listeners registered for it ([subscribe] adds one, [unsubscribe]
    without a listener drops them all). *)
Record subscriber := mkSub {
  listeners : gmap string nat;
  sfaults : list bool
}.

Record t := mk {
  nodeManager : NodeManager.t;
  redisPublisher : option publisher;
  redisSubscriber : option subscriber;
  localClients : gmap string client;
  subscribedChannels : gset string
}.

Definition routeChannel (channel : string) : string := "websocket:route:" +:+ channel.
Definition directChannel (node : string) : string := "websocket:direct:" +:+ node.
Definition broadcastChannel : string := "websocket:broadcast:all".

Definition with_nodeManager (nm : NodeManager.t) (st : t) : t :=
  mk nm (redisPublisher st) (redisSubscriber st) (localClients st) (subscribedChannels st).
Definition with_publisher (p : publisher) (st : t) : t :=
  mk (nodeManager st) (Some p) (redisSubscriber st) (localClients st) (subscribedChannels st).
Definition with_localClients (cs : gmap string client) (st : t) : t :=
  mk (nodeManager st) (redisPublisher st) (redisSubscriber st) cs (subscribedChannels st).
Definition with_channels (chs : gset string) (c : client) : client :=
  mkClient (ws c) (metadata c) chs (joinedAt c).

(** [await publisher.publish(ch, JSON.stringify(env))]; [false] when it raised. *)
Definition publish (ch : string) (env : envelope) (p : publisher) : publisher * bool :=
  match pfaults p with
  | true :: fs => (mkPub (published p) fs, false)
  | false :: fs => (mkPub (published p ++ [(ch, env)]) fs, true)
  | [] => (mkPub (published p ++ [(ch, env)]) [], true)
  end.

Definition subscribe (ch : string) (s : subscriber) : subscriber * bool :=
  let add := <[ch := S (default 0%nat (listeners s !! ch))]> (listeners s) in
  match sfaults s with
  | true :: fs => (mkSub (listeners s) fs, false)
  | false :: fs => (mkSub add fs, true)
  | [] => (mkSub add [], true)
  end.

Definition unsubscribe (ch : string) (s : subscriber) : subscriber * bool :=
  match sfaults s with
  | true :: fs => (mkSub (listeners s) fs, false)
  | false :: fs => (mkSub (delete ch (listeners s)) fs, true)
  | [] => (mkSub (delete ch (listeners s)) [], true)
  end.

(** [setupNodeMessageHandlers], called by the constructor. *)
Definition setupNodeMessageHandlers (node : string) (s : subscriber) : subscriber :=
  match subscribe (directChannel node) s with
  | (s1, true) => (subscribe broadcastChannel s1).1
  | (s1, false) => s1
  end.

Definition new (nm : NodeManager.t) (p : option publisher) (s : option subscriber) : t :=
  mk nm p (setupNodeMessageHandlers (NodeManager.nodeId nm) <$> s) ∅ ∅.

Definition registerLocalClient (clientId : string) (w : websocket)
    (md : gmap string string) (now : Z) (st : t) : t :=
  mk (NodeManager.registerClient clientId md (nodeManager st))
     (redisPublisher st) (redisSubscriber st)
     (<[clientId := mkClient w md ∅ now]> (localClients st))
     (subscribedChannels st).

Definition subscribeToRedisChannel (channel : string) (st : t) : t :=
  match redisSubscriber st with
  | None => st
  | Some s =>
      if decide (channel ∈ subscribedChannels st) then st
      else
        match subscribe (routeChannel channel) s with
        | (s', true) =>
            mk (nodeManager st) (redisPublisher st) (Some s') (localClients st)
               ({[channel]} ∪ subscribedChannels st)
        | (s', false) =>
            mk (nodeManager st) (redisPublisher st) (Some s') (localClients st)
               (subscribedChannels st)
        end
  end.

Definition unsubscribeFromRedisChannel (channel : string) (st : t) : t :=
  match redisSubscriber st with
  | None => st
  | Some s =>
      if decide (channel ∈ subscribedChannels st) then
        match unsubscribe (routeChannel channel) s with
        | (s', true) =>
            mk (nodeManager st) (redisPublisher st) (Some s') (localClients st)
               (subscribedChannels st ∖ {[channel]})
        | (s', false) =>
            mk (nodeManager st) (redisPublisher st) (Some s') (localClients st)
               (subscribedChannels st)
        end
      else st
  end.

Definition subscribeToChannel (clientId channel : string) (st : t) : t * bool :=
  match localClients st !! clientId with
  | None => (st, false)
  | Some c =>
      let st1 :=
        mk (NodeManager.subscribeClientToChannel clientId channel (nodeManager st))
           (redisPublisher st) (redisSubscriber st)
           (<[clientId := with_channels ({[channel]} ∪ channels c) c]> (localClients st))
           (subscribedChannels st) in
      (if decide (channel ∈ subscribedChannels st1) then st1
       else subscribeToRedisChannel channel st1, true)
  end.

(** Some local client has [channel] in its set. *)
Definition stillNeeded (channel : string) (st : t) : Prop :=
  map_Exists (λ _ c, channel ∈ channels c) (localClients st).

Definition unsubscribeFromChannel (clientId channel : string) (st : t) : t :=
  match localClients st !! clientId with
  | None => st
  | Some c =>
      let st1 :=
        mk (NodeManager.unsubscribeClientFromChannel clientId channel (nodeManager st))
           (redisPublisher st) (redisSubscriber st)
           (<[clientId := with_channels (channels c ∖ {[channel]}) c]> (localClients st))
           (subscribedChannels st) in
      if decide (stillNeeded channel st1) then st1
      else unsubscribeFromRedisChannel channel st1
  end.

Definition unregisterLocalClient (clientId : string) (st : t) : t :=
  match localClients st !! clientId with
  | None => st
  | Some c =>
      let st1 := foldl (λ s ch, unsubscribeFromChannel clientId ch s) st
                       (elements (channels c)) in
      mk (NodeManager.unregisterClient clientId (nodeManager st1))
         (redisPublisher st1) (redisSubscriber st1)
         (delete clientId (localClients st1))
         (subscribedChannels st1)
  end.

(** [ws.readyState === 1] is [WebSocket.OPEN].  A failed write removes
    the connection. *)
Definition sendToLocalClient (clientId : string) (message : Msg) (st : t) : t * bool :=
  match localClients st !! clientId with
  | Some c =>
      if (readyState (ws c) =? 1)%Z then
        if sendThrows (ws c) then (unregisterLocalClient clientId st, false)
        else
          let w := mkWs (readyState (ws c)) (sendThrows (ws c)) (sent (ws c) ++ [message]) in
          (with_localClients
             (<[clientId := mkClient w (metadata c) (channels c) (joinedAt c)]>
                (localClients st)) st, true)
      else (st, false)
  | None => (st, false)
  end.

(** The clients are visited in the order of the table. *)
Definition broadcastToLocalChannel (channel : string) (message : Msg)
    (excludeClientId : option string) (st : t) : t * nat :=
  foldl (λ (acc : t * nat) clientId,
           if decide (excludeClientId = Some clientId) then acc
           else
             match localClients acc.1 !! clientId with
             | Some c =>
                 if decide (channel ∈ channels c) then
                   let '(s', ok) := sendToLocalClient clientId message acc.1 in
                   (s', if ok then S acc.2 else acc.2)
                 else acc
             | None => acc
             end)
        (st, 0%nat) (map_to_list (localClients st)).*1.

Definition broadcastToLocalClients (message : Msg)
    (excludeClientId : option string) (st : t) : t * nat :=
  foldl (λ (acc : t * nat) clientId,
           if decide (excludeClientId = Some clientId) then acc
           else
             let '(s', ok) := sendToLocalClient clientId message acc.1 in
             (s', if ok then S acc.2 else acc.2))
        (st, 0%nat) (map_to_list (localClients st)).*1.

(** Which branch of a send ran; JavaScript returns the count of local
    deliveries on the two local branches and nothing on the others. *)
Inductive routed :=
| Local (sentCount : nat)      (* no publisher: local fan-out *)
| Dropped                      (* the empty-list branch *)
| Published                    (* one envelope published *)
| Fallback (sentCount : nat)   (* the publish raised: local fan-out *)
| Unknown.                     (* direct send: the client is on no node *)

Definition sendToChannel (channel : string) (message : Msg)
    (excludeClientId : option string) (now : Z) (st : t) : t * routed :=
  match redisPublisher st with
  | None =>
      let '(st', n) := broadcastToLocalChannel channel message excludeClientId st in
      (st', Local n)
  | Some p =>
      let '(nm', targetNodes) :=
        NodeManager.getNodesForChannel channel (nodeManager st) in
      let st1 := with_nodeManager nm' st in
      if (length targetNodes =? 0)%nat then (st1, Dropped)
      else
        let routedMessage :=
          ChannelMessage channel message excludeClientId
            (NodeManager.nodeId (nodeManager st)) now targetNodes in
        match publish (routeChannel channel) routedMessage p with
        | (p', true) => (with_publisher p' st1, Published)
        | (p', false) =>
            let '(st', n) :=
              broadcastToLocalChannel channel message excludeClientId
                (with_publisher p' st1) in
            (st', Fallback n)
        end
  end.

Definition sendToClient (clientId : string) (message : Msg) (now : Z) (st : t)
    : t * bool :=
  match localClients st !! clientId with
  | Some _ => sendToLocalClient clientId message st
  | None =>
      match redisPublisher st with
      | None => (st, false)
      | Some p =>
          let '(nm', targetNode) :=
            NodeManager.getClientNode clientId (nodeManager st) in
          let st1 := with_nodeManager nm' st in
          match targetNode with
          | None => (st1, false)
          | Some n =>
              let routedMessage :=
                DirectMessage clientId message
                  (NodeManager.nodeId (nodeManager st)) n now in
              let '(p', ok) := publish (directChannel n) routedMessage p in
              (with_publisher p' st1, ok)
          end
      end
  end.

Definition broadcastToAll (message : Msg) (excludeClientId : option string)
    (now : Z) (st : t) : t :=
  match redisPublisher st with
  | None => (broadcastToLocalClients message excludeClientId st).1
  | Some p =>
      let routedMessage :=
        Broadcast message excludeClientId (NodeManager.nodeId (nodeManager st)) now in
      match publish broadcastChannel routedMessage p with
      | (p', true) => with_publisher p' st
      | (p', false) =>
          (broadcastToLocalClients message excludeClientId (with_publisher p' st)).1
      end
  end.

(** The listeners of the three kinds of KVPS channel. *)
Definition handleDirectMessage (data : envelope) (st : t) : t :=
  match data with
  | DirectMessage clientId message _ _ _ => (sendToLocalClient clientId message st).1
  | _ => st
  end.

Definition handleBroadcastMessage (data : envelope) (st : t) : t :=
  match data with
  | Broadcast message excl fromNode _ =>
      if decide (fromNode = NodeManager.nodeId (nodeManager st)) then st
      else (broadcastToLocalClients message excl st).1
  | _ => st
  end.

Definition handleChannelMessage (data : envelope) (st : t) : t :=
  match data with
  | ChannelMessage channel message excl _ _ targetNodes =>
      if decide (NodeManager.nodeId (nodeManager st) ∈ targetNodes) then
        (broadcastToLocalChannel channel message excl st).1
      else st
  | _ => st
  end.

(** *** Runs of the router *)
Inductive op :=
| RegisterLocalClient (clientId : string) (w : websocket)
    (md : gmap string string) (now : Z)
| UnregisterLocalClient (clientId : string)
| SubscribeToChannel (clientId channel : string)
| UnsubscribeFromChannel (clientId channel : string)
| SendToChannel (channel : string) (message : Msg)
    (excludeClientId : option string) (now : Z)
| SendToClient (clientId : string) (message : Msg) (now : Z)
| BroadcastToAll (message : Msg) (excludeClientId : option string) (now : Z)
| OnDirect (data : envelope)
| OnBroadcast (data : envelope)
| OnChannel (data : envelope).

Definition step (st : t) (o : op) : t :=
  match o with
  | RegisterLocalClient c w md now => registerLocalClient c w md now st
  | UnregisterLocalClient c => unregisterLocalClient c st
  | SubscribeToChannel c ch => (subscribeToChannel c ch st).1
  | UnsubscribeFromChannel c ch => unsubscribeFromChannel c ch st
  | SendToChannel ch m excl now => (sendToChannel ch m excl now st).1
  | SendToClient c m now => (sendToClient c m now st).1
  | BroadcastToAll m excl now => broadcastToAll m excl now st
  | OnDirect d => handleDirectMessage d st
  | OnBroadcast d => handleBroadcastMessage d st
  | OnChannel d => handleChannelMessage d st
  end.

Definition run (ops : list op) (st : t) : t := foldl step st ops.

(** The number of listeners this process holds on the route channel of
    [channel]. *)
Definition routeListeners (channel : string) (st : t) : nat :=
  match redisSubscriber st with
  | Some s => default 0%nat (listeners s !! routeChannel channel)
  | None => 0%nat
  end.




(** *** Statistics and shutdown *)

(** [distribution[channel] = (distribution[channel] || 0) + 1] on an object
    literal.  For a channel that bears the name of an inherited property the
    old value read is that property, and the sum is a text, not a count
    ([None]); assigning a text to [__proto__] does nothing. *)
Definition countChannel (distribution : gmap string (option nat)) (channel : string)
    : gmap string (option nat) :=
  if String.eqb channel "__proto__" then distribution
  else if bool_decide (channel ∈ Js.inherited) then <[channel := None]> distribution
  else
    match distribution !! channel with
    | Some (Some n) => <[channel := Some (S n)]> distribution
    | Some None => <[channel := None]> distribution
    | None => <[channel := Some 1%nat]> distribution
    end.

Definition getChannelDistribution (st : t) : gmap string (option nat) :=
  foldl (λ distribution (c : client),
           foldl countChannel distribution (elements (channels c)))
        ∅ (map_to_list (localClients st)).*2.

Record stats := mkStats {
  s_nodeId : string;
  s_localClients : nat;
  s_subscribedChannels : nat;
  s_channelDistribution : gmap string (option nat)
}.

Definition getStats (st : t) : stats :=
  mkStats (NodeManager.nodeId (nodeManager st)) (size (localClients st))
    (size (subscribedChannels st)) (getChannelDistribution st).


End WithMsg.
Arguments envelope : clear implicits.
Arguments websocket : clear implicits.
Arguments client : clear implicits.
Arguments publisher : clear implicits.
Arguments subscriber : clear implicits.
Arguments t : clear implicits.
Arguments op : clear implicits.
End MessageRouter.

(** ** The services

    A service reaches the router only through calls on [messageRouter]; each
    handler returns the calls it made, in order.  A service built without a
    router ([isDistributed = false]) makes none.  All clock readings of one
    handler invocation are the same instant [now], in milliseconds; an
    ISO-8601 timestamp is kept as the instant it denotes.  In a client frame
    [channel] and [emoji] are strings when present; the other fields are
    arbitrary values. *)

Inductive call (Msg : Type) :=
| SubscribeToChannel (clientId channel : string)
| UnsubscribeFromChannel (clientId channel : string)
| SendToChannel (channel : string) (message : Msg) (excludeClientId : option string)
| SendToClient (clientId : string) (message : Msg)
| SendToLocalClient (clientId : string) (message : Msg).
Arguments SubscribeToChannel {Msg} clientId channel.
Arguments UnsubscribeFromChannel {Msg} clientId channel.
Arguments SendToChannel {Msg} channel message excludeClientId.
Arguments SendToClient {Msg} clientId message.
Arguments SendToLocalClient {Msg} clientId message.

(** [!channel] for a field that is a string when present. *)
Definition missing (field : option string) : bool :=
  match field with
  | None => true
  | Some s => String.eqb s ""
  end.

(** [array.slice(start)] *)
Definition slice_from {A} (start : Z) (l : list A) : list A :=
  if (start <? 0)%Z then drop (Z.to_nat (Z.of_nat (length l) + start)) l
  else drop (Z.to_nat start) l.

(** An identifier made of a clock reading and a random suffix; JavaScript
    renders the two parts in base 36 and concatenates them. *)
Record ident := mkIdent { stamp : Z; suffix : string }.

(** *** services/chat-service.js *)
Module ChatService.

Record messageData := mkMessageData {
  id : ident;
  clientId : string;
  channel : string;
  message : string;
  metadata : Js.value;
  timestamp : Z
}.

Inductive msg :=
| Joined (channel : string) (timestamp : Z)
| Left (channel : string) (timestamp : Z)
| Sent (messageId : ident) (channel : string) (timestamp : Z)
| History (channel : string) (messages : list messageData) (timestamp : Z)
| Message (channel : string) (message : messageData) (timestamp : Z)
| Error (error : string) (timestamp : Z).

Record t := mk {
  clientChannels : gmap string (gset string);
  channelHistory : gmap string (list messageData);
  isDistributed : bool
}.

Definition maxHistorySize : nat := 100.

Definition new (messageRouter : bool) : t := mk ∅ ∅ messageRouter.

Definition sendToClient (clientId : string) (m : msg) (st : t) : list (call msg) :=
  if isDistributed st then [SendToClient clientId m] else [].

Definition sendError (clientId error : string) (now : Z) (st : t) : list (call msg) :=
  sendToClient clientId (Error error now) st.

Definition generateMessageId (now : Z) (rnd : string) : ident := mkIdent now rnd.

Definition getChannelHistory (channel : string) (limit : Z) (st : t)
    : list messageData :=
  slice_from (- limit) (default [] (channelHistory st !! channel)).

Definition sendChannelHistory (clientId channel : string) (now : Z) (st : t)
    : list (call msg) :=
  let history := getChannelHistory channel 20 st in
  if (0 <? length history)%nat
  then sendToClient clientId (History channel history now) st
  else [].

(** [history.push(messageData)], then [splice] off the front what exceeds
    the bound. *)
Definition addToChannelHistory (channel : string) (m : messageData) (st : t) : t :=
  let history := default [] (channelHistory st !! channel) ++ [m] in
  let history :=
    if (maxHistorySize <? length history)%nat
    then drop (length history - maxHistorySize) history
    else history in
  mk (clientChannels st) (<[channel := history]> (channelHistory st)) (isDistributed st).

Definition broadcastMessage (channel : string) (m : messageData) (now : Z) (st : t)
    : list (call msg) :=
  if isDistributed st then [SendToChannel channel (Message channel m now) None]
  else [].

Definition handleJoinChannel (clientId : string) (channel : option string)
    (now : Z) (st : t) : t * list (call msg) :=
  if missing channel then (st, sendError clientId "Channel name is required" now st)
  else
    let ch := default "" channel in
    if (String.length ch =? 0)%nat || (50 <? String.length ch)%nat then
      (st, sendError clientId
             "Channel name must be a string between 1 and 50 characters" now st)
    else
      let sub := if isDistributed st then [SubscribeToChannel clientId ch] else [] in
      let st' :=
        mk (<[clientId := {[ch]} ∪ default ∅ (clientChannels st !! clientId)]>
              (clientChannels st))
           (channelHistory st) (isDistributed st) in
      (st', sub ++ sendToClient clientId (Joined ch now) st'
                ++ sendChannelHistory clientId ch now st').

Definition handleLeaveChannel (clientId : string) (channel : option string)
    (now : Z) (st : t) : t * list (call msg) :=
  if missing channel then (st, sendError clientId "Channel name is required" now st)
  else
    let ch := default "" channel in
    let unsub := if isDistributed st then [UnsubscribeFromChannel clientId ch] else [] in
    let st' :=
      match clientChannels st !! clientId with
      | Some chans =>
          let chans' := chans ∖ {[ch]} in
          mk (if decide (size chans' = 0%nat) then delete clientId (clientChannels st)
              else <[clientId := chans']> (clientChannels st))
             (channelHistory st) (isDistributed st)
      | None => st
      end in
    (st', unsub ++ sendToClient clientId (Left ch now) st').

(** [rnd] is the random part of the identifier. *)
Definition handleSendMessage (clientId : string) (channel : option string)
    (message metadata : Js.value) (now : Z) (rnd : string) (st : t)
    : t * list (call msg) :=
  if missing channel || negb (Js.truthy message) then
    (st, sendError clientId "Channel and message are required" now st)
  else
    let ch := default "" channel in
    match message with
    | Js.JStr text =>
        if (String.length text =? 0)%nat || (1000 <? String.length text)%nat then
          (st, sendError clientId
                 "Message must be a string between 1 and 1000 characters" now st)
        else
          match clientChannels st !! clientId with
          | Some chans =>
              if decide (ch ∈ chans) then
                let messageData :=
                  mkMessageData (generateMessageId now rnd) clientId ch text
                    (Js.defaulted (Js.JObj []) metadata)
                    now in
                let st' := addToChannelHistory ch messageData st in
                (st', broadcastMessage ch messageData now st'
                      ++ sendToClient clientId (Sent (id messageData) ch now) st')
              else
                (st, sendError clientId
                       "You must join the channel before sending messages" now st)
          | None =>
              (st, sendError clientId
                     "You must join the channel before sending messages" now st)
          end
    | _ =>
        (st, sendError clientId
               "Message must be a string between 1 and 1000 characters" now st)
    end.

(** [limit] defaults to 50. *)
Definition handleGetHistory (clientId : string) (channel : option string)
    (limit : option Z) (now : Z) (st : t) : t * list (call msg) :=
  if missing channel then (st, sendError clientId "Channel name is required" now st)
  else
    let ch := default "" channel in
    (st, sendToClient clientId
           (History ch (getChannelHistory ch (default 50%Z limit) st) now) st).

(** The fields of a frame addressed to the chat service. *)
Record frame := mkFrame {
  f_channel : option string;
  f_message : Js.value;
  f_metadata : Js.value;
  f_limit : option Z
}.

Definition handleAction (clientId action : string) (data : frame)
    (now : Z) (rnd : string) (st : t) : t * list (call msg) :=
  if String.eqb action "join" then handleJoinChannel clientId (f_channel data) now st
  else if String.eqb action "leave" then handleLeaveChannel clientId (f_channel data) now st
  else if String.eqb action "send" then
    handleSendMessage clientId (f_channel data) (f_message data) (f_metadata data) now rnd st
  else if String.eqb action "history" then
    handleGetHistory clientId (f_channel data) (f_limit data) now st
  else (st, sendError clientId ("Unknown chat action: " +:+ action) now st).

(** One frame as the dispatcher hands it over. *)
Record request := mkRequest {
  r_client : string;
  r_action : string;
  r_data : frame;
  r_now : Z;
  r_rnd : string
}.

Definition serve (st : t) (r : request) : t :=
  (handleAction (r_client r) (r_action r) (r_data r) (r_now r) (r_rnd r) st).1.

Definition run (rs : list request) (st : t) : t := foldl serve st rs.

(** *** Life cycle and statistics *)

(** The channels of a set are visited in the order of [elements]. *)
Definition onClientDisconnect (clientId : string) (st : t) : t * list (call msg) :=
  match clientChannels st !! clientId with
  | Some chans =>
      (mk (delete clientId (clientChannels st)) (channelHistory st) (isDistributed st),
       if isDistributed st
       then (λ ch, UnsubscribeFromChannel clientId ch) <$> elements chans
       else [])
  | None => (st, [])
  end.

Definition shutdown (st : t) : t := mk ∅ ∅ (isDistributed st).

Record stats := mkStats {
  connectedClients : nat;
  activeChannels : nat;
  totalMessages : nat;
  s_isDistributed : bool
}.

Definition getStats (st : t) : stats :=
  mkStats (size (clientChannels st)) (size (channelHistory st))
    (foldl (λ sum (history : list messageData), sum + length history)%nat 0%nat
       (map_to_list (channelHistory st)).*2)
    (isDistributed st).

(** What reaches the service: a frame, or the end of a connection. *)
Inductive event :=
| OnFrame (r : request)
| OnDisconnect (clientId : string).

Definition handle (st : t) (e : event) : t :=
  match e with
  | OnFrame r => serve st r
  | OnDisconnect c => (onClientDisconnect c st).1
  end.

Definition runEvents (es : list event) (st : t) : t := foldl handle st es.

End ChatService.

(** *** services/reaction-service.js *)
Module ReactionService.

Record reaction := mkReaction {
  id : ident;
  clientId : string;
  channel : string;
  emoji : string;
  effect : option string;
  position : Js.value;
  metadata : Js.value;
  timestamp : Z
}.

Inductive msg :=
| ReactionSubscribed (channel : string) (availableReactions : list string)
| ReactionUnsubscribed (channel : string)
| ReactionSent (reactionId : ident) (emoji channel : string) (timestamp : Z)
| ReactionReceived (data : reaction)
| AvailableReactions
| Error (error : string).

Record t := mk {
  clientChannels : gmap string (gset string);
  reactionHistory : gmap string (list reaction);
  isDistributed : bool
}.

Definition maxHistorySize : nat := 50.

Definition new (messageRouter : bool) : t := mk ∅ ∅ messageRouter.

(** The catalog: emoji, name, effect. *)
Definition availableReactions : list (string * (string * string)) :=
  [ ("❤️", ("heart", "pulse-red"));
    ("😂", ("laugh", "shake"));
    ("👍", ("thumbs-up", "bounce-green"));
    ("👎", ("thumbs-down", "bounce-red"));
    ("😮", ("wow", "zoom"));
    ("😢", ("sad", "fade-blue"));
    ("😡", ("angry", "shake-red"));
    ("🎉", ("party", "confetti"));
    ("🔥", ("fire", "flicker-orange"));
    ("⚡", ("lightning", "flash-yellow"));
    ("💯", ("hundred", "spin-gold"));
    ("🚀", ("rocket", "fly-up")) ].

Fixpoint catalog_find (e : string) (l : list (string * (string * string)))
    : option (string * string) :=
  match l with
  | [] => None
  | (k, v) :: rest => if String.eqb e k then Some v else catalog_find e rest
  end.

Definition inCatalog (e : string) : bool :=
  match catalog_find e availableReactions with Some _ => true | None => false end.

(** [this.availableReactions[emoji]]: [None] when it reads [undefined],
    otherwise the [effect] field of what it reads, which an inherited
    property lacks. *)
Definition lookupReaction (e : string) : option (option string) :=
  match catalog_find e availableReactions with
  | Some (_, eff) => Some (Some eff)
  | None => if bool_decide (e ∈ Js.inherited) then Some None else None
  end.

Definition sendToClient (clientId : string) (m : msg) (st : t) : list (call msg) :=
  if isDistributed st then [SendToLocalClient clientId m] else [].

Definition sendSuccess := sendToClient.

Definition sendError (clientId error : string) (st : t) : list (call msg) :=
  sendToClient clientId (Error error) st.

Definition generateReactionId (now : Z) (rnd : string) : ident := mkIdent now rnd.

Definition handleSubscribeToReactions (clientId : string) (channel : option string)
    (st : t) : t * list (call msg) :=
  if missing channel then (st, sendError clientId "Channel name is required" st)
  else
    let ch := default "" channel in
    if (String.length ch =? 0)%nat || (50 <? String.length ch)%nat then
      (st, sendError clientId
             "Channel name must be a string between 1 and 50 characters" st)
    else
      let st' :=
        mk (<[clientId := {[ch]} ∪ default ∅ (clientChannels st !! clientId)]>
              (clientChannels st))
           (reactionHistory st) (isDistributed st) in
      let sub :=
        if isDistributed st then [SubscribeToChannel clientId ("reactions:" +:+ ch)]
        else [] in
      (st', sub ++ sendSuccess clientId
                     (ReactionSubscribed ch (availableReactions.*1)) st').

Definition handleUnsubscribeFromReactions (clientId : string) (channel : option string)
    (st : t) : t * list (call msg) :=
  if missing channel then (st, sendError clientId "Channel name is required" st)
  else
    let ch := default "" channel in
    let st' :=
      match clientChannels st !! clientId with
      | Some chans =>
          let chans' := chans ∖ {[ch]} in
          mk (if decide (size chans' = 0%nat) then delete clientId (clientChannels st)
              else <[clientId := chans']> (clientChannels st))
             (reactionHistory st) (isDistributed st)
      | None => st
      end in
    let unsub :=
      if isDistributed st then [UnsubscribeFromChannel clientId ("reactions:" +:+ ch)]
      else [] in
    (st', unsub ++ sendSuccess clientId (ReactionUnsubscribed ch) st').

(** [history.push(reaction)], then one [shift] when the bound is passed. *)
Definition record (channel : string) (r : reaction) (st : t) : t :=
  let history := default [] (reactionHistory st !! channel) ++ [r] in
  let history :=
    if (maxHistorySize <? length history)%nat then drop 1 history else history in
  mk (clientChannels st) (<[channel := history]> (reactionHistory st)) (isDistributed st).

(** Without a router the local fan-out goes through [sendToClient], which
    then writes nothing. *)
Definition broadcastToLocalChannel (channel : string) (m : msg) (st : t)
    : list (call msg) :=
  flat_map (λ kv : string * gset string,
              if decide (channel ∈ kv.2) then sendToClient kv.1 m st else [])
           (map_to_list (clientChannels st)).

Definition handleSendReaction (clientId : string) (channel emoji : option string)
    (position metadata : Js.value) (now : Z) (rnd : string) (st : t)
    : t * list (call msg) :=
  if missing channel || missing emoji then
    (st, sendError clientId "Channel and emoji are required" st)
  else
    let ch := default "" channel in
    let e := default "" emoji in
    match lookupReaction e with
    | None => (st, sendError clientId "Invalid emoji reaction" st)
    | Some eff =>
        let reaction :=
          mkReaction (generateReactionId now rnd) clientId ch e eff
            (Js.defaulted Js.JNull position)
            (Js.defaulted (Js.JObj []) metadata)
            now in
        let st' := record ch reaction st in
        let reactionMessage := ReactionReceived reaction in
        let fanout :=
          if isDistributed st'
          then [SendToChannel ("reactions:" +:+ ch) reactionMessage None]
          else broadcastToLocalChannel ch reactionMessage st' in
        (st', fanout ++ sendSuccess clientId (ReactionSent (id reaction) e ch now) st')
    end.

Definition handleGetAvailableReactions (clientId : string) (st : t)
    : t * list (call msg) :=
  (st, sendSuccess clientId AvailableReactions st).

Record frame := mkFrame {
  f_channel : option string;
  f_emoji : option string;
  f_position : Js.value;
  f_metadata : Js.value
}.

Definition handleAction (clientId action : string) (data : frame)
    (now : Z) (rnd : string) (st : t) : t * list (call msg) :=
  if String.eqb action "subscribe" then
    handleSubscribeToReactions clientId (f_channel data) st
  else if String.eqb action "unsubscribe" then
    handleUnsubscribeFromReactions clientId (f_channel data) st
  else if String.eqb action "send" then
    handleSendReaction clientId (f_channel data) (f_emoji data)
      (f_position data) (f_metadata data) now rnd st
  else if String.eqb action "getAvailable" then
    handleGetAvailableReactions clientId st
  else (st, sendError clientId ("Unknown reaction action: " +:+ action) st).

Record request := mkRequest {
  r_client : string;
  r_action : string;
  r_data : frame;
  r_now : Z;
  r_rnd : string
}.

Definition serve (st : t) (r : request) : t :=
  (handleAction (r_client r) (r_action r) (r_data r) (r_now r) (r_rnd r) st).1.

Definition run (rs : list request) (st : t) : t := foldl serve st rs.

(** *** Life cycle and statistics *)

Definition handleDisconnect (clientId : string) (st : t) : t * list (call msg) :=
  match clientChannels st !! clientId with
  | Some chans =>
      (mk (delete clientId (clientChannels st)) (reactionHistory st) (isDistributed st),
       if isDistributed st
       then (λ ch, UnsubscribeFromChannel clientId ("reactions:" +:+ ch)) <$> elements chans
       else [])
  | None => (st, [])
  end.

Record stats := mkStats {
  connectedClients : nat;
  activeChannels : nat;
  totalReactions : nat;
  availableReactionsCount : nat
}.

Definition getStats (st : t) : stats :=
  mkStats (size (clientChannels st)) (size (reactionHistory st))
    (foldl (λ sum (history : list reaction), sum + length history)%nat 0%nat
       (map_to_list (reactionHistory st)).*2)
    (length availableReactions).

Inductive event :=
| OnFrame (r : request)
| OnDisconnect (clientId : string).

Definition handle (st : t) (e : event) : t :=
  match e with
  | OnFrame r => serve st r
  | OnDisconnect c => (handleDisconnect c st).1
  end.

Definition runEvents (es : list event) (st : t) : t := foldl handle st es.

End ReactionService.

(** *** services/cursor-service.js

    The cursor service the server loads.  Its constructor sets the throttle
    interval and installs no timer. *)
Module CursorService.

Record cursorData := mkCursor {
  clientId : string;
  channel : string;
  position : Js.value;
  metadata : Js.value;
  timestamp : Z
}.

Inductive msg :=
| Update (channel : string) (cursor : cursorData) (timestamp : Z)
| Remove (channel clientId : string) (timestamp : Z)
| Subscribed (channel : string) (cursors : list cursorData) (timestamp : Z)
| Unsubscribed (channel : string) (timestamp : Z)
| Cursors (channel : string) (cursors : list cursorData) (timestamp : Z)
| Error (error : string) (timestamp : Z).

Record t := mk {
  clientCursors : gmap string cursorData;
  channelCursors : gmap string (gmap string cursorData);
  cursorUpdateThrottle : gmap string Z;
  isDistributed : bool
}.

Definition throttleInterval : Z := 250.

Definition new (messageRouter : bool) : t := mk ∅ ∅ ∅ messageRouter.

Definition sendToClient (clientId : string) (m : msg) (st : t) : list (call msg) :=
  if isDistributed st then [SendToClient clientId m] else [].

Definition sendError (clientId error : string) (now : Z) (st : t) : list (call msg) :=
  sendToClient clientId (Error error now) st.

(** [this.cursorUpdateThrottle.get(clientId) || 0] *)
Definition lastUpdate (clientId : string) (st : t) : Z :=
  default 0%Z (cursorUpdateThrottle st !! clientId).

Definition shouldUpdateCursor (clientId : string) (now : Z) (st : t) : t * bool :=
  if (now - lastUpdate clientId st <? throttleInterval)%Z then (st, false)
  else
    (mk (clientCursors st) (channelCursors st)
        (<[clientId := now]> (cursorUpdateThrottle st)) (isDistributed st), true).

Definition getChannelCursors (channel : string) (st : t) : list cursorData :=
  match channelCursors st !! channel with
  | None => []
  | Some m => (map_to_list m).*2
  end.

Definition broadcastCursorUpdate (channel : string) (cursor : cursorData)
    (excludeClientId : string) (now : Z) (st : t) : list (call msg) :=
  if isDistributed st
  then [SendToChannel ("cursor:" +:+ channel) (Update channel cursor now)
          (Some excludeClientId)]
  else [].

Definition broadcastCursorRemoval (channel clientId : string) (now : Z) (st : t)
    : list (call msg) :=
  if isDistributed st
  then [SendToChannel ("cursor:" +:+ channel) (Remove channel clientId now) None]
  else [].

Definition handleUpdateCursor (clientId : string) (channel : option string)
    (position metadata : Js.value) (now : Z) (st : t) : t * list (call msg) :=
  if missing channel || negb (Js.truthy position) then
    (st, sendError clientId "Channel and position are required" now st)
  else if negb (Js.is_number (Js.field "x" position))
          || negb (Js.is_number (Js.field "y" position)) then
    (st, sendError clientId "Position must have numeric x and y coordinates" now st)
  else
    match shouldUpdateCursor clientId now st with
    | (st1, false) => (st1, [])
    | (st1, true) =>
        let ch := default "" channel in
        let cursor :=
          mkCursor clientId ch position
            (Js.defaulted (Js.JObj []) metadata) now in
        let st2 :=
          mk (<[clientId := cursor]> (clientCursors st1))
             (<[ch := <[clientId := cursor]> (default ∅ (channelCursors st1 !! ch))]>
                (channelCursors st1))
             (cursorUpdateThrottle st1) (isDistributed st1) in
        (st2, broadcastCursorUpdate ch cursor clientId now st2)
    end.

Definition handleSubscribeCursors (clientId : string) (channel : option string)
    (now : Z) (st : t) : t * list (call msg) :=
  if missing channel then (st, sendError clientId "Channel is required" now st)
  else
    let ch := default "" channel in
    let sub :=
      if isDistributed st then [SubscribeToChannel clientId ("cursor:" +:+ ch)]
      else [] in
    (st, sub ++ sendToClient clientId (Subscribed ch (getChannelCursors ch st) now) st).

Definition handleUnsubscribeCursors (clientId : string) (channel : option string)
    (now : Z) (st : t) : t * list (call msg) :=
  if missing channel then (st, sendError clientId "Channel is required" now st)
  else
    let ch := default "" channel in
    let unsub :=
      if isDistributed st then [UnsubscribeFromChannel clientId ("cursor:" +:+ ch)]
      else [] in
    (st, unsub ++ sendToClient clientId (Unsubscribed ch now) st).

Definition handleGetCursors (clientId : string) (channel : option string)
    (now : Z) (st : t) : t * list (call msg) :=
  if missing channel then (st, sendError clientId "Channel is required" now st)
  else
    let ch := default "" channel in
    (st, sendToClient clientId (Cursors ch (getChannelCursors ch st) now) st).

Record frame := mkFrame {
  f_channel : option string;
  f_position : Js.value;
  f_metadata : Js.value
}.

Definition handleAction (clientId action : string) (data : frame) (now : Z) (st : t)
    : t * list (call msg) :=
  if String.eqb action "update" then
    handleUpdateCursor clientId (f_channel data) (f_position data) (f_metadata data) now st
  else if String.eqb action "subscribe" then
    handleSubscribeCursors clientId (f_channel data) now st
  else if String.eqb action "unsubscribe" then
    handleUnsubscribeCursors clientId (f_channel data) now st
  else if String.eqb action "get" then
    handleGetCursors clientId (f_channel data) now st
  else (st, sendError clientId ("Unknown cursor action: " +:+ action) now st).

(** The entry of a client is removed when its connection goes away. *)
Definition onClientDisconnect (clientId : string) (now : Z) (st : t)
    : t * list (call msg) :=
  let '(st1, calls) :=
    match clientCursors st !! clientId with
    | None => (st, [])
    | Some cur =>
        let cc := delete clientId (clientCursors st) in
        match channelCursors st !! channel cur with
        | None =>
            (mk cc (channelCursors st) (cursorUpdateThrottle st) (isDistributed st), [])
        | Some m =>
            let m' := delete clientId m in
            let chc :=
              if decide (size m' = 0%nat) then delete (channel cur) (channelCursors st)
              else <[channel cur := m']> (channelCursors st) in
            let st' := mk cc chc (cursorUpdateThrottle st) (isDistributed st) in
            (st', broadcastCursorRemoval (channel cur) clientId now st')
        end
    end in
  (mk (clientCursors st1) (channelCursors st1)
      (delete clientId (cursorUpdateThrottle st1)) (isDistributed st1), calls).




(** *** Life cycle and statistics *)

Definition shutdown (st : t) : t := mk ∅ ∅ ∅ (isDistributed st).

Record stats := mkStats {
  connectedClients : nat;
  activeChannels : nat;
  s_isDistributed : bool
}.

Definition getStats (st : t) : stats :=
  mkStats (size (clientCursors st)) (size (channelCursors st)) (isDistributed st).

(** What reaches the service: a frame, or the end of a connection. *)
Inductive event :=
| OnFrame (clientId action : string) (data : frame) (now : Z)
| OnDisconnect (clientId : string) (now : Z).

Definition handle (st : t) (e : event) : t :=
  match e with
  | OnFrame c action data now => (handleAction c action data now st).1
  | OnDisconnect c now => (onClientDisconnect c now st).1
  end.

Definition runEvents (es : list event) (st : t) : t := foldl handle st es.

End CursorService.

(** *** services/cursor-service.js, the variant with modes and a time to live

    The repository holds a second cursor service, which adds cursor modes,
    a time to live and a periodic sweeper.  It is modelled as the server
    builds a cursor service: with a router and a logger and no store client,
    so that cursor data lives in the tables of the process
    ([storeCursorData] and [removeCursorData] take their local branch). *)
Module CursorServiceTTL.

Abbreviation cursorData := CursorService.cursorData.
Abbreviation mkCursor := CursorService.mkCursor.
Abbreviation channel := CursorService.channel.
Abbreviation timestamp := CursorService.timestamp.

Inductive msg :=
| Update (channel : string) (cursor : cursorData) (timestamp : Z)
| Remove (channel clientId : string) (timestamp : Z)
| Subscribed (channel : string) (cursors : list cursorData) (timestamp : Z)
| Unsubscribed (channel : string) (timestamp : Z)
| Cursors (channel : string) (cursors : list cursorData) (timestamp : Z)
| Modes (timestamp : Z)
| Error (error : string) (timestamp : Z).

Record t := mk {
  clientCursors : gmap string cursorData;
  channelCursors : gmap string (gmap string cursorData);
  cursorUpdateThrottle : gmap string Z;
  isDistributed : bool
}.

Definition throttleInterval : Z := 250.
Definition cursorTTL : Z := 30000.

Definition new (messageRouter : bool) : t := mk ∅ ∅ ∅ messageRouter.

Definition supportedModes : list string := ["freeform"; "table"; "text"; "canvas"].

Definition sendToClient (clientId : string) (m : msg) (st : t) : list (call msg) :=
  if isDistributed st then [SendToClient clientId m] else [].

Definition sendError (clientId error : string) (now : Z) (st : t) : list (call msg) :=
  sendToClient clientId (Error error now) st.

Definition nonneg_number (v : Js.value) : bool :=
  match v with Js.JNum n => (0 <=? n)%Z | _ => false end.

(** For a mode of [supportedModes]. *)
Definition validatePositionForMode (position : Js.value) (mode : string) : bool :=
  if String.eqb mode "freeform" || String.eqb mode "canvas" then
    Js.is_number (Js.field "x" position) && Js.is_number (Js.field "y" position)
  else if String.eqb mode "table" then
    nonneg_number (Js.field "row" position) && nonneg_number (Js.field "col" position)
  else if String.eqb mode "text" then
    nonneg_number (Js.field "position" position)
  else false.

Definition requiredFields (mode : string) : string :=
  if String.eqb mode "table" then "row, col"
  else if String.eqb mode "text" then "position"
  else "x, y".

Definition lastUpdate (clientId : string) (st : t) : Z :=
  default 0%Z (cursorUpdateThrottle st !! clientId).

Definition shouldUpdateCursor (clientId : string) (now : Z) (st : t) : t * bool :=
  if (now - lastUpdate clientId st <? throttleInterval)%Z then (st, false)
  else
    (mk (clientCursors st) (channelCursors st)
        (<[clientId := now]> (cursorUpdateThrottle st)) (isDistributed st), true).

Definition storeLocalCursorData (clientId ch : string) (cursor : cursorData) (st : t)
    : t :=
  mk (<[clientId := cursor]> (clientCursors st))
     (<[ch := <[clientId := cursor]> (default ∅ (channelCursors st !! ch))]>
        (channelCursors st))
     (cursorUpdateThrottle st) (isDistributed st).

Definition storeCursorData := storeLocalCursorData.

Definition getLocalChannelCursors (ch : string) (st : t) : list cursorData :=
  match channelCursors st !! ch with
  | None => []
  | Some m => (map_to_list m).*2
  end.

Definition getChannelCursors := getLocalChannelCursors.

Definition broadcastCursorUpdate (ch : string) (cursor : cursorData)
    (excludeClientId : string) (now : Z) (st : t) : list (call msg) :=
  if isDistributed st
  then [SendToChannel ("cursor:" +:+ ch) (Update ch cursor now) (Some excludeClientId)]
  else [].

Definition broadcastCursorRemoval (ch clientId : string) (now : Z) (st : t)
    : list (call msg) :=
  if isDistributed st
  then [SendToChannel ("cursor:" +:+ ch) (Remove ch clientId now) None]
  else [].

Fixpoint set_field (k : string) (v : Js.value) (fs : list (string * Js.value))
    : list (string * Js.value) :=
  match fs with
  | [] => [(k, v)]
  | (k', v') :: rest =>
      if String.eqb k k' then (k, v) :: rest else (k', v') :: set_field k v rest
  end.

(** [{...metadata, mode, userInitials: metadata.userInitials || initials,
    userColor: metadata.userColor || color}] for a [metadata] that is an
    object; [initials] and [color] are what [generateInitials] and
    [generateUserColor] give for the client. *)
Definition enrich (metadata : Js.value) (mode initials color : string) : Js.value :=
  let own := match metadata with Js.JObj fs => fs | _ => [] end in
  let pick k d :=
    if Js.truthy (Js.assoc k own) then Js.assoc k own else Js.JStr d in
  Js.JObj (set_field "userColor" (pick "userColor" color)
            (set_field "userInitials" (pick "userInitials" initials)
              (set_field "mode" (Js.JStr mode) own))).

(** [mode] defaults to ["freeform"].  A mode that names a property every
    object inherits passes the first test and makes the validation raise,
    which [handleAction] reports as an internal error. *)
Definition handleUpdateCursor (clientId : string) (ch : option string)
    (position metadata : Js.value) (mode : option string)
    (initials color : string) (now : Z) (st : t) : t * list (call msg) :=
  let mode := default "freeform" mode in
  if missing ch || negb (Js.truthy position) then
    (st, sendError clientId "Channel and position are required" now st)
  else if bool_decide (mode ∈ Js.inherited) then
    (st, sendError clientId "Internal server error" now st)
  else if negb (bool_decide (mode ∈ supportedModes)) then
    (st, sendError clientId
           ("Unsupported cursor mode: " +:+ mode
            +:+ ". Supported modes: freeform, table, text, canvas") now st)
  else if negb (validatePositionForMode position mode) then
    (st, sendError clientId
           ("Invalid position for mode " +:+ mode +:+ ". Required fields: "
            +:+ requiredFields mode) now st)
  else
    match shouldUpdateCursor clientId now st with
    | (st1, false) => (st1, [])
    | (st1, true) =>
        let c := default "" ch in
        let cursor :=
          mkCursor clientId c position (enrich metadata mode initials color) now in
        let st2 := storeCursorData clientId c cursor st1 in
        (st2, broadcastCursorUpdate c cursor clientId now st2)
    end.

(** The body shared by [removeLocalCursorData] and
    [removeStaleClientCursor]. *)
Definition dropCursor (clientId : string) (now : Z) (st : t) : t * list (call msg) :=
  match clientCursors st !! clientId with
  | None => (st, [])
  | Some cur =>
      let cc := delete clientId (clientCursors st) in
      match channelCursors st !! channel cur with
      | None =>
          (mk cc (channelCursors st) (cursorUpdateThrottle st) (isDistributed st), [])
      | Some m =>
          let m' := delete clientId m in
          let chc :=
            if decide (size m' = 0%nat) then delete (channel cur) (channelCursors st)
            else <[channel cur := m']> (channelCursors st) in
          let st' := mk cc chc (cursorUpdateThrottle st) (isDistributed st) in
          (st', broadcastCursorRemoval (channel cur) clientId now st')
      end
  end.

Definition forgetThrottle (clientId : string) (st : t) : t :=
  mk (clientCursors st) (channelCursors st)
     (delete clientId (cursorUpdateThrottle st)) (isDistributed st).

Definition removeLocalCursorData := dropCursor.
Definition removeCursorData := removeLocalCursorData.

Definition onClientDisconnect (clientId : string) (now : Z) (st : t)
    : t * list (call msg) :=
  let '(st1, calls) := removeCursorData clientId now st in
  (forgetThrottle clientId st1, calls).

Definition removeStaleClientCursor (clientId : string) (now : Z) (st : t)
    : t * list (call msg) :=
  let '(st1, calls) := dropCursor clientId now st in
  (forgetThrottle clientId st1, calls).

Definition stale (now : Z) (cur : cursorData) : bool :=
  (cursorTTL <? now - timestamp cur)%Z.

(** The clients whose cursor is stale at [now], in the order of the table. *)
Definition staleCursors (now : Z) (st : t) : list string :=
  (filter (λ kv : string * cursorData, stale now kv.2 = true)
          (map_to_list (clientCursors st))).*1.

Definition removeAll (clients : list string) (now : Z) (st : t)
    : t * list (call msg) :=
  foldl (λ (acc : t * list (call msg)) clientId,
           let '(s, calls) := removeStaleClientCursor clientId now acc.1 in
           (s, acc.2 ++ calls))
        (st, []) clients.

(** What the timer of [startCleanupTimer] runs every [cleanupInterval]. *)
Definition cleanupStaleData (now : Z) (st : t) : t * list (call msg) :=
  removeAll (staleCursors now st) now st.




Inductive event :=
| OnUpdate (clientId : string) (ch : option string) (position metadata : Js.value)
    (mode : option string) (initials color : string) (now : Z)
| OnDisconnect (clientId : string) (now : Z)
| OnTimer (now : Z).

Definition step (st : t) (e : event) : t :=
  match e with
  | OnUpdate c ch p md mode i col now => (handleUpdateCursor c ch p md mode i col now st).1
  | OnDisconnect c now => (onClientDisconnect c now st).1
  | OnTimer now => (cleanupStaleData now st).1
  end.

Definition run (es : list event) (st : t) : t := foldl step st es.

End CursorServiceTTL.

(** *** services/presence-service.js

    A presence record is one object, held by the client table and by the
    table of every channel it is filed under; [heartbeat] and the offline
    mark write to the object.  [heap] holds the records and the tables hold
    references into it, so that a write is seen through every table;
    [allocated] counts the records created so far.  [timers] holds the
    clients whose delayed clean-up is pending, oldest first: the delays are
    equal, so the clean-ups run in the order they were scheduled.  In a
    client frame [status], [targetClientId] and [channel] are strings when
    present, and [channels] is an array of strings when present. *)
Module PresenceService.

Record presenceData := mkPresence {
  clientId : string;
  status : string;
  metadata : Js.value;
  channels : list string;
  nodeId : string;
  timestamp : Z;
  lastSeen : Z
}.

Inductive msg :=
| SetAck (presence : presenceData) (timestamp : Z)
| PresenceOf (data : presenceData) (timestamp : Z)
| PresenceIn (data : list presenceData) (timestamp : Z)
| Subscribed (channel : string) (presence : list presenceData) (timestamp : Z)
| Unsubscribed (channel : string) (timestamp : Z)
| Update (presence : presenceData) (timestamp : Z)
| Error (error : string) (timestamp : Z).

Definition ref := nat.

Record t := mk {
  heap : gmap ref presenceData;
  allocated : nat;
  clientPresence : gmap string ref;
  channelPresence : gmap string (gmap string ref);
  timers : list string;
  nodeManager : option string;
  isDistributed : bool
}.

Definition heartbeatInterval : Z := 30000.
Definition presenceTimeout : Z := 60000.

(** [nodeManager] is the identifier of the node manager the service is
    given, if it is given one. *)
Definition new (messageRouter : bool) (nodeManager : option string) : t :=
  mk ∅ 0 ∅ ∅ [] nodeManager messageRouter.

Definition validStatuses : list string := ["online"; "away"; "busy"; "offline"].

Definition sendToClient (clientId : string) (m : msg) (st : t) : list (call msg) :=
  if isDistributed st then [SendToClient clientId m] else [].

Definition sendError (clientId error : string) (now : Z) (st : t) : list (call msg) :=
  sendToClient clientId (Error error now) st.

(** The record a table entry refers to. *)
Definition deref (st : t) (r : ref) : option presenceData := heap st !! r.

Definition getChannelPresence (channel : string) (st : t) : list presenceData :=
  match channelPresence st !! channel with
  | None => []
  | Some m => omap (deref st) (map_to_list m).*2
  end.

(** The loop that takes a client out of the channel tables, run over the
    channels that satisfy [leaving]: the entry of the client is deleted and
    a table left empty is removed. *)
Definition dropFrom (clientId : string) (leaving : string → bool)
    (tables : gmap string (gmap string ref)) : gmap string (gmap string ref) :=
  foldl (λ acc (kv : string * gmap string ref),
           if bool_decide (is_Some (kv.2 !! clientId)) && leaving kv.1 then
             let m := delete clientId kv.2 in
             if decide (size m = 0%nat) then delete kv.1 acc else <[kv.1 := m]> acc
           else acc)
        tables (map_to_list tables).

Definition joinChannels (clientId : string) (r : ref) (newChannels : list string)
    (tables : gmap string (gmap string ref)) : gmap string (gmap string ref) :=
  foldl (λ acc channel, <[channel := <[clientId := r]> (default ∅ (acc !! channel))]> acc)
        tables newChannels.

Definition updateChannelPresence (clientId : string) (r : ref)
    (newChannels : list string) (st : t) : t :=
  mk (heap st) (allocated st) (clientPresence st)
     (joinChannels clientId r newChannels
        (dropFrom clientId (λ channel, negb (bool_decide (channel ∈ newChannels)))
           (channelPresence st)))
     (timers st) (nodeManager st) (isDistributed st).

(** Without a router the update is only logged. *)
Definition broadcastPresenceUpdate (p : presenceData) (now : Z) (st : t)
    : list (call msg) :=
  flat_map (λ channel,
              if isDistributed st
              then [SendToChannel ("presence:" +:+ channel) (Update p now)
                      (Some (clientId p))]
              else [])
           (channels p).

Definition handleSetPresence (clientId : string) (status : option string)
    (metadata : Js.value) (channels : option (list string)) (now : Z) (st : t)
    : t * list (call msg) :=
  if missing status then (st, sendError clientId "Status is required" now st)
  else
    let s := default "" status in
    if negb (bool_decide (s ∈ validStatuses)) then
      (st, sendError clientId
             "Invalid status. Must be one of: online, away, busy, offline" now st)
    else
      let p := mkPresence clientId s (Js.defaulted (Js.JObj []) metadata)
                 (default [] channels) (default "local" (nodeManager st)) now now in
      let r := allocated st in
      let st1 := mk (<[r := p]> (heap st)) (S (allocated st))
                   (<[clientId := r]> (clientPresence st)) (channelPresence st)
                   (timers st) (nodeManager st) (isDistributed st) in
      let st2 := updateChannelPresence clientId r (default [] channels) st1 in
      (st2, broadcastPresenceUpdate p now st2 ++ sendToClient clientId (SetAck p now) st2).

Definition handleGetPresence (clientId : string) (targetClientId channel : option string)
    (now : Z) (st : t) : t * list (call msg) :=
  if negb (missing targetClientId) then
    match clientPresence st !! default "" targetClientId ≫= deref st with
    | None => (st, sendError clientId "Client not found" now st)
    | Some p => (st, sendToClient clientId (PresenceOf p now) st)
    end
  else if negb (missing channel) then
    (st, sendToClient clientId
           (PresenceIn (getChannelPresence (default "" channel) st) now) st)
  else (st, sendError clientId "Either targetClientId or channel is required" now st).

Definition handleSubscribePresence (clientId : string) (channel : option string)
    (now : Z) (st : t) : t * list (call msg) :=
  if missing channel then (st, sendError clientId "Channel is required" now st)
  else
    let ch := default "" channel in
    let sub :=
      if isDistributed st then [SubscribeToChannel clientId ("presence:" +:+ ch)]
      else [] in
    (st, sub ++ sendToClient clientId (Subscribed ch (getChannelPresence ch st) now) st).

Definition handleUnsubscribePresence (clientId : string) (channel : option string)
    (now : Z) (st : t) : t * list (call msg) :=
  if missing channel then (st, sendError clientId "Channel is required" now st)
  else
    let ch := default "" channel in
    let unsub :=
      if isDistributed st then [UnsubscribeFromChannel clientId ("presence:" +:+ ch)]
      else [] in
    (st, unsub ++ sendToClient clientId (Unsubscribed ch now) st).

(** [presenceData.lastSeen = now] *)
Definition touch (now : Z) (p : presenceData) : presenceData :=
  mkPresence (clientId p) (status p) (metadata p) (channels p) (nodeId p)
    (timestamp p) now.

Definition handleHeartbeat (clientId : string) (now : Z) (st : t)
    : t * list (call msg) :=
  match clientPresence st !! clientId with
  | Some r =>
      (mk (alter (touch now) r (heap st)) (allocated st) (clientPresence st)
          (channelPresence st) (timers st) (nodeManager st) (isDistributed st), [])
  | None => (st, [])
  end.

(** [presenceData.status = 'offline'; presenceData.timestamp = now] *)
Definition markOffline (now : Z) (p : presenceData) : presenceData :=
  mkPresence (clientId p) "offline" (metadata p) (channels p) (nodeId p)
    now (lastSeen p).

Definition setClientOffline (clientId : string) (now : Z) (st : t)
    : t * list (call msg) :=
  match clientPresence st !! clientId with
  | Some r =>
      match deref st r with
      | Some p =>
          if negb (String.eqb (status p) "offline") then
            let p' := markOffline now p in
            let st1 := mk (<[r := p']> (heap st)) (allocated st) (clientPresence st)
                         (channelPresence st) (timers st) (nodeManager st)
                         (isDistributed st) in
            let st2 := updateChannelPresence clientId r (channels p') st1 in
            (st2, broadcastPresenceUpdate p' now st2)
          else (st, [])
      | None => (st, [])
      end
  | None => (st, [])
  end.

Definition stale (now : Z) (st : t) (r : ref) : bool :=
  match deref st r with
  | Some p => (presenceTimeout <? now - lastSeen p)%Z
  | None => false
  end.

Definition staleClients (now : Z) (st : t) : list string :=
  (filter (λ kv : string * ref, stale now st kv.2 = true)
          (map_to_list (clientPresence st))).*1.

(** What the timer of [startPresenceHeartbeat] runs every
    [heartbeatInterval]. *)
Definition cleanupStalePresence (now : Z) (st : t) : t * list (call msg) :=
  foldl (λ (acc : t * list (call msg)) clientId,
           let '(s, calls) := setClientOffline clientId now acc.1 in
           (s, acc.2 ++ calls))
        (st, []) (staleClients now st).

Record frame := mkFrame {
  f_status : option string;
  f_metadata : Js.value;
  f_channels : option (list string);
  f_targetClientId : option string;
  f_channel : option string
}.

Definition handleAction (clientId action : string) (data : frame) (now : Z) (st : t)
    : t * list (call msg) :=
  if String.eqb action "set" then
    handleSetPresence clientId (f_status data) (f_metadata data) (f_channels data) now st
  else if String.eqb action "get" then
    handleGetPresence clientId (f_targetClientId data) (f_channel data) now st
  else if String.eqb action "subscribe" then
    handleSubscribePresence clientId (f_channel data) now st
  else if String.eqb action "unsubscribe" then
    handleUnsubscribePresence clientId (f_channel data) now st
  else if String.eqb action "heartbeat" then
    handleHeartbeat clientId now st
  else (st, sendError clientId ("Unknown presence action: " +:+ action) now st).

Definition onClientConnect (clientId : string) (now : Z) (st : t)
    : t * list (call msg) :=
  handleSetPresence clientId (Some "online")
    (Js.JObj [("connected", Js.JBool true)]) (Some []) now st.

(** The client is marked offline at once and its clean-up is scheduled. *)
Definition onClientDisconnect (clientId : string) (now : Z) (st : t)
    : t * list (call msg) :=
  match clientPresence st !! clientId with
  | Some _ =>
      let '(st1, calls) := setClientOffline clientId now st in
      (mk (heap st1) (allocated st1) (clientPresence st1) (channelPresence st1)
          (timers st1 ++ [clientId]) (nodeManager st1) (isDistributed st1), calls)
  | None => (st, [])
  end.

(** The delayed clean-up that [onClientDisconnect] schedules. *)
Definition forget (clientId : string) (st : t) : t :=
  mk (heap st) (allocated st) (delete clientId (clientPresence st))
     (dropFrom clientId (λ _, true) (channelPresence st))
     (timers st) (nodeManager st) (isDistributed st).

(** The oldest pending clean-up runs. *)
Definition onTimeout (st : t) : t :=
  match timers st with
  | [] => st
  | clientId :: rest =>
      forget clientId
        (mk (heap st) (allocated st) (clientPresence st) (channelPresence st) rest
            (nodeManager st) (isDistributed st))
  end.

Definition shutdown (st : t) : t :=
  mk (heap st) (allocated st) ∅ ∅ (timers st) (nodeManager st) (isDistributed st).

Record stats := mkStats {
  connectedClients : nat;
  activeChannels : nat;
  statusBreakdown : gmap string (option nat);
  s_isDistributed : bool
}.

(** [statusCounts[status] = (statusCounts[status] || 0) + 1] is the
    statement that [MessageRouter.countChannel] models. *)
Definition getStats (st : t) : stats :=
  mkStats (size (clientPresence st)) (size (channelPresence st))
    (foldl MessageRouter.countChannel ∅
       (status <$> omap (deref st) (map_to_list (clientPresence st)).*2))
    (isDistributed st).

(** What reaches the service: a frame, the start or the end of a
    connection, the delayed clean-up, and the heartbeat timer. *)
Inductive event :=
| OnFrame (clientId action : string) (data : frame) (now : Z)
| OnConnect (clientId : string) (now : Z)
| OnDisconnect (clientId : string) (now : Z)
| OnTimeout
| OnHeartbeatTimer (now : Z).

Definition handle (st : t) (e : event) : t :=
  match e with
  | OnFrame c action data now => (handleAction c action data now st).1
  | OnConnect c now => (onClientConnect c now st).1
  | OnDisconnect c now => (onClientDisconnect c now st).1
  | OnTimeout => onTimeout st
  | OnHeartbeatTimer now => (cleanupStalePresence now st).1
  end.

Definition runEvents (es : list event) (st : t) : t := foldl handle st es.

End PresenceService.

(** * Invariants *)



(** The history of a channel, the ring of a channel. *)
Definition history (ch : string) (st : ChatService.t) : list ChatService.messageData :=
  default [] (ChatService.channelHistory st !! ch).

Definition ring (ch : string) (st : ReactionService.t) : list ReactionService.reaction :=
  default [] (ReactionService.reactionHistory st !! ch).

(** The client joined the channel and has not left it. *)
Definition joined (C ch : string) (st : ChatService.t) : Prop :=
  ∃ chans, ChatService.clientChannels st !! C = Some chans ∧ ch ∈ chans.




(** Every client cursor is filed under its channel. *)
Definition indexed (st : CursorServiceTTL.t) : Prop :=
  ∀ C cur, CursorServiceTTL.clientCursors st !! C = Some cur →
           ∃ m, CursorServiceTTL.channelCursors st !! CursorService.channel cur = Some m ∧
                is_Some (m !! C).

(** The channel holds no cursor of the client. *)
Definition absent (C ch : string) (st : CursorServiceTTL.t) : Prop :=
  ∀ m, CursorServiceTTL.channelCursors st !! ch = Some m → m !! C = None.


(** The client once [message] is written to its connection. *)
Definition written {Msg : Type} (message : Msg) (c : MessageRouter.client Msg)
    : MessageRouter.client Msg :=
  MessageRouter.mkClient
    (MessageRouter.mkWs (MessageRouter.readyState (MessageRouter.ws c))
       (MessageRouter.sendThrows (MessageRouter.ws c))
       (MessageRouter.sent (MessageRouter.ws c) ++ [message]))
    (MessageRouter.metadata c) (MessageRouter.channels c) (MessageRouter.joinedAt c).

(** A fan-out writes to the clients that are not excluded, have the channel
    (when the fan-out is for a channel) and whose connection is open. *)
Definition targeted {Msg : Type} (channel excludeClientId : option string)
    (clientId : string) (c : MessageRouter.client Msg) : bool :=
  bool_decide (excludeClientId ≠ Some clientId)
  && match channel with
     | Some ch => bool_decide (ch ∈ MessageRouter.channels c)
     | None => true
     end
  && (MessageRouter.readyState (MessageRouter.ws c) =? 1)%Z.

(** What a fan-out makes of a client: a client it writes to receives the
    message, or is dropped when the write raises. *)
Definition fanout {Msg : Type} (channel excludeClientId : option string) (message : Msg)
    (clientId : string) (c : MessageRouter.client Msg)
    : option (MessageRouter.client Msg) :=
  if targeted channel excludeClientId clientId c then
    if MessageRouter.sendThrows (MessageRouter.ws c) then None
    else Some (written message c)
  else Some c.

(** The clients of a table a fan-out reaches. *)
Definition reached {Msg : Type} (channel excludeClientId : option string)
    (clients : gmap string (MessageRouter.client Msg))
    : list (string * MessageRouter.client Msg) :=
  List.filter (λ kv, targeted channel excludeClientId kv.1 kv.2
                     && negb (MessageRouter.sendThrows (MessageRouter.ws kv.2)))
              (map_to_list clients).



(** The entry of the channel distribution for a channel that [n] local
    clients have. *)
Definition entryOf (n : nat) : option (option nat) :=
  if (n =? 0)%nat then None else Some (Some n).

(** [r'] holds nothing that [r] does not hold, and rejects nothing. *)
Definition pruned (r' r : Redis.t) : Prop :=
  Redis.kv r' ⊆ Redis.kv r ∧ Redis.members r' ⊆ Redis.members r ∧
  Redis.hashes r' ⊆ Redis.hashes r ∧ Redis.faults r' = [].







(** The client is subscribed to the reactions of the channel. *)
Definition watching (C ch : string) (st : ReactionService.t) : Prop :=
  ∃ chans, ReactionService.clientChannels st !! C = Some chans ∧ ch ∈ chans.

(** A reaction as [send] files it under a channel: it bears the channel,
    which has a name, and the effect that the table of reactions gives for
    its emoji. *)
Definition filed (ch : string) (r : ReactionService.reaction) : Prop :=
  ReactionService.channel r = ch ∧ ch ≠ "" ∧
  ReactionService.lookupReaction (ReactionService.emoji r)
  = Some (ReactionService.effect r).

(** Every ring the reaction service keeps has between 1 and 50 reactions,
    all filed by [send] under its channel. *)
Definition shelved (st : ReactionService.t) : Prop :=
  ∀ ch h, ReactionService.reactionHistory st !! ch = Some h →
          (1 ≤ length h ≤ 50)%nat ∧ ∀ r, r ∈ h → filed ch r.




(** The same for the cursor service without a time to live: the table of
    the channel holds [cur] for the client, whose latest cursor, if it has
    one, is on another channel. *)
Definition stranded (C ch : string) (cur : CursorService.cursorData)
    (st : CursorService.t) : Prop :=
  (∃ m, CursorService.channelCursors st !! ch = Some m ∧ m !! C = Some cur) ∧
  (∀ cur', CursorService.clientCursors st !! C = Some cur' →
           CursorService.channel cur' ≠ ch).

(** The event is an [update] frame of the client for the channel. *)
Definition revisiting (C ch : string) (e : CursorService.event) : Prop :=
  match e with
  | CursorService.OnFrame c action data _ =>
      c = C ∧ action = "update" ∧ CursorService.f_channel data = Some ch
  | _ => False
  end.

(** The presence record of the client is [p]. *)
Definition recorded (C : string) (p : PresenceService.presenceData)
    (st : PresenceService.t) : Prop :=
  ∃ r, PresenceService.clientPresence st !! C = Some r ∧
       PresenceService.heap st !! r = Some p.

(** What the table of a channel holds for a client. *)
Definition slot (ch C : string) (tables : gmap string (gmap string PresenceService.ref))
    : option PresenceService.ref :=
  tables !! ch ≫= (λ m, m !! C).

(** The table of the channel shows the record [p] for the client. *)
Definition shown (C : string) (p : PresenceService.presenceData) (ch : string)
    (st : PresenceService.t) : Prop :=
  ∃ r, slot ch C (PresenceService.channelPresence st) = Some r ∧
       PresenceService.heap st !! r = Some p.

(** The tables of the presence service agree: the references in use were
    allocated; the record of a client bears its identifier and one of the
    four statuses; no channel table is empty; and the table of a channel
    holds a reference for a client exactly when it is the reference the
    client table holds for it and the channels of the record include the
    channel. *)
Definition coherent (st : PresenceService.t) : Prop :=
  (∀ r, is_Some (PresenceService.heap st !! r) → (r < PresenceService.allocated st)%nat) ∧
  (∀ C r, PresenceService.clientPresence st !! C = Some r →
          ∃ p, PresenceService.heap st !! r = Some p ∧
               PresenceService.clientId p = C ∧
               PresenceService.status p ∈ PresenceService.validStatuses) ∧
  (∀ ch m, PresenceService.channelPresence st !! ch = Some m → m ≠ ∅) ∧
  (∀ ch C r, slot ch C (PresenceService.channelPresence st) = Some r ↔
             PresenceService.clientPresence st !! C = Some r ∧
             ∃ p, PresenceService.heap st !! r = Some p ∧
                  ch ∈ PresenceService.channels p).

(** What the loop of [dropFrom] makes of one channel table. *)
Definition dropped (C : string) (leaving : bool) (m : gmap string PresenceService.ref)
    : option (gmap string PresenceService.ref) :=
  if bool_decide (is_Some (m !! C)) && leaving then
    if decide (size (delete C m) = 0%nat) then None else Some (delete C m)
  else Some m.

(** What [setClientOffline] makes of a record. *)
Definition offlined (now : Z) (p : PresenceService.presenceData)
    : PresenceService.presenceData :=
  if String.eqb (PresenceService.status p) "offline" then p
  else PresenceService.markOffline now p.

(** The sweep at [now] finds the record stale. *)
Definition expired (now : Z) (p : PresenceService.presenceData) : bool :=
  (PresenceService.presenceTimeout <? now - PresenceService.lastSeen p)%Z.

(** * Scenarios

    Concrete states on which the properties below are exercised. *)

(** A router with a store, a publisher and no client at all. *)
Definition lone_router : MessageRouter.t string :=
  MessageRouter.new (NodeManager.mk (Some Redis.empty) "node-a")
    (Some (MessageRouter.mkPub [] [])) (Some (MessageRouter.mkSub ∅ [])).

(** A node manager on an empty store. *)
Definition fresh_node : NodeManager.t := NodeManager.mk (Some Redis.empty) "n1".

(** One client registered, nothing subscribed. *)
Definition one_client_store : Redis.t :=
  Redis.mk {[ NodeManager.clientNode "c1" := "n1" ]}
    {[ (NodeManager.nodeClients "n1", "c1") ]} ∅ [].

(** A client subscribes to ["g"] and is unregistered by the node manager
    alone, which leaves the edges of its subscription behind; then another
    client registers. *)
Definition stale_directory : NodeManager.t :=
  NodeManager.registerClient "c2" ∅
    (NodeManager.unregisterClient "c1"
       (NodeManager.subscribeClientToChannel "c1" "g"
          (NodeManager.registerClient "c1" ∅ fresh_node))).

Definition stale_store : Redis.t :=
  Redis.mk {[ NodeManager.clientNode "c2" := "n1" ]}
    {[ (NodeManager.channelNodes "g", "n1"); (NodeManager.nodeChannels "n1", "g");
       (NodeManager.clientChannels "c1", "g"); (NodeManager.nodeClients "n1", "c2") ]}
    ∅ [].


(** A router on an empty store; client ["a"] connects and joins ["g"]. *)
Definition router_start : MessageRouter.t string :=
  MessageRouter.new fresh_node None None.

Definition one_joined : MessageRouter.t string :=
  MessageRouter.step
    (MessageRouter.step router_start
       (MessageRouter.RegisterLocalClient "a" (MessageRouter.mkWs 1 false []) ∅ 0))
    (MessageRouter.SubscribeToChannel "a" "g").

(** Client ["a"] joined ["g"]. *)
Definition chat_joined : ChatService.t :=
  (ChatService.handleJoinChannel "a" (Some "g") 0 (ChatService.new true)).1.

(** Client ["c1"] moved its cursor on ["a"] at instant 1000000. *)
Definition cursor_moved : CursorService.t :=
  (CursorService.handleAction "c1" "update"
     (CursorService.mkFrame (Some "a")
        (Js.JObj [("x", Js.JNum 1); ("y", Js.JNum 2)]) Js.JUndefined)
     1000000 (CursorService.new true)).1.

(** Client ["c1"] moves its cursor on ["a"] at instant 1000000. *)
Definition one_cursor : list CursorServiceTTL.event :=
  [ CursorServiceTTL.OnUpdate "c1" (Some "a")
      (Js.JObj [("x", Js.JNum 1); ("y", Js.JNum 2)]) Js.JUndefined None "C1" "#FF6B6B"
      1000000 ].

(** Then it moves to ["b"], 300 ms later. *)
Definition two_channels : list CursorServiceTTL.event :=
  one_cursor ++
  [ CursorServiceTTL.OnUpdate "c1" (Some "b")
      (Js.JObj [("x", Js.JNum 5); ("y", Js.JNum 6)]) Js.JUndefined None "C1" "#FF6B6B"
      1000300 ].

(** The cursor of ["c1"] in [cursor_moved], and a [get] on its channel 50 s
    after it was set. *)
Definition lingering_cursor : CursorService.cursorData :=
  CursorService.mkCursor "c1" "a"
    (Js.JObj [("x", Js.JNum 1); ("y", Js.JNum 2)]) (Js.JObj []) 1000000.



(** [two_channels] followed by a sweep 40 s later. *)
Definition swept_two_channels : CursorServiceTTL.t :=
  (CursorServiceTTL.cleanupStaleData 1040000
     (CursorServiceTTL.run two_channels (CursorServiceTTL.new true))).1.

(** A router whose store connection rejects the next subscription; client
    ["a"] is connected. *)
Definition rejecting_router : MessageRouter.t string :=
  MessageRouter.registerLocalClient "a" (MessageRouter.mkWs 1 false []) ∅ 0
    (MessageRouter.mk fresh_node None (Some (MessageRouter.mkSub ∅ [true])) ∅ ∅).


(** The client of [one_joined]. *)
Definition joined_client : MessageRouter.client string :=
  MessageRouter.mkClient (MessageRouter.mkWs 1 false []) ∅ {["g"]} 0.



(** [cursor_moved] after ["c1"] moves its cursor on ["b"], 300 ms later. *)
Definition cursor_moved_on : CursorService.t :=
  (CursorService.handleAction "c1" "update"
     (CursorService.mkFrame (Some "b")
        (Js.JObj [("x", Js.JNum 5); ("y", Js.JNum 6)]) Js.JUndefined)
     1000300 cursor_moved).1.

(** Client ["a"] connects to the presence service at instant 1000. *)
Definition presence_connected : list PresenceService.event :=
  [ PresenceService.OnConnect "a" 1000 ].

(** The record of ["a"] in [presence_connected], on a node ["n1"]. *)
Definition online_record : PresenceService.presenceData :=
  PresenceService.mkPresence "a" "online" (Js.JObj [("connected", Js.JBool true)])
    [] "n1" 1000 1000.

(** * Properties *)

(** ** Strings *)

Lemma string_length_app (a b : string) :
  String.length (a +:+ b) = (String.length a + String.length b)%nat.
Proof. induction a as [|c a IH]; simpl; [done | by rewrite IH]. Qed.

(** Appending a fixed suffix is injective. *)
Lemma string_app_inj_r (t a b : string) : a +:+ t = b +:+ t → a = b.
Proof.
  revert b. induction a as [|c a IH]; intros [|d b] H; simpl in *.
  - done.
  - apply (f_equal String.length) in H.
    rewrite !string_length_app in H. simpl in H.
    rewrite ?string_length_app in H. lia.
  - apply (f_equal String.length) in H.
    rewrite !string_length_app in H. simpl in H.
    rewrite ?string_length_app in H. lia.
  - injection H as -> H. f_equal. by apply IH.
Qed.


(** ** Keys of the directory *)
Section Keys.
Import NodeManager.

Lemma clientChannels_inj a b : clientChannels a = clientChannels b → a = b.
Proof.
  unfold clientChannels. intros H. simplify_eq/=.
  by apply string_app_inj_r in H.
Qed.

Lemma nodeClients_ne_nodeChannels n : nodeClients n ≠ nodeChannels n.
Proof.
  unfold nodeClients, nodeChannels. intros H. simplify_eq/=.
Qed.

Lemma clientChannels_ne_nodeChannels c n : clientChannels c ≠ nodeChannels n.
Proof. unfold clientChannels, nodeChannels. intros H. simplify_eq/=. Qed.

Lemma clientChannels_ne_nodeClients c n : clientChannels c ≠ nodeClients n.
Proof. unfold clientChannels, nodeClients. intros H. simplify_eq/=. Qed.

Lemma clientChannels_ne_channelNodes c ch : clientChannels c ≠ channelNodes ch.
Proof. unfold clientChannels, channelNodes. intros H. simplify_eq/=. Qed.

Lemma nodeClients_ne_channelNodes n ch : nodeClients n ≠ channelNodes ch.
Proof. unfold nodeClients, channelNodes. intros H. simplify_eq/=. Qed.

Lemma nodeChannels_ne_channelNodes n ch : nodeChannels n ≠ channelNodes ch.
Proof. unfold nodeChannels, channelNodes. intros H. simplify_eq/=. Qed.

End Keys.

(** ** The store *)
Ltac store_simpl :=
  cbn [Redis.members Redis.kv Redis.hashes Redis.faults
       NodeManager.nodeId NodeManager.redis] in *.

Section Store.

Lemma elem_of_smembers (k x : string) (s : gset (string * string)) :
  x ∈ Redis.smembers k s ↔ (k, x) ∈ s.
Proof.
  unfold Redis.smembers. rewrite elem_of_map. split.
  - intros [[k' x'] [-> [Hk Hin]%elem_of_filter]]. simpl in *. by subst.
  - intros Hin. exists (k, x). split; [done|]. by apply elem_of_filter.
Qed.

Lemma smembers_empty (k : string) (s : gset (string * string)) :
  Redis.smembers k s = ∅ ↔ ∀ x, (k, x) ∉ s.
Proof.
  split.
  - intros He x Hin. apply elem_of_smembers in Hin. rewrite He in Hin. set_solver.
  - intros Hn. apply set_eq. intros x. rewrite elem_of_smembers. set_solver.
Qed.

Lemma smembers_empty_store (k : string) :
  Redis.smembers k (Redis.members Redis.empty) = ∅.
Proof. apply smembers_empty. intros x. cbn. set_solver. Qed.

(** A command on a store that rejects nothing. *)
Lemma command_healthy {A} (f : Redis.t → Redis.t * A) r :
  Redis.faults r = [] → Redis.command f r = ((f r).1, Redis.Ok (f r).2).
Proof. intros H. unfold Redis.command. rewrite H. by destruct (f r). Qed.

End Store.

(** ** Node manager: the nodes of a channel *)
Section NodesForChannel.
Import NodeManager.

(** What [getNodesForChannel] answers: the stored node set when the lookup
    goes through and the set has a member, this node alone otherwise. *)
Lemma getNodesForChannel_cases (nm : t) (ch : string) :
  let nodes := (getNodesForChannel ch nm).2 in
  nodes = [nodeId nm] ∨
  (nodes ≠ [] ∧ ∃ r, redis nm = Some r ∧
     nodes = elements (Redis.smembers (channelNodes ch) (Redis.members r))).
Proof.
  unfold getNodesForChannel. destruct (redis nm) as [r|] eqn:Hr; [|by left].
  unfold Redis.attempt, Redis.bind, Redis.sMembers, Redis.command, Redis.ret.
  destruct (Redis.faults r) as [|[] fs]; simpl; try by left.
  - destruct (elements _) as [|x l] eqn:He; simpl; [by left|].
    right. split; [done|]. exists r. by rewrite He.
  - destruct (elements _) as [|x l] eqn:He; simpl; [by left|].
    right. split; [done|]. exists r. by rewrite He.
Qed.

Lemma getNodesForChannel_nodeId (nm : t) (ch : string) :
  nodeId (getNodesForChannel ch nm).1 = nodeId nm.
Proof.
  unfold getNodesForChannel. destruct (redis nm) as [r|]; [|done].
  by destruct (Redis.attempt _ _ r).
Qed.

Lemma getNodesForChannel_is_Some (nm : t) (ch : string) :
  is_Some (redis nm) → is_Some (redis (getNodesForChannel ch nm).1).
Proof.
  intros [r Hr]. unfold getNodesForChannel. rewrite Hr.
  by destruct (Redis.attempt _ _ r).
Qed.

Lemma getNodesForChannel_unserved (nm : t) (ch : string) r :
  redis nm = Some r →
  Redis.smembers (channelNodes ch) (Redis.members r) = ∅ →
  (getNodesForChannel ch nm).2 = [nodeId nm].
Proof.
  intros Hr He.
  destruct (getNodesForChannel_cases nm ch) as [H|[Hn (r' & Hr' & H)]]; [done|].
  simpl in *. simplify_eq. rewrite He, elements_empty in H. by rewrite H in Hn.
Qed.

End NodesForChannel.

(** C9.  [getNodesForChannel] never answers the empty list: it answers this
    node alone when the node manager has no store, when the lookup raises and
    when the stored node set of the channel is empty; so [sendToChannel]
    never takes the branch that drops the message. *)
Theorem getNodesForChannel_never_empty (nm : NodeManager.t) (channel : string) :
  let nodes := (NodeManager.getNodesForChannel channel nm).2 in
  nodes ≠ [] ∧
  (NodeManager.redis nm = None → nodes = [NodeManager.nodeId nm]) ∧
  (∀ r, NodeManager.redis nm = Some r →
        head (Redis.faults r) = Some true → nodes = [NodeManager.nodeId nm]) ∧
  (∀ r, NodeManager.redis nm = Some r →
        Redis.smembers (NodeManager.channelNodes channel) (Redis.members r) = ∅ →
        nodes = [NodeManager.nodeId nm]) ∧
  (∀ (Msg : Type) (st : MessageRouter.t Msg) message excludeClientId now,
        MessageRouter.nodeManager st = nm →
        (MessageRouter.sendToChannel channel message excludeClientId now st).2
        ≠ MessageRouter.Dropped).
Proof.
  assert (Hne : (NodeManager.getNodesForChannel channel nm).2 ≠ []).
  { destruct (getNodesForChannel_cases nm channel) as [H|[H _]]; [|done].
    simpl in H. by rewrite H. }
  simpl. split; [done|]. split; [|split; [|split]].
  - intros H. unfold NodeManager.getNodesForChannel. by rewrite H.
  - intros r Hr Hf. unfold NodeManager.getNodesForChannel. rewrite Hr.
    unfold Redis.attempt, Redis.bind, Redis.sMembers, Redis.command.
    destruct (Redis.faults r) as [|[] fs]; by simplify_eq/=.
  - intros r Hr He. by eapply getNodesForChannel_unserved.
  - intros Msg st message excl now <-. unfold MessageRouter.sendToChannel.
    destruct (MessageRouter.redisPublisher st) as [p|].
    + destruct (NodeManager.getNodesForChannel channel _) as [nm' nodes] eqn:Hg.
      assert (nodes ≠ []) as Hn by (try rewrite Hg in Hne; exact Hne).
      destruct nodes as [|n l]; [done|]. simpl.
      destruct (MessageRouter.publish _ _ p) as [p' []]; [done|].
      by destruct (MessageRouter.broadcastToLocalChannel _ _ _ _).
    + by destruct (MessageRouter.broadcastToLocalChannel _ _ _ _).
Qed.

(** The directory has no node for ["g"], yet the message goes out. *)
Example getNodesForChannel_substitutes_self :
  (NodeManager.getNodesForChannel "g"
     (NodeManager.mk (Some Redis.empty) "node-a")).2 = ["node-a"].
Proof.
  apply (proj1 (proj2 (proj2 (proj2
           (getNodesForChannel_never_empty
              (NodeManager.mk (Some Redis.empty) "node-a") "g")))) Redis.empty).
  - reflexivity.
  - apply smembers_empty_store.
Defined.

(** ** Router: a channel no node serves *)
Section Unserved.
Import MessageRouter.
Context {Msg : Type}.

Lemma publish_healthy (ch : string) (env : envelope Msg) (p : publisher Msg) :
  head (pfaults p) ≠ Some true →
  publish ch env p = (mkPub (published p ++ [(ch, env)]) (tail (pfaults p)), true).
Proof.
  unfold publish. destruct (pfaults p) as [|[] fs]; simpl; [done| |done].
  intros H. by destruct H.
Qed.

End Unserved.

(** C1, as the code has it.  When [sendToChannel] queries the directory and
    the stored node set of the channel is empty, the message is not dropped:
    the envelope is addressed to this node alone and, the publish going
    through, exactly that one envelope is published on the route channel. *)
Theorem sendToChannel_unserved_publishes_to_self
    (Msg : Type) (st : MessageRouter.t Msg) (channel : string) (message : Msg)
    (excludeClientId : option string) (now : Z)
    (p : MessageRouter.publisher Msg) (r : Redis.t) :
  MessageRouter.redisPublisher st = Some p →
  NodeManager.redis (MessageRouter.nodeManager st) = Some r →
  Redis.smembers (NodeManager.channelNodes channel) (Redis.members r) = ∅ →
  head (MessageRouter.pfaults p) ≠ Some true →
  let self := NodeManager.nodeId (MessageRouter.nodeManager st) in
  let res := MessageRouter.sendToChannel channel message excludeClientId now st in
  res.2 = MessageRouter.Published ∧
  ∃ p', MessageRouter.redisPublisher res.1 = Some p' ∧
        MessageRouter.published p' = MessageRouter.published p ++
          [(MessageRouter.routeChannel channel,
            MessageRouter.ChannelMessage channel message excludeClientId self now [self])].
Proof.
  intros Hp Hr He Hf. simpl. unfold MessageRouter.sendToChannel. rewrite Hp.
  pose proof (getNodesForChannel_unserved (MessageRouter.nodeManager st) channel r Hr He)
    as Hself.
  destruct (NodeManager.getNodesForChannel channel _) as [nm' nodes].
  simpl in Hself. subst nodes. simpl.
  rewrite publish_healthy by done. simpl. split; [done|]. by eexists.
Qed.


Lemma sendToChannel_unserved_publishes_to_self_witness :
  (MessageRouter.sendToChannel "g" "hi" None 7 lone_router).2 = MessageRouter.Published.
Proof.
  apply (sendToChannel_unserved_publishes_to_self string lone_router "g" "hi" None 7
           (MessageRouter.mkPub [] []) Redis.empty).
  - reflexivity.
  - reflexivity.
  - apply smembers_empty_store.
  - simpl. discriminate.
Defined.

(** C1 as stated fails: no node serves ["g"], and an envelope is published. *)
Lemma sendToChannel_unserved_not_dropped :
  ¬ (∀ (st : MessageRouter.t string) channel message excludeClientId now p r,
       MessageRouter.redisPublisher st = Some p →
       NodeManager.redis (MessageRouter.nodeManager st) = Some r →
       Redis.smembers (NodeManager.channelNodes channel) (Redis.members r) = ∅ →
       ∃ p', MessageRouter.redisPublisher
               (MessageRouter.sendToChannel channel message excludeClientId now st).1
             = Some p' ∧
             MessageRouter.published p' = MessageRouter.published p).
Proof.
  intros H.
  destruct (H lone_router "g" "hi" None 7%Z (MessageRouter.mkPub [] []) Redis.empty
              eq_refl eq_refl (smembers_empty_store _)) as (p' & Hp' & Hpub).
  assert (MessageRouter.redisPublisher
            (MessageRouter.sendToChannel "g" "hi" None 7 lone_router).1
          = Some (MessageRouter.mkPub
                    [("websocket:route:g",
                      MessageRouter.ChannelMessage "g" "hi" None "node-a" 7 ["node-a"])]
                    [])) as Hrun by (vm_compute; reflexivity).
  rewrite Hrun in Hp'. injection Hp' as <-. discriminate Hpub.
Qed.

(** ** Node manager: subscribing and unsubscribing *)
Section RoundTrip.
Import NodeManager.

Lemma hasChannelClients_none (clients : list string) (ch : string) (r : Redis.t) :
  Redis.faults r = [] →
  (∀ cl, cl ∈ clients → (clientChannels cl, ch) ∉ Redis.members r) →
  hasChannelClients clients ch r = (r, Redis.Ok false).
Proof.
  intros Hf. induction clients as [|cl rest IH]; intros Hn; simpl; [done|].
  unfold Redis.bind, Redis.sMembers. rewrite command_healthy by done. simpl.
  rewrite bool_decide_eq_false_2.
  - apply IH. intros cl' Hin. apply Hn. by right.
  - rewrite elem_of_elements, elem_of_smembers. apply Hn. by left.
Qed.

(** Subscribing and then unsubscribing a client, on a store that rejects
    nothing and for a channel no client of this node has in its channel set,
    takes the three edges of the subscription out of the store and leaves
    the rest. *)
Lemma subscribe_unsubscribe_store (nm : t) (r : Redis.t) (C c : string) :
  redis nm = Some r →
  Redis.faults r = [] →
  (∀ cl, (nodeClients (nodeId nm), cl) ∈ Redis.members r →
         (clientChannels cl, c) ∉ Redis.members r) →
  unsubscribeClientFromChannel C c (subscribeClientToChannel C c nm)
  = mk (Some (Redis.mk (Redis.kv r)
                (Redis.members r ∖ {[ (clientChannels C, c) ]}
                                 ∖ {[ (channelNodes c, nodeId nm) ]}
                                 ∖ {[ (nodeChannels (nodeId nm), c) ]})
                (Redis.hashes r) [])) (nodeId nm).
Proof.
  intros Hr Hf Hloc. destruct nm as [o self]. simpl in *. subst o.
  destruct r as [kv M hs fl]. simpl in *. subst fl.
  unfold subscribeClientToChannel, guarded. simpl.
  unfold unsubscribeClientFromChannel, guarded. simpl.
  unfold Redis.attempt, Redis.bind at 1. simpl.
  unfold Redis.bind at 1. unfold Redis.sMembers at 1.
  rewrite command_healthy by done. simpl.
  unfold Redis.bind at 1.
  rewrite hasChannelClients_none; simpl; [|done|].
  - f_equal. f_equal. f_equal. set_solver.
  - intros cl. rewrite elem_of_elements, elem_of_smembers.
    intros Hin Hc.
    assert ((nodeClients self, cl) ∈ M) as HM.
    { pose proof (clientChannels_ne_nodeClients C self).
      pose proof (nodeClients_ne_nodeChannels self).
      pose proof (nodeClients_ne_channelNodes self c).
      set_solver. }
    apply (Hloc cl HM).
    pose proof (clientChannels_ne_nodeChannels cl self).
    pose proof (clientChannels_ne_channelNodes cl c).
    set_solver.
Qed.

End RoundTrip.

(** C6, as the code has it.  On a store that rejects nothing, for a
    registered client and a channel that no client of this node has in its
    channel set, and with the directory consistent for that channel (this
    node is not in the node set of the channel, nor the channel in the
    channel set of this node), subscribing and then unsubscribing gives the
    directory back unchanged. *)
Theorem subscribe_unsubscribe_roundtrip
    (nm : NodeManager.t) (r : Redis.t) (C c : string) :
  NodeManager.redis nm = Some r →
  Redis.faults r = [] →
  let self := NodeManager.nodeId nm in
  let M := Redis.members r in
  C ∈ Redis.smembers (NodeManager.nodeClients self) M →
  (∀ cl, cl ∈ Redis.smembers (NodeManager.nodeClients self) M →
         c ∉ Redis.smembers (NodeManager.clientChannels cl) M) →
  self ∉ Redis.smembers (NodeManager.channelNodes c) M →
  c ∉ Redis.smembers (NodeManager.nodeChannels self) M →
  NodeManager.unsubscribeClientFromChannel C c
    (NodeManager.subscribeClientToChannel C c nm) = nm.
Proof.
  intros Hr Hf self M HC Hloc Hcn Hnc.
  rewrite (subscribe_unsubscribe_store nm r C c Hr Hf).
  - destruct nm as [o n], r as [kv M' hs fl]. simpl in *. subst.
    f_equal. f_equal. f_equal.
    specialize (Hloc C HC). rewrite elem_of_smembers in Hloc, Hcn, Hnc.
    set_solver.
  - intros cl Hin. specialize (Hloc cl). rewrite !elem_of_smembers in Hloc.
    by apply Hloc.
Qed.

Lemma subscribe_unsubscribe_roundtrip_witness :
  NodeManager.unsubscribeClientFromChannel "c1" "g"
    (NodeManager.subscribeClientToChannel "c1" "g"
       (NodeManager.mk (Some one_client_store) "n1"))
  = NodeManager.mk (Some one_client_store) "n1".
Proof.
  apply (subscribe_unsubscribe_roundtrip
           (NodeManager.mk (Some one_client_store) "n1") one_client_store "c1" "g").
  - reflexivity.
  - reflexivity.
  - apply elem_of_smembers. unfold one_client_store. store_simpl.
    apply elem_of_singleton. reflexivity.
  - intros cl _. rewrite elem_of_smembers. unfold one_client_store. store_simpl.
    intros Hin. apply elem_of_singleton in Hin.
    apply (f_equal fst) in Hin. cbn [fst] in Hin.
    by apply clientChannels_ne_nodeClients in Hin.
  - rewrite elem_of_smembers. unfold one_client_store. store_simpl.
    intros Hin. apply elem_of_singleton in Hin.
    apply (f_equal fst) in Hin. cbn [fst] in Hin.
    symmetry in Hin. by apply nodeClients_ne_channelNodes in Hin.
  - rewrite elem_of_smembers. unfold one_client_store. store_simpl.
    intros Hin. apply elem_of_singleton in Hin.
    apply (f_equal fst) in Hin. cbn [fst] in Hin.
    symmetry in Hin. by apply nodeClients_ne_nodeChannels in Hin.
Defined.

Lemma stale_directory_store : stale_directory = NodeManager.mk (Some stale_store) "n1".
Proof. vm_compute. reflexivity. Qed.

Lemma stale_store_local (cl : string) :
  (NodeManager.nodeClients "n1", cl) ∈ Redis.members stale_store →
  (NodeManager.clientChannels cl, "g") ∉ Redis.members stale_store.
Proof.
  unfold stale_store. store_simpl.
  rewrite !elem_of_union, !elem_of_singleton. intros Hin Hc.
  pose proof (nodeClients_ne_channelNodes "n1" "g").
  pose proof (nodeClients_ne_nodeChannels "n1").
  pose proof (clientChannels_ne_nodeClients "c1" "n1").
  pose proof (clientChannels_ne_channelNodes cl "g").
  pose proof (clientChannels_ne_nodeChannels cl "n1").
  pose proof (clientChannels_ne_nodeClients cl "n1").
  assert (cl = "c2") as -> by (destruct Hin as [[[?|?]|?]|?]; congruence).
  destruct Hc as [[[?|?]|Hc]|?]; try congruence.
  apply (f_equal fst) in Hc. cbn [fst] in Hc. by apply clientChannels_inj in Hc.
Qed.

(** C6 as stated fails on a directory that holds a stale edge: client ["c2"]
    is registered, no client of the node has ["g"] in its channel set, and
    the round trip removes the node from the node set of ["g"]. *)
Lemma subscribe_unsubscribe_not_identity :
  ¬ (∀ (nm : NodeManager.t) (r : Redis.t) (C c : string),
       NodeManager.redis nm = Some r →
       Redis.faults r = [] →
       C ∈ Redis.smembers (NodeManager.nodeClients (NodeManager.nodeId nm))
             (Redis.members r) →
       (∀ cl, cl ∈ Redis.smembers (NodeManager.nodeClients (NodeManager.nodeId nm))
                     (Redis.members r) →
              c ∉ Redis.smembers (NodeManager.clientChannels cl) (Redis.members r)) →
       NodeManager.unsubscribeClientFromChannel C c
         (NodeManager.subscribeClientToChannel C c nm) = nm).
Proof.
  intros H.
  specialize (H (NodeManager.mk (Some stale_store) "n1") stale_store "c2" "g"
                eq_refl eq_refl).
  rewrite (subscribe_unsubscribe_store (NodeManager.mk (Some stale_store) "n1")
             stale_store "c2" "g" eq_refl eq_refl stale_store_local) in H.
  store_simpl.
  assert (Hm : Redis.members stale_store ∖ {[(NodeManager.clientChannels "c2", "g")]}
                 ∖ {[(NodeManager.channelNodes "g", "n1")]}
                 ∖ {[(NodeManager.nodeChannels "n1", "g")]}
               = Redis.members stale_store).
  { apply (f_equal (λ nm, from_option Redis.members ∅ (NodeManager.redis nm))) in H.
    - exact H.
    - apply elem_of_smembers. unfold stale_store. store_simpl.
      rewrite !elem_of_union, !elem_of_singleton. by right.
    - intros cl. rewrite !elem_of_smembers. apply stale_store_local. }
  assert ((NodeManager.channelNodes "g", "n1") ∈ Redis.members stale_store) as Hin.
  { unfold stale_store. store_simpl.
    rewrite !elem_of_union, !elem_of_singleton. by left; left; left. }
  rewrite <- Hm in Hin.
  rewrite !elem_of_difference, !elem_of_singleton in Hin.
  destruct Hin as [[_ Hin] _]. apply Hin. reflexivity.
Qed.

(** ** Router: what every operation preserves *)
Section Preserve.
Import MessageRouter.
Context {Msg : Type}.
Variable P : t Msg → Prop.
Variable ok : string → t Msg → Prop.

Hypothesis P_register : ∀ C w md now st,
  P st → ok C st → P (registerLocalClient C w md now st).
Hypothesis P_subscribe : ∀ C c st, P st → P (subscribeToChannel C c st).1.
Hypothesis P_unsubscribe : ∀ C c st, P st → P (unsubscribeFromChannel C c st).
Hypothesis P_forget : ∀ C st,
  P st →
  P (mk (NodeManager.unregisterClient C (nodeManager st))
        (redisPublisher st) (redisSubscriber st)
        (delete C (localClients st)) (subscribedChannels st)).
Hypothesis P_written : ∀ C c w st,
  P st → localClients st !! C = Some c →
  P (with_localClients
       (<[C := mkClient w (metadata c) (channels c) (joinedAt c)]> (localClients st)) st).
Hypothesis P_nodes : ∀ ch st,
  P st → P (with_nodeManager (NodeManager.getNodesForChannel ch (nodeManager st)).1 st).
Hypothesis P_node : ∀ C st,
  P st → P (with_nodeManager (NodeManager.getClientNode C (nodeManager st)).1 st).
Hypothesis P_publisher : ∀ p st, P st → P (with_publisher p st).










End Preserve.

(** ** Router: route subscriptions *)
Section Subscriptions.
Import MessageRouter.
Context {Msg : Type}.
Implicit Types st : t Msg.














End Subscriptions.



(** ** Node manager on a store that rejects nothing *)
Section Healthy.
Import NodeManager.



Lemma subscribeClientToChannel_healthy (nm : t) (r : Redis.t) C c :
  redis nm = Some r → Redis.faults r = [] →
  subscribeClientToChannel C c nm
  = mk (Some (Redis.mk (Redis.kv r)
                ({[ (clientChannels C, c) ]} ∪
                 ({[ (nodeChannels (nodeId nm), c) ]} ∪
                  ({[ (channelNodes c, nodeId nm) ]} ∪ Redis.members r)))
                (Redis.hashes r) [])) (nodeId nm).
Proof.
  intros Hr Hf. destruct nm as [o self], r as [kv M hs fl]. simpl in *. by subst.
Qed.


Lemma unregisterClient_healthy (nm : t) (r : Redis.t) C :
  redis nm = Some r → Redis.faults r = [] →
  unregisterClient C nm
  = mk (Some (Redis.mk
                (delete (clientMetadata C) (delete (clientNode C) (Redis.kv r)))
                (filter (λ p, p.1 ≠ clientMetadata C)
                   (filter (λ p, p.1 ≠ clientNode C) (Redis.members r)
                    ∖ {[ (nodeClients (nodeId nm), C) ]}))
                (delete (clientMetadata C) (delete (clientNode C) (Redis.hashes r)))
                [])) (nodeId nm).
Proof.
  intros Hr Hf. destruct nm as [o self], r as [kv M hs fl]. simpl in *. by subst.
Qed.


Lemma getClientNode_healthy (nm : t) C :
  healthy nm → (getClientNode C nm).1 = nm.
Proof.
  unfold healthy, getClientNode. destruct nm as [[r|] self]; simpl; [|done].
  intros Hf. unfold Redis.attempt, Redis.bind, Redis.get.
  rewrite command_healthy by done. simpl. by destruct r.
Qed.

End Healthy.

(** ** Router: the directory mirrors the local channel sets *)
Section Mirror.
Import MessageRouter.
Context {Msg : Type}.
Implicit Types st : t Msg.











End Mirror.




(** [default d (Some x)] is [x]. *)
Ltac default_some :=
  repeat match goal with
         | |- context [default ?d (Some ?x)] => change (default d (Some x)) with x
         | H : context [default ?d (Some ?x)] |- _ =>
             change (default d (Some x)) with x in H
         end.

(** ** Chat: sending *)
Section ChatSend.
Import ChatService.

Lemma missing_Some (s : string) : s ≠ "" → missing (Some s) = false.
Proof. intros H. simpl. by apply String.eqb_neq. Qed.



Lemma addToChannelHistory_history ch m st :
  history ch (addToChannelHistory ch m st)
  = drop (length (history ch st ++ [m]) - maxHistorySize) (history ch st ++ [m]).
Proof.
  unfold addToChannelHistory, history. cbn [channelHistory].
  rewrite lookup_insert_eq. default_some.
  destruct (Nat.ltb _ _) eqn:Hlt; [done|].
  apply Nat.ltb_ge in Hlt.
  replace (_ - _)%nat with 0%nat by lia. done.
Qed.

Lemma addToChannelHistory_other ch ch' m st :
  ch' ≠ ch → history ch' (addToChannelHistory ch m st) = history ch' st.
Proof.
  intros Hne. unfold addToChannelHistory, history. cbn [channelHistory].
  by rewrite lookup_insert_ne.
Qed.

Lemma addToChannelHistory_bound ch ch' m st :
  (length (history ch' st) ≤ maxHistorySize)%nat →
  (length (history ch' (addToChannelHistory ch m st)) ≤ maxHistorySize)%nat.
Proof.
  intros Hb. destruct (decide (ch' = ch)) as [->|Hne].
  - rewrite addToChannelHistory_history, length_drop. unfold maxHistorySize in *. lia.
  - by rewrite addToChannelHistory_other.
Qed.



End ChatSend.




(** ** Chat: the history stays bounded *)
Section ChatBound.
Import ChatService.

Lemma handleSendMessage_state C channel message md now rnd st :
  (handleSendMessage C channel message md now rnd st).1 = st ∨
  ∃ ch m, (handleSendMessage C channel message md now rnd st).1
          = addToChannelHistory ch m st.
Proof.
  unfold handleSendMessage.
  destruct (missing channel || negb (Js.truthy message)); [by left|].
  destruct message; try by left.
  destruct (_ || _); [by left|].
  destruct (clientChannels st !! C); [|by left].
  destruct (decide _); [|by left].
  right. by eexists _, _.
Qed.

Lemma serve_history_bound ch st r :
  (length (history ch st) ≤ maxHistorySize)%nat →
  (length (history ch (serve st r)) ≤ maxHistorySize)%nat.
Proof.
  intros Hb. unfold serve, handleAction.
  destruct (String.eqb _ "join").
  { unfold handleJoinChannel. destruct (missing _); [done|].
    by destruct (_ || _). }
  destruct (String.eqb _ "leave").
  { unfold handleLeaveChannel. destruct (missing _); [done|]. cbn [fst].
    by destruct (clientChannels st !! _). }
  destruct (String.eqb _ "send").
  { destruct (handleSendMessage_state (r_client r) (f_channel (r_data r))
                (f_message (r_data r)) (f_metadata (r_data r)) (r_now r) (r_rnd r) st)
      as [->|(c & m & ->)]; [done|].
    by apply addToChannelHistory_bound. }
  destruct (String.eqb _ "history").
  { unfold handleGetHistory. by destruct (missing _). }
  done.
Qed.

Lemma run_history_bound ch (rs : list request) st :
  (length (history ch st) ≤ maxHistorySize)%nat →
  (length (history ch (run rs st)) ≤ maxHistorySize)%nat.
Proof.
  revert st. induction rs as [|r rs IH]; intros st Hb; [done|].
  apply IH. by apply serve_history_bound.
Qed.

End ChatBound.

(** ** Reactions: the ring stays bounded *)
Section ReactionBound.
Import ReactionService.

Lemma record_ring ch r st :
  (length (ring ch st) ≤ maxHistorySize)%nat →
  ring ch (record ch r st)
  = drop (length (ring ch st ++ [r]) - maxHistorySize) (ring ch st ++ [r]).
Proof.
  intros Hb. unfold record, ring in *. cbn [reactionHistory].
  rewrite lookup_insert_eq. default_some.
  rewrite length_app in *. cbn [length] in *. unfold maxHistorySize in *.
  destruct (Nat.ltb _ _) eqn:Hlt.
  - apply Nat.ltb_lt in Hlt. by replace (_ + 1 - 50)%nat with 1%nat by lia.
  - apply Nat.ltb_ge in Hlt. by replace (_ + 1 - 50)%nat with 0%nat by lia.
Qed.

Lemma record_other ch ch' r st : ch' ≠ ch → ring ch' (record ch r st) = ring ch' st.
Proof.
  intros Hne. unfold record, ring. cbn [reactionHistory]. by rewrite lookup_insert_ne.
Qed.

Lemma record_bound ch ch' r st :
  (length (ring ch' st) ≤ maxHistorySize)%nat →
  (length (ring ch' (record ch r st)) ≤ maxHistorySize)%nat.
Proof.
  intros Hb. destruct (decide (ch' = ch)) as [->|Hne].
  - rewrite record_ring by done. rewrite length_drop, length_app. cbn [length].
    unfold maxHistorySize in *. lia.
  - by rewrite record_other.
Qed.

Lemma serve_ring_bound ch st r :
  (length (ring ch st) ≤ maxHistorySize)%nat →
  (length (ring ch (serve st r)) ≤ maxHistorySize)%nat.
Proof.
  intros Hb. unfold serve, handleAction.
  destruct (String.eqb _ "subscribe").
  { unfold handleSubscribeToReactions. destruct (missing _); [done|].
    by destruct (_ || _). }
  destruct (String.eqb _ "unsubscribe").
  { unfold handleUnsubscribeFromReactions. destruct (missing _); [done|]. cbn [fst].
    by destruct (clientChannels st !! _). }
  destruct (String.eqb _ "send").
  { unfold handleSendReaction. destruct (_ || _); [done|].
    destruct (lookupReaction _); [|done]. cbn [fst]. by apply record_bound. }
  by destruct (String.eqb _ "getAvailable").
Qed.

Lemma run_ring_bound ch (rs : list request) st :
  (length (ring ch st) ≤ maxHistorySize)%nat →
  (length (ring ch (run rs st)) ≤ maxHistorySize)%nat.
Proof.
  revert st. induction rs as [|r rs IH]; intros st Hb; [done|].
  apply IH. by apply serve_ring_bound.
Qed.

End ReactionBound.

(** C8.  After every sequence of frames handled by the chat service the
    history of every channel has at most 100 entries, and after every
    sequence handled by the reaction service the ring of every channel has
    at most 50; storing one more entry keeps the newest 100, respectively
    50, of the old entries followed by the new one, so that at the bound the
    oldest entry goes. *)
Theorem history_and_ring_bounded
    (chatRouter reactionRouter : bool)
    (chatFrames : list ChatService.request)
    (reactionFrames : list ReactionService.request) (channel : string) :
  let chat := ChatService.run chatFrames (ChatService.new chatRouter) in
  let reactions := ReactionService.run reactionFrames
                     (ReactionService.new reactionRouter) in
  (length (history channel chat) ≤ 100)%nat ∧
  (length (ring channel reactions) ≤ 50)%nat ∧
  (∀ m, history channel (ChatService.addToChannelHistory channel m chat)
        = drop (length (history channel chat ++ [m]) - 100)
               (history channel chat ++ [m])) ∧
  (∀ r, ring channel (ReactionService.record channel r reactions)
        = drop (length (ring channel reactions ++ [r]) - 50)
               (ring channel reactions ++ [r])).
Proof.
  intros chat reactions.
  assert (length (history channel chat) ≤ 100)%nat as Hc.
  { apply run_history_bound. unfold history. cbn. rewrite lookup_empty. cbn. lia. }
  assert (length (ring channel reactions) ≤ 50)%nat as Hr.
  { apply run_ring_bound. unfold ring. cbn. rewrite lookup_empty. cbn. lia. }
  split; [done|]. split; [done|]. split.
  - intros m. apply addToChannelHistory_history.
  - intros r. by apply record_ring.
Qed.


(** ** Reactions: sending *)
Section ReactionSend.
Import ReactionService.

Lemma inCatalog_lookup e :
  inCatalog e = true → ∃ name eff, catalog_find e availableReactions = Some (name, eff) ∧
                                   lookupReaction e = Some (Some eff).
Proof.
  unfold inCatalog, lookupReaction.
  destruct (catalog_find e availableReactions) as [[name eff]|]; [|done].
  intros _. by exists name, eff.
Qed.

Lemma inCatalog_nonempty e : inCatalog e = true → e ≠ "".
Proof. intros H ->. by vm_compute in H. Qed.

Lemma record_last ch r st : last (ring ch (record ch r st)) = Some r.
Proof.
  unfold record, ring. cbn [reactionHistory]. rewrite lookup_insert_eq.
  default_some.
  destruct (Nat.ltb _ _) eqn:Hlt; [|by rewrite last_snoc].
  apply Nat.ltb_lt in Hlt. rewrite length_app in Hlt. cbn [length] in Hlt.
  unfold maxHistorySize in Hlt.
  rewrite drop_app_le by lia. by rewrite last_snoc.
Qed.

End ReactionSend.

(** C10.  For a reaction service built on a router, whatever the channel
    sets it holds for its clients: a [send] with a channel and an emoji of
    the catalog stores the reaction as the newest entry of the ring of the
    channel, hands it to [sendToChannel] for [reactions:<channel>] and
    acknowledges with [reaction_sent]; and a [send] that is answered by an
    error frame lacks its channel or its emoji, or names an emoji outside
    the catalog. *)
Theorem reaction_send_needs_no_subscription
    (st : ReactionService.t) (C : string) (channel emoji : option string)
    (position metadata : Js.value) (now : Z) (rnd : string) :
  ReactionService.isDistributed st = true →
  let res := ReactionService.handleSendReaction C channel emoji position metadata
               now rnd st in
  (∀ ch e, channel = Some ch → ch ≠ "" → emoji = Some e →
           ReactionService.inCatalog e = true →
           ∃ name eff,
             ReactionService.catalog_find e ReactionService.availableReactions
             = Some (name, eff) ∧
             let r := ReactionService.mkReaction
                        (ReactionService.generateReactionId now rnd) C ch e (Some eff)
                        (Js.defaulted Js.JNull position)
                        (Js.defaulted (Js.JObj []) metadata)
                        now in
             res.1 = ReactionService.record ch r st ∧
             last (ring ch res.1) = Some r ∧
             res.2 = [SendToChannel ("reactions:" +:+ ch)
                        (ReactionService.ReactionReceived r) None;
                      SendToLocalClient C
                        (ReactionService.ReactionSent (ReactionService.id r) e ch now)]) ∧
  (∀ err c, SendToLocalClient c (ReactionService.Error err) ∈ res.2 →
            missing channel = true ∨ missing emoji = true ∨
            ∃ e, emoji = Some e ∧ ReactionService.inCatalog e = false).
Proof.
  intros Hd res. subst res. split.
  - intros ch e -> Hch -> Hcat.
    destruct (inCatalog_lookup e Hcat) as (name & eff & Hfind & Hlook).
    exists name, eff. split; [done|]. cbn zeta.
    unfold ReactionService.handleSendReaction.
    rewrite !missing_Some by (done || by apply inCatalog_nonempty).
    cbn [orb]. default_some. rewrite Hlook.
    cbn [fst snd]. split; [done|]. split; [apply record_last|].
    unfold ReactionService.sendSuccess, ReactionService.sendToClient.
    cbn [ReactionService.isDistributed ReactionService.record]. by rewrite Hd.
  - intros err c Hin. unfold ReactionService.handleSendReaction in Hin.
    destruct (missing channel) eqn:Hmc; [by left|].
    destruct (missing emoji) eqn:Hme; [by right; left|].
    right; right. cbn [orb] in Hin.
    destruct emoji as [e|]; [|done]. exists e. split; [done|].
    default_some.
    unfold ReactionService.inCatalog, ReactionService.lookupReaction in *.
    destruct (ReactionService.catalog_find e _) as [[name eff]|]; [|done].
    cbn [fst snd] in Hin.
    unfold ReactionService.sendSuccess, ReactionService.sendToClient in Hin.
    cbn [ReactionService.isDistributed ReactionService.record] in Hin.
    rewrite Hd in Hin. cbn in Hin. rewrite !elem_of_cons in Hin.
    destruct Hin as [Hin|[Hin|Hin]]; [done|done|by apply elem_of_nil in Hin].
Qed.

Lemma reaction_send_needs_no_subscription_witness :
  (ReactionService.handleSendReaction "a" (Some "g") (Some "🔥") Js.JUndefined
     Js.JUndefined 5 "x" (ReactionService.new true)).2
  = [SendToChannel "reactions:g"
       (ReactionService.ReactionReceived
          (ReactionService.mkReaction (mkIdent 5 "x") "a" "g" "🔥"
             (Some "flicker-orange") Js.JNull (Js.JObj []) 5)) None;
     SendToLocalClient "a" (ReactionService.ReactionSent (mkIdent 5 "x") "🔥" "g" 5)].
Proof.
  destruct (reaction_send_needs_no_subscription (ReactionService.new true) "a"
              (Some "g") (Some "🔥") Js.JUndefined Js.JUndefined 5 "x" eq_refl)
    as [H _].
  destruct (H "g" "🔥") as (name & eff & Hfind & _ & _ & Hout);
    [done|done|done|done|].
  cbn in Hfind. injection Hfind as <- <-. exact Hout.
Defined.


(** ** Cursors: the throttle *)
Section Throttle.
Import CursorService.








End Throttle.





(** ** Cursors: the sweeper *)
Section Sweeper.
Import CursorServiceTTL.





Lemma forgetThrottle_indexed C st : indexed st → indexed (forgetThrottle C st).
Proof. done. Qed.

Lemma forgetThrottle_absent C C' ch st : absent C' ch st → absent C' ch (forgetThrottle C st).
Proof. done. Qed.













End Sweeper.





(** The sweeper goes by the client cursor table, which holds the latest
    cursor of a client: the cursor a client left on an earlier channel stays
    in the table of that channel. *)
Example earlier_channel_keeps_cursor :
  ∃ m cur, CursorServiceTTL.channelCursors swept_two_channels !! "a" = Some m ∧
           m !! "c1" = Some cur ∧
           CursorServiceTTL.stale 1040000 cur = true.
Proof.
  eexists _, _. split; [vm_compute; reflexivity|].
  split; [vm_compute; reflexivity|]. reflexivity.
Qed.


(** ** Keys of the directory, continued *)
Section MoreKeys.
Import NodeManager.

Lemma string_app_inj_l (t a b : string) : t +:+ a = t +:+ b → a = b.
Proof. induction t as [|c t IH]; simpl; [done|]. intros H. injection H as H. by apply IH. Qed.

Lemma clientNode_inj a b : clientNode a = clientNode b → a = b.
Proof.
  unfold clientNode. intros H. simplify_eq/=. by apply string_app_inj_r in H.
Qed.

Lemma channelNodes_inj a b : channelNodes a = channelNodes b → a = b.
Proof.
  unfold channelNodes. intros H. simplify_eq/=. by apply string_app_inj_r in H.
Qed.

Lemma nodeClients_ne_clientNode n c : nodeClients n ≠ clientNode c.
Proof. unfold nodeClients, clientNode. intros H. simplify_eq/=. Qed.

Lemma nodeClients_ne_clientMetadata n c : nodeClients n ≠ clientMetadata c.
Proof. unfold nodeClients, clientMetadata. intros H. simplify_eq/=. Qed.

Lemma nodeChannels_ne_clientNode n c : nodeChannels n ≠ clientNode c.
Proof. unfold nodeChannels, clientNode. intros H. simplify_eq/=. Qed.

Lemma nodeChannels_ne_clientMetadata n c : nodeChannels n ≠ clientMetadata c.
Proof. unfold nodeChannels, clientMetadata. intros H. simplify_eq/=. Qed.

Lemma channelNodes_ne_clientNode ch c : channelNodes ch ≠ clientNode c.
Proof. unfold channelNodes, clientNode. intros H. simplify_eq/=. Qed.

Lemma channelNodes_ne_clientMetadata ch c : channelNodes ch ≠ clientMetadata c.
Proof. unfold channelNodes, clientMetadata. intros H. simplify_eq/=. Qed.

End MoreKeys.


Section SuffixKeys.
Import NodeManager.





End SuffixKeys.


(** ** Node manager: registrations *)
Section Registrations.
Import NodeManager.

Lemma smembers_add (k x : string) (s : gset (string * string)) :
  Redis.smembers k ({[ (k, x) ]} ∪ s) = {[ x ]} ∪ Redis.smembers k s.
Proof.
  apply set_eq. intros y. rewrite elem_of_union, !elem_of_smembers, elem_of_union.
  rewrite !elem_of_singleton. split; intros [H|H]; try (by right); left; congruence.
Qed.

Lemma smembers_add_ne (k k' x : string) (s : gset (string * string)) :
  k ≠ k' → Redis.smembers k ({[ (k', x) ]} ∪ s) = Redis.smembers k s.
Proof.
  intros Hne. apply set_eq. intros y. rewrite !elem_of_smembers, elem_of_union.
  rewrite elem_of_singleton. split; [|by right]. intros [H|H]; [congruence|done].
Qed.

Lemma smembers_remove (k x : string) (s : gset (string * string)) :
  Redis.smembers k (s ∖ {[ (k, x) ]}) = Redis.smembers k s ∖ {[ x ]}.
Proof.
  apply set_eq. intros y.
  rewrite elem_of_difference, !elem_of_smembers, elem_of_difference, !elem_of_singleton.
  split; intros [H1 H2]; split; try done; congruence.
Qed.

Lemma smembers_remove_ne (k k' x : string) (s : gset (string * string)) :
  k ≠ k' → Redis.smembers k (s ∖ {[ (k', x) ]}) = Redis.smembers k s.
Proof.
  intros Hne. apply set_eq. intros y.
  rewrite !elem_of_smembers, elem_of_difference, elem_of_singleton.
  split; [by intros [H _]|]. intros H. split; [done|congruence].
Qed.

Lemma smembers_del_ne (k k' : string) (s : gset (string * string)) :
  k ≠ k' → Redis.smembers k (filter (λ p, p.1 ≠ k') s) = Redis.smembers k s.
Proof.
  intros Hne. apply set_eq. intros y. rewrite !elem_of_smembers, elem_of_filter.
  split; [by intros [_ H]|]. intros H. by split.
Qed.

Lemma smembers_del (k : string) (s : gset (string * string)) :
  Redis.smembers k (filter (λ p, p.1 ≠ k) s) = ∅.
Proof.
  apply smembers_empty. intros x [H _]%elem_of_filter. by apply H.
Qed.

(** What [registerClient] writes on a store that rejects nothing. *)
Lemma registerClient_store (nm : t) (r : Redis.t) C md :
  redis nm = Some r → Redis.faults r = [] →
  registerClient C md nm
  = mk (Some (Redis.mk (<[clientNode C := nodeId nm]> (Redis.kv r))
                ({[ (nodeClients (nodeId nm), C) ]} ∪ Redis.members r)
                (if decide (md = ∅) then Redis.hashes r
                 else <[clientMetadata C := md ∪ default ∅ (Redis.hashes r !! clientMetadata C)]>
                        (Redis.hashes r))
                [])) (nodeId nm).
Proof.
  intros Hr Hf. destruct nm as [o self], r as [kv M hs fl]. simpl in *. subst.
  unfold registerClient, guarded. simpl.
  unfold Redis.attempt, Redis.bind. simpl.
  by destruct (decide (md = ∅)).
Qed.

Lemma getClientNode_store (nm : t) (r : Redis.t) C :
  redis nm = Some r → Redis.faults r = [] →
  (getClientNode C nm).2
  = match Redis.kv r !! clientNode C with
    | Some s => if String.eqb s "" then None else Some s
    | None => None
    end.
Proof.
  intros Hr Hf. unfold getClientNode. rewrite Hr.
  unfold Redis.attempt, Redis.bind, Redis.get.
  rewrite command_healthy by done. done.
Qed.

Lemma getNodeClients_store (nm : t) (r : Redis.t) :
  redis nm = Some r → Redis.faults r = [] →
  (getNodeClients nm).2
  = elements (Redis.smembers (nodeClients (nodeId nm)) (Redis.members r)).
Proof.
  intros Hr Hf. unfold getNodeClients. rewrite Hr.
  unfold Redis.attempt, Redis.sMembers. by rewrite command_healthy by done.
Qed.

Lemma getConnectionCount_store (nm : t) (r : Redis.t) :
  redis nm = Some r → Redis.faults r = [] →
  (getConnectionCount nm).2
  = size (Redis.smembers (nodeClients (nodeId nm)) (Redis.members r)).
Proof.
  intros Hr Hf. unfold getConnectionCount. rewrite Hr.
  unfold Redis.attempt, Redis.sCard. by rewrite command_healthy by done.
Qed.

End Registrations.

(** X1.  On a store that rejects nothing, a node whose identifier is not
    empty finds itself as the node of a client it has registered, finds no
    node for it once it has unregistered it, and registering a client leaves
    what it finds for every other client as it was. *)
Theorem getClientNode_registerClient
    (nm : NodeManager.t) (r : Redis.t) (C : string) (md : gmap string string) :
  NodeManager.redis nm = Some r →
  Redis.faults r = [] →
  NodeManager.nodeId nm ≠ "" →
  let nm' := NodeManager.registerClient C md nm in
  (NodeManager.getClientNode C nm').2 = Some (NodeManager.nodeId nm) ∧
  (NodeManager.getClientNode C (NodeManager.unregisterClient C nm')).2 = None ∧
  (∀ D, D ≠ C → (NodeManager.getClientNode D nm').2 = (NodeManager.getClientNode D nm).2).
Proof.
  intros Hr Hf Hid nm'. subst nm'.
  rewrite (registerClient_store nm r C md Hr Hf).
  set (r1 := Redis.mk _ _ _ _).
  split; [|split].
  - rewrite (getClientNode_store _ r1) by done. subst r1. store_simpl.
    rewrite lookup_insert_eq.
    destruct (String.eqb_spec (NodeManager.nodeId nm) ""); [done|done].
  - rewrite (unregisterClient_healthy _ r1) by done.
    erewrite getClientNode_store; [|reflexivity|reflexivity]. store_simpl.
    destruct (decide (NodeManager.clientMetadata C = NodeManager.clientNode C)) as [He|Hne].
    + rewrite He. by rewrite lookup_delete_eq.
    + rewrite lookup_delete_ne by done. by rewrite lookup_delete_eq.
  - intros D HD. rewrite (getClientNode_store _ r1) by done.
    rewrite (getClientNode_store nm r) by done. subst r1. store_simpl.
    rewrite lookup_insert_ne; [done|]. intros He. by apply clientNode_inj in He.
Qed.

Lemma getClientNode_registerClient_witness :
  (NodeManager.getClientNode "c1" (NodeManager.registerClient "c1" ∅ fresh_node)).2
  = Some "n1".
Proof.
  apply (getClientNode_registerClient fresh_node Redis.empty "c1" ∅).
  - reflexivity.
  - reflexivity.
  - discriminate.
Defined.

(** X2.  On a store that rejects nothing, the connection count of a node is
    the length of the client list it reports, which has no repetition;
    registering a client adds it to the list, once however often it is
    registered, and unregistering it takes it off. *)
Theorem getConnectionCount_registerClient
    (nm : NodeManager.t) (r : Redis.t) (C : string) (md : gmap string string) :
  NodeManager.redis nm = Some r →
  Redis.faults r = [] →
  let before := Redis.smembers (NodeManager.nodeClients (NodeManager.nodeId nm))
                  (Redis.members r) in
  let nm' := NodeManager.registerClient C md nm in
  (NodeManager.getConnectionCount nm).2 = length (NodeManager.getNodeClients nm).2 ∧
  NoDup (NodeManager.getNodeClients nm).2 ∧
  (∀ D, D ∈ (NodeManager.getNodeClients nm').2 ↔ D = C ∨ D ∈ before) ∧
  (NodeManager.getConnectionCount nm').2
  = (if decide (C ∈ before) then size before else S (size before)) ∧
  (NodeManager.getNodeClients (NodeManager.registerClient C md nm')).2
  = (NodeManager.getNodeClients nm').2 ∧
  (∀ D, D ∈ (NodeManager.getNodeClients (NodeManager.unregisterClient C nm')).2
        ↔ D ≠ C ∧ D ∈ before).
Proof.
  intros Hr Hf before nm'. subst nm'.
  rewrite (getConnectionCount_store nm r), (getNodeClients_store nm r) by done.
  split; [done|]. split; [apply NoDup_elements|].
  rewrite (registerClient_store nm r C md Hr Hf).
  set (r1 := Redis.mk _ _ _ _).
  assert (Redis.smembers (NodeManager.nodeClients (NodeManager.nodeId nm)) (Redis.members r1)
          = {[C]} ∪ before) as H1 by (subst r1; store_simpl; apply smembers_add).
  split; [|split; [|split]].
  - intros D. rewrite (getNodeClients_store _ r1) by done. store_simpl.
    rewrite H1. rewrite elem_of_elements. set_solver.
  - rewrite (getConnectionCount_store _ r1) by done. store_simpl. rewrite H1.
    destruct (decide (C ∈ before)) as [Hin|Hnin].
    + f_equal. set_solver.
    + rewrite size_union by set_solver. by rewrite size_singleton.
  - rewrite (registerClient_store _ r1) by done.
    erewrite getNodeClients_store; [|reflexivity|reflexivity].
    rewrite (getNodeClients_store _ r1) by done. store_simpl.
    rewrite smembers_add, H1. f_equal. set_solver.
  - intros D. rewrite (unregisterClient_healthy _ r1) by done.
    erewrite getNodeClients_store; [|reflexivity|reflexivity]. store_simpl.
    rewrite smembers_del_ne by apply nodeClients_ne_clientMetadata.
    rewrite smembers_remove.
    rewrite smembers_del_ne by apply nodeClients_ne_clientNode.
    rewrite H1, elem_of_elements. set_solver.
Qed.


Lemma getConnectionCount_registerClient_witness :
  "c1" ∈ (NodeManager.getNodeClients (NodeManager.registerClient "c1" ∅ fresh_node)).2.
Proof.
  destruct (getConnectionCount_registerClient fresh_node Redis.empty "c1" ∅
              eq_refl eq_refl) as (_ & _ & H & _).
  apply H. left. reflexivity.
Defined.

(** ** Node manager: the channels of the node *)
Section ChannelEdges.
Import NodeManager.

Lemma getNodesForChannel_store (nm : t) (r : Redis.t) (ch : string) :
  redis nm = Some r → Redis.faults r = [] →
  (getNodesForChannel ch nm).2
  = let nodes := elements (Redis.smembers (channelNodes ch) (Redis.members r)) in
    if (0 <? length nodes)%nat then nodes else [nodeId nm].
Proof.
  intros Hr Hf. unfold getNodesForChannel. rewrite Hr.
  unfold Redis.attempt, Redis.bind, Redis.sMembers.
  by rewrite command_healthy by done.
Qed.

(** The scan of [unsubscribeClientFromChannel] tells whether a client of the
    list has the channel. *)
Lemma hasChannelClients_spec (clients : list string) (ch : string) (r : Redis.t) :
  Redis.faults r = [] →
  ∃ b, hasChannelClients clients ch r = (r, Redis.Ok b) ∧
       (b = true ↔ ∃ cl, cl ∈ clients ∧ (clientChannels cl, ch) ∈ Redis.members r).
Proof.
  intros Hf. induction clients as [|c rest (b & IH & Hb)]; simpl.
  { exists false. split; [done|]. split; [done|]. intros (cl & Hin & _).
    by apply elem_of_nil in Hin. }
  unfold Redis.bind, Redis.sMembers. rewrite command_healthy by done. simpl.
  destruct (bool_decide _) eqn:Hd.
  - apply bool_decide_eq_true in Hd. rewrite elem_of_elements, elem_of_smembers in Hd.
    exists true. split; [done|]. split; [|done]. intros _. exists c. split; [by left|done].
  - apply bool_decide_eq_false in Hd. rewrite elem_of_elements, elem_of_smembers in Hd.
    exists b. split; [done|]. rewrite Hb. split.
    + intros (cl & Hin & Hm). exists cl. split; [by right|done].
    + intros (cl & Hin & Hm). apply elem_of_cons in Hin as [->|Hin]; [done|].
      by exists cl.
Qed.

(** What [unsubscribeClientFromChannel] does on a store that rejects
    nothing; [b] is what its scan found. *)
Lemma unsubscribeClientFromChannel_store (nm : t) (r : Redis.t) (C c : string) :
  redis nm = Some r → Redis.faults r = [] →
  let M1 := Redis.members r ∖ {[ (clientChannels C, c) ]} in
  ∃ b : bool,
    unsubscribeClientFromChannel C c nm
    = mk (Some (Redis.mk (Redis.kv r)
                  (if b then M1
                   else M1 ∖ {[ (channelNodes c, nodeId nm) ]}
                           ∖ {[ (nodeChannels (nodeId nm), c) ]})
                  (Redis.hashes r) [])) (nodeId nm) ∧
    (b = true ↔ ∃ D, (nodeClients (nodeId nm), D) ∈ Redis.members r ∧
                     (clientChannels D, c) ∈ M1).
Proof.
  intros Hr Hf M1. destruct nm as [o self]. simpl in *. subst o.
  destruct r as [kv M hs fl]. simpl in *. subst fl.
  unfold unsubscribeClientFromChannel, guarded. simpl.
  unfold Redis.attempt, Redis.bind at 1. simpl.
  unfold Redis.bind at 1. unfold Redis.sMembers at 1.
  rewrite command_healthy by done. simpl.
  unfold Redis.bind at 1. fold M1.
  assert (∀ D, D ∈ elements (Redis.smembers (nodeClients self) M1)
               ↔ (nodeClients self, D) ∈ M) as Hcl.
  { intros D. rewrite elem_of_elements, elem_of_smembers. subst M1.
    rewrite elem_of_difference, elem_of_singleton. split; [by intros [H _]|].
    intros H. split; [done|]. intros He. apply (f_equal fst) in He. cbn [fst] in He.
    symmetry in He. by apply clientChannels_ne_nodeClients in He. }
  edestruct (hasChannelClients_spec
               (elements (Redis.smembers (nodeClients self) M1)) c
               (Redis.mk kv M1 hs [])) as (b & -> & Hb); [done|].
  cbn [Redis.members] in Hb.
  exists b. split; [by destruct b|].
  rewrite Hb. split; intros (D & HD & Hc); exists D; split; try done; by apply Hcl.
Qed.

End ChannelEdges.

(** X3.  On a store that rejects nothing, after a client of the node is
    subscribed to a channel the nodes reported for the channel are this node
    and the nodes the directory already held for it, each once. *)
Theorem getNodesForChannel_subscribeClientToChannel
    (nm : NodeManager.t) (r : Redis.t) (C c : string) :
  NodeManager.redis nm = Some r →
  Redis.faults r = [] →
  let nodes := (NodeManager.getNodesForChannel c
                  (NodeManager.subscribeClientToChannel C c nm)).2 in
  NodeManager.nodeId nm ∈ nodes ∧
  NoDup nodes ∧
  (∀ n, n ∈ nodes ↔
        n = NodeManager.nodeId nm ∨
        n ∈ Redis.smembers (NodeManager.channelNodes c) (Redis.members r)).
Proof.
  intros Hr Hf nodes. subst nodes.
  rewrite (subscribeClientToChannel_healthy nm r C c Hr Hf).
  erewrite getNodesForChannel_store; [|reflexivity|reflexivity]. store_simpl.
  rewrite smembers_add_ne by (apply not_eq_sym, clientChannels_ne_channelNodes).
  rewrite smembers_add_ne by (apply not_eq_sym, nodeChannels_ne_channelNodes).
  rewrite smembers_add. cbn zeta.
  set (S := {[NodeManager.nodeId nm]} ∪ _).
  assert (NodeManager.nodeId nm ∈ elements S) as Hin
    by (apply elem_of_elements; set_solver).
  destruct (elements S) as [|x l] eqn:He; [by apply elem_of_nil in Hin|].
  cbn [length Nat.ltb Nat.leb]. rewrite <- He.
  split; [by apply elem_of_elements; set_solver|].
  split; [apply NoDup_elements|].
  intros n. rewrite elem_of_elements. set_solver.
Qed.

Lemma getNodesForChannel_subscribeClientToChannel_witness :
  "n1" ∈ (NodeManager.getNodesForChannel "g"
            (NodeManager.subscribeClientToChannel "c1" "g" fresh_node)).2.
Proof.
  destruct (getNodesForChannel_subscribeClientToChannel fresh_node Redis.empty "c1" "g"
              eq_refl eq_refl) as [H _].
  exact H.
Defined.

(** X4.  On a store that rejects nothing, unsubscribing a client from a
    channel removes the channel from the channel set of the client; the node
    stays in the node set of the channel, and the channel in the channel set
    of the node, exactly while another client of the client set of the node
    has the channel in its channel set. *)
Theorem unsubscribeClientFromChannel_keeps_node_while_needed
    (nm : NodeManager.t) (r : Redis.t) (C c : string) :
  NodeManager.redis nm = Some r →
  Redis.faults r = [] →
  let self := NodeManager.nodeId nm in
  let M := Redis.members r in
  let needed := ∃ D, D ≠ C ∧ D ∈ Redis.smembers (NodeManager.nodeClients self) M ∧
                     c ∈ Redis.smembers (NodeManager.clientChannels D) M in
  ∃ r', NodeManager.unsubscribeClientFromChannel C c nm = NodeManager.mk (Some r') self ∧
        Redis.kv r' = Redis.kv r ∧ Redis.hashes r' = Redis.hashes r ∧
        Redis.smembers (NodeManager.clientChannels C) (Redis.members r')
        = Redis.smembers (NodeManager.clientChannels C) M ∖ {[c]} ∧
        (needed → Redis.members r' = M ∖ {[ (NodeManager.clientChannels C, c) ]}) ∧
        (¬ needed →
           (self ∉ Redis.smembers (NodeManager.channelNodes c) (Redis.members r')) ∧
           (c ∉ Redis.smembers (NodeManager.nodeChannels self) (Redis.members r'))).
Proof.
  intros Hr Hf self M needed.
  destruct (unsubscribeClientFromChannel_store nm r C c Hr Hf) as (b & -> & Hb).
  fold self M in Hb.
  eexists. split; [reflexivity|]. store_simpl.
  split; [done|]. split; [done|].
  assert (b = true ↔ needed) as Hiff.
  { rewrite Hb. subst needed. split.
    - intros (D & HD & Hc). exists D. rewrite !elem_of_smembers.
      apply elem_of_difference in Hc as [Hc Hne]. split; [|done].
      intros ->. apply Hne. by apply elem_of_singleton.
    - intros (D & Hne & HD & Hc). rewrite !elem_of_smembers in HD, Hc.
      exists D. split; [done|]. apply elem_of_difference. split; [done|].
      intros He%elem_of_singleton. apply (f_equal fst) in He. cbn [fst] in He.
      by apply clientChannels_inj in He. }
  destruct b.
  - split; [apply smembers_remove|]. split; [done|].
    intros Hn. destruct Hn. by apply Hiff.
  - split.
    + rewrite smembers_remove_ne by apply clientChannels_ne_nodeChannels.
      rewrite smembers_remove_ne by apply clientChannels_ne_channelNodes.
      apply smembers_remove.
    + split; [intros Hn; by apply Hiff in Hn|]. intros _.
      rewrite !elem_of_smembers. set_solver.
Qed.

Lemma unsubscribeClientFromChannel_keeps_node_while_needed_witness :
  ∃ r', NodeManager.unsubscribeClientFromChannel "c1" "g"
          (NodeManager.mk (Some one_client_store) "n1")
        = NodeManager.mk (Some r') "n1" ∧
        Redis.kv r' = Redis.kv one_client_store.
Proof.
  destruct (unsubscribeClientFromChannel_keeps_node_while_needed
              (NodeManager.mk (Some one_client_store) "n1") one_client_store
              "c1" "g" eq_refl eq_refl)
    as (r' & Heq & Hkv & _).
  exists r'. split; [exact Heq|exact Hkv].
Defined.


(** ** Node manager: shutting down *)
Section Shutdown.
Import NodeManager.

Lemma pruned_refl r : Redis.faults r = [] → pruned r r.
Proof. by intros H. Qed.

Lemma pruned_trans r1 r2 r3 : pruned r1 r2 → pruned r2 r3 → pruned r1 r3.
Proof.
  intros (H1 & H2 & H3 & H4) (G1 & G2 & G3 & G4).
  repeat split; [by etrans|set_solver|by etrans|done].
Qed.

Lemma del_healthy (k : string) (r : Redis.t) :
  Redis.faults r = [] →
  Redis.del k r
  = (Redis.mk (delete k (Redis.kv r)) (filter (λ p, p.1 ≠ k) (Redis.members r))
       (delete k (Redis.hashes r)) [], Redis.Ok tt).
Proof. intros Hf. unfold Redis.del. rewrite command_healthy by done. simpl. by rewrite Hf. Qed.

Lemma sRem_healthy (k m : string) (r : Redis.t) :
  Redis.faults r = [] →
  Redis.sRem k m r
  = (Redis.mk (Redis.kv r) (Redis.members r ∖ {[ (k, m) ]}) (Redis.hashes r) [],
     Redis.Ok tt).
Proof. intros Hf. unfold Redis.sRem. rewrite command_healthy by done. simpl. by rewrite Hf. Qed.

Lemma del_pruned (k : string) (r : Redis.t) :
  Redis.faults r = [] → pruned (Redis.del k r).1 r.
Proof.
  intros Hf. rewrite del_healthy by done. cbn.
  repeat split; [apply delete_subseteq| |apply delete_subseteq].
  intros x [_ H]%elem_of_filter. done.
Qed.

Lemma sRem_pruned (k m : string) (r : Redis.t) :
  Redis.faults r = [] → pruned (Redis.sRem k m r).1 r.
Proof.
  intros Hf. rewrite sRem_healthy by done. cbn. repeat split; set_solver.
Qed.

(** The store once [unregisterClient] has run inside a block. *)
Lemma within_unregisterClient (nm : t) (C : string) (r : Redis.t) :
  Redis.faults r = [] →
  ∃ r', within (unregisterClient C) nm r = (r', Redis.Ok tt) ∧
        pruned r' r ∧
        Redis.kv r' !! clientNode C = None ∧
        Redis.hashes r' !! clientMetadata C = None ∧
        (∀ k x, k ≠ clientNode C → k ≠ clientMetadata C → k ≠ nodeClients (nodeId nm) →
                (k, x) ∈ Redis.members r → (k, x) ∈ Redis.members r').
Proof.
  intros Hf. unfold within.
  rewrite (unregisterClient_healthy (mk (Some r) (nodeId nm)) r C eq_refl Hf).
  cbn. eexists. split; [done|]. store_simpl. split; [|split; [|split]].
  - repeat split; cbn.
    + etrans; apply delete_subseteq.
    + intros x [_ [[_ H]%elem_of_filter _]%elem_of_difference]%elem_of_filter. done.
    + etrans; apply delete_subseteq.
  - destruct (decide (clientMetadata C = clientNode C)) as [He|Hne].
    + rewrite He. apply lookup_delete_eq.
    + rewrite lookup_delete_ne by done. apply lookup_delete_eq.
  - apply lookup_delete_eq.
  - intros k x H1 H2 H3 Hin. apply elem_of_filter. split; [done|].
    apply elem_of_difference. split.
    + apply elem_of_filter. by split.
    + intros He%elem_of_singleton. apply (f_equal fst) in He. by cbn in He.
Qed.

(** Unregistering the clients of a list, one after the other. *)
Lemma forEach_unregisterClient (nm : t) (l : list string) (r : Redis.t) :
  Redis.faults r = [] →
  ∃ r', Redis.forEach l (λ clientId, within (unregisterClient clientId) nm) r
        = (r', Redis.Ok tt) ∧
        pruned r' r ∧
        (∀ C, C ∈ l → Redis.kv r' !! clientNode C = None ∧
                      Redis.hashes r' !! clientMetadata C = None) ∧
        (∀ k x, (∀ C, k ≠ clientNode C) → (∀ C, k ≠ clientMetadata C) →
                k ≠ nodeClients (nodeId nm) →
                (k, x) ∈ Redis.members r → (k, x) ∈ Redis.members r').
Proof.
  revert r. induction l as [|C l IH]; intros r Hf; simpl.
  { exists r. split; [done|]. split; [by apply pruned_refl|]. split; [|done].
    intros C HC. by apply elem_of_nil in HC. }
  destruct (within_unregisterClient nm C r Hf) as (r1 & Heq & Hp & Hkv & Hhs & Hkeep).
  unfold Redis.bind. rewrite Heq.
  destruct (IH r1) as (r' & Heq' & Hp' & Hgone & Hkeep'); [apply Hp|].
  exists r'. split; [done|]. split; [by eapply pruned_trans|]. split.
  - intros D [->|HD]%elem_of_cons; [|by apply Hgone].
    destruct Hp' as (H1 & _ & H3 & _). split.
    + by eapply lookup_weaken_None.
    + by eapply lookup_weaken_None.
  - intros k x H1 H2 H3 Hin. apply Hkeep'; try done. by apply Hkeep.
Qed.

(** Taking the node out of the node sets of the channels of a list. *)
Lemma forEach_sRem (self : string) (l : list string) (r : Redis.t) :
  Redis.faults r = [] →
  ∃ r', Redis.forEach l (λ channel, Redis.sRem (channelNodes channel) self) r
        = (r', Redis.Ok tt) ∧
        pruned r' r ∧
        (∀ ch, ch ∈ l → (channelNodes ch, self) ∉ Redis.members r') ∧
        (∀ p, (∀ ch, ch ∈ l → p ≠ (channelNodes ch, self)) →
              p ∈ Redis.members r → p ∈ Redis.members r').
Proof.
  revert r. induction l as [|c l IH]; intros r Hf; simpl.
  { exists r. split; [done|]. split; [by apply pruned_refl|]. split; [|done].
    intros C HC. by apply elem_of_nil in HC. }
  unfold Redis.bind. rewrite sRem_healthy by done.
  set (r1 := Redis.mk _ _ _ _).
  destruct (IH r1) as (r' & Heq' & Hp' & Hgone & Hkeep); [done|].
  exists r'. split; [done|]. split; [|split].
  - eapply pruned_trans; [done|]. subst r1. repeat split; cbn; set_solver.
  - intros ch [->|HD]%elem_of_cons; [|by apply Hgone].
    destruct Hp' as (_ & H2 & _). intros Hin. apply H2 in Hin. subst r1. cbn in Hin.
    set_solver.
  - intros p Hp Hin. apply Hkeep.
    + intros ch Hch. apply Hp. by right.
    + subst r1. cbn. apply elem_of_difference. split; [done|].
      intros He%elem_of_singleton. by apply (Hp c); [left|].
Qed.

Lemma channelNodes_ne_node ch n :
  channelNodes ch ≠ nodeInfo n ∧ channelNodes ch ≠ nodeHeartbeat n ∧ channelNodes ch ≠ nodes.
Proof.
  unfold channelNodes, nodeInfo, nodeHeartbeat, nodes.
  repeat split; intros H; simplify_eq/=.
Qed.

(** What the clean-up of [shutdown] leaves. *)
Lemma shutdown_store (nm : t) (r : Redis.t) :
  redis nm = Some r → Redis.faults r = [] →
  let self := nodeId nm in
  ∃ r', shutdown nm = mk (Some r') self ∧
        pruned r' r ∧
        (∀ C, C ∈ Redis.smembers (nodeClients self) (Redis.members r) →
              Redis.kv r' !! clientNode C = None ∧
              Redis.hashes r' !! clientMetadata C = None) ∧
        Redis.smembers (nodeClients self) (Redis.members r') = ∅ ∧
        Redis.smembers (nodeChannels self) (Redis.members r') = ∅ ∧
        (∀ ch, ch ∈ Redis.smembers (nodeChannels self) (Redis.members r) →
               self ∉ Redis.smembers (channelNodes ch) (Redis.members r')) ∧
        (self ∉ Redis.smembers nodes (Redis.members r')) ∧
        Redis.hashes r' !! nodeInfo self = None ∧
        Redis.hashes r' !! nodeHeartbeat self = None ∧
        (∀ ch, ch ∉ Redis.smembers (nodeChannels self) (Redis.members r) →
               (channelNodes ch, self) ∈ Redis.members r →
               (channelNodes ch, self) ∈ Redis.members r').
Proof.
  intros Hr Hf self. unfold shutdown, guarded. rewrite Hr. fold self.
  unfold Redis.attempt.
  unfold Redis.bind at 1. unfold Redis.sMembers at 1.
  rewrite command_healthy by done. cbn [fst snd].
  set (clients := elements _).
  unfold Redis.bind at 1.
  destruct (forEach_unregisterClient nm clients r Hf) as (r1 & -> & Hp1 & Hgone1 & Hkeep1).
  assert (Redis.faults r1 = []) as Hf1 by apply Hp1.
  unfold Redis.bind at 1. unfold Redis.sMembers at 1.
  rewrite command_healthy by done. cbn [fst snd].
  set (channels := elements _).
  unfold Redis.bind at 1.
  destruct (forEach_sRem self channels r1 Hf1) as (r2 & -> & Hp2 & Hgone2 & Hkeep2).
  assert (Redis.faults r2 = []) as Hf2 by apply Hp2.
  unfold Redis.bind. rewrite (del_healthy _ r2) by done.
  rewrite del_healthy by done. cbn [Redis.kv Redis.members Redis.hashes].
  rewrite del_healthy by done. cbn [Redis.kv Redis.members Redis.hashes].
  rewrite del_healthy by done. cbn [Redis.kv Redis.members Redis.hashes].
  rewrite sRem_healthy by done. cbn [Redis.kv Redis.members Redis.hashes fst].
  eexists. split; [reflexivity|].
  destruct Hp1 as (K1 & M1 & H1 & _). destruct Hp2 as (K2 & M2 & H2 & _).
  split; [|split; [|split; [|split; [|split; [|split; [|split; [|split]]]]]]].
  - repeat split; cbn.
    + do 4 (etrans; [apply delete_subseteq|]). by etrans.
    + intros x Hx. apply elem_of_difference in Hx as [Hx _].
      do 4 apply elem_of_filter in Hx as [_ Hx]. set_solver.
    + do 4 (etrans; [apply delete_subseteq|]). by etrans.
  - intros C HC. destruct (Hgone1 C) as [G1 G2]; [by apply elem_of_elements|].
    cbn. split.
    + eapply lookup_weaken_None; [|do 4 (etrans; [apply delete_subseteq|]); exact K2].
      done.
    + eapply lookup_weaken_None; [|do 4 (etrans; [apply delete_subseteq|]); exact H2].
      done.
  - cbn. apply smembers_empty. intros x Hx.
    apply elem_of_difference in Hx as [Hx _].
    apply elem_of_filter in Hx as [_ Hx]. apply elem_of_filter in Hx as [_ Hx].
    apply elem_of_filter in Hx as [Hx _]. by apply Hx.
  - cbn. apply smembers_empty. intros x Hx.
    apply elem_of_difference in Hx as [Hx _].
    apply elem_of_filter in Hx as [_ Hx]. apply elem_of_filter in Hx as [Hx _].
    by apply Hx.
  - intros ch Hch. rewrite elem_of_smembers. cbn. intros Hin.
    apply elem_of_difference in Hin as [Hin _].
    do 4 apply elem_of_filter in Hin as [_ Hin].
    apply (Hgone2 ch); [|done]. subst channels.
    apply elem_of_elements, elem_of_smembers. apply Hkeep1.
    + intros C. apply nodeChannels_ne_clientNode.
    + intros C. apply nodeChannels_ne_clientMetadata.
    + apply not_eq_sym, nodeClients_ne_nodeChannels.
    + by apply elem_of_smembers.
  - rewrite elem_of_smembers. cbn. intros Hin.
    apply elem_of_difference in Hin as [_ Hin]. apply Hin. by apply elem_of_singleton.
  - cbn. rewrite !lookup_delete. by repeat case_decide.
  - cbn. apply lookup_delete_eq.
  - intros ch Hch Hin. cbn.
    destruct (channelNodes_ne_node ch self) as (N1 & N2 & N3).
    apply elem_of_difference. split.
    + repeat (apply elem_of_filter; split; cbn [fst]);
        [done|apply not_eq_sym, nodeChannels_ne_channelNodes
        |apply not_eq_sym, nodeClients_ne_channelNodes|done|].
      apply Hkeep2.
      * intros ch' Hch' He. apply (f_equal fst) in He. cbn in He.
        apply channelNodes_inj in He. subst ch'. apply Hch.
        subst channels. apply elem_of_elements, elem_of_smembers in Hch'.
        apply elem_of_smembers. by apply M1.
      * apply Hkeep1; [intros C; apply channelNodes_ne_clientNode
                       |intros C; apply channelNodes_ne_clientMetadata
                       |apply not_eq_sym, nodeClients_ne_channelNodes|done].
    + intros He%elem_of_singleton. apply (f_equal fst) in He. by cbn in He.
Qed.


End Shutdown.

(** X5.  On a store that rejects nothing, the clean-up of [shutdown] adds
    nothing to the directory and leaves in it: no node and no metadata for
    the clients that were in the client set of the node; no client set and
    no channel set for the node; for every channel that was in the channel
    set of the node, a node set without the node; the set of nodes without
    the node; and no information and no heartbeat for the node. *)
Theorem shutdown_clears_node (nm : NodeManager.t) (r : Redis.t) :
  NodeManager.redis nm = Some r → Redis.faults r = [] →
  let self := NodeManager.nodeId nm in
  ∃ r', NodeManager.shutdown nm = NodeManager.mk (Some r') self ∧
        Redis.kv r' ⊆ Redis.kv r ∧ Redis.members r' ⊆ Redis.members r ∧
        Redis.hashes r' ⊆ Redis.hashes r ∧
        (∀ C, C ∈ Redis.smembers (NodeManager.nodeClients self) (Redis.members r) →
              Redis.kv r' !! NodeManager.clientNode C = None ∧
              Redis.hashes r' !! NodeManager.clientMetadata C = None) ∧
        Redis.smembers (NodeManager.nodeClients self) (Redis.members r') = ∅ ∧
        Redis.smembers (NodeManager.nodeChannels self) (Redis.members r') = ∅ ∧
        (∀ ch, ch ∈ Redis.smembers (NodeManager.nodeChannels self) (Redis.members r) →
               self ∉ Redis.smembers (NodeManager.channelNodes ch) (Redis.members r')) ∧
        (self ∉ Redis.smembers NodeManager.nodes (Redis.members r')) ∧
        Redis.hashes r' !! NodeManager.nodeInfo self = None ∧
        Redis.hashes r' !! NodeManager.nodeHeartbeat self = None.
Proof.
  intros Hr Hf self.
  destruct (shutdown_store nm r Hr Hf)
    as (r' & Heq & (K & M & H & _) & Hcl & Hnc & Hnch & Hch & Hn & Hi & Hb & _).
  exists r'. split; [exact Heq|].
  split; [exact K|]. split; [exact M|]. split; [exact H|].
  split; [exact Hcl|]. split; [exact Hnc|]. split; [exact Hnch|].
  split; [exact Hch|]. split; [exact Hn|]. split; [exact Hi|exact Hb].
Qed.

Lemma shutdown_clears_node_witness :
  ∃ r', NodeManager.shutdown (NodeManager.mk (Some one_client_store) "n1")
        = NodeManager.mk (Some r') "n1" ∧
        Redis.kv r' !! NodeManager.clientNode "c1" = None.
Proof.
  destruct (shutdown_clears_node (NodeManager.mk (Some one_client_store) "n1")
              one_client_store eq_refl eq_refl) as (r' & Heq & _ & _ & _ & Hc & _).
  exists r'. split; [exact Heq|]. apply Hc.
  apply elem_of_smembers. unfold one_client_store. store_simpl.
  apply elem_of_singleton. reflexivity.
Defined.

(** X6.  A subscription is not undone when the store rejects one of its
    commands.  When the second command of [subscribeClientToChannel] is
    rejected, the node is in the node set of the channel and nothing else is
    written; the node is then reported for the channel, and, the channel
    not being in the channel set of the node, the clean-up of [shutdown]
    leaves the node in the node set of the channel. *)
Theorem subscribeClientToChannel_rejected_midway
    (nm : NodeManager.t) (r : Redis.t) (C c : string) :
  NodeManager.redis nm = Some r →
  Redis.faults r = [false; true] →
  let self := NodeManager.nodeId nm in
  c ∉ Redis.smembers (NodeManager.nodeChannels self) (Redis.members r) →
  let nm1 := NodeManager.subscribeClientToChannel C c nm in
  nm1 = NodeManager.mk
          (Some (Redis.mk (Redis.kv r)
                   ({[ (NodeManager.channelNodes c, self) ]} ∪ Redis.members r)
                   (Redis.hashes r) [])) self ∧
  self ∈ (NodeManager.getNodesForChannel c nm1).2 ∧
  ∃ r2, NodeManager.shutdown nm1 = NodeManager.mk (Some r2) self ∧
        self ∈ Redis.smembers (NodeManager.channelNodes c) (Redis.members r2).
Proof.
  intros Hr Hf self Hc nm1.
  assert (nm1 = NodeManager.mk
                  (Some (Redis.mk (Redis.kv r)
                           ({[ (NodeManager.channelNodes c, self) ]} ∪ Redis.members r)
                           (Redis.hashes r) [])) self) as Hnm1.
  { subst nm1. unfold NodeManager.subscribeClientToChannel, NodeManager.guarded.
    rewrite Hr. unfold Redis.attempt, Redis.bind, Redis.sAdd, Redis.command.
    rewrite Hf. reflexivity. }
  split; [exact Hnm1|]. rewrite Hnm1.
  set (r1 := Redis.mk _ _ _ _). split.
  - rewrite (getNodesForChannel_store (NodeManager.mk (Some r1) self) r1 c eq_refl eq_refl).
    subst r1. store_simpl. rewrite smembers_add. cbn zeta.
    set (S := {[self]} ∪ _).
    assert (self ∈ elements S) as Hin by (apply elem_of_elements; set_solver).
    destruct (elements S) as [|x l] eqn:He; [by apply elem_of_nil in Hin|].
    cbn [length Nat.ltb Nat.leb]. exact Hin.
  - destruct (shutdown_store (NodeManager.mk (Some r1) self) r1 eq_refl eq_refl)
      as (r2 & Heq & _ & _ & _ & _ & _ & _ & _ & _ & Hkeep).
    exists r2. split; [exact Heq|]. apply elem_of_smembers.
    cbn [NodeManager.nodeId] in Hkeep. apply Hkeep; subst r1; store_simpl.
    + rewrite smembers_add_ne by apply nodeChannels_ne_channelNodes. exact Hc.
    + set_solver.
Qed.

Lemma subscribeClientToChannel_rejected_midway_witness :
  "n1" ∈ (NodeManager.getNodesForChannel "g"
            (NodeManager.subscribeClientToChannel "c1" "g"
               (NodeManager.mk (Some (Redis.with_faults [false; true] Redis.empty))
                  "n1"))).2.
Proof.
  destruct (subscribeClientToChannel_rejected_midway
              (NodeManager.mk (Some (Redis.with_faults [false; true] Redis.empty)) "n1")
              (Redis.with_faults [false; true] Redis.empty) "c1" "g" eq_refl eq_refl)
    as (_ & H & _).
  - apply not_elem_of_empty.
  - exact H.
Defined.


(** ** Router: local delivery *)
Section Delivery.
Import MessageRouter.
Context {Msg : Type}.
Implicit Types st : t Msg.

Lemma unsubscribeFromRedisChannel_localClients ch st :
  localClients (unsubscribeFromRedisChannel ch st) = localClients st.
Proof.
  unfold unsubscribeFromRedisChannel. destruct (redisSubscriber st) as [s|]; [|done].
  destruct (decide _); [|done]. by destruct (unsubscribe _ s) as [s' []].
Qed.

Lemma unsubscribeFromChannel_lookup_ne C D ch st :
  D ≠ C → localClients (unsubscribeFromChannel C ch st) !! D = localClients st !! D.
Proof.
  intros Hne. unfold unsubscribeFromChannel.
  destruct (localClients st !! C) as [c|]; [|done].
  destruct (decide _).
  - cbn. by rewrite lookup_insert_ne.
  - rewrite unsubscribeFromRedisChannel_localClients. cbn. by rewrite lookup_insert_ne.
Qed.

Lemma unregisterLocalClient_lookup C D st :
  localClients (unregisterLocalClient C st) !! D
  = if decide (D = C) then None else localClients st !! D.
Proof.
  unfold unregisterLocalClient. destruct (localClients st !! C) as [c|] eqn:HC.
  - cbn [localClients]. destruct (decide (D = C)) as [->|Hne].
    + apply lookup_delete_eq.
    + rewrite lookup_delete_ne by done.
      generalize (elements (channels c)). intros l. clear HC. revert st.
      induction l as [|ch l IH]; intros st; simpl; [done|].
      rewrite IH. by apply unsubscribeFromChannel_lookup_ne.
  - destruct (decide (D = C)) as [->|]; done.
Qed.

(** One write: the connection written to, and whether the write went
    through. *)
Lemma sendToLocalClient_spec C m st :
  let res := sendToLocalClient C m st in
  (∀ D, localClients res.1 !! D
        = if decide (D = C) then localClients st !! C ≫= fanout None None m C
          else localClients st !! D) ∧
  res.2 = match localClients st !! C with
          | Some c => targeted None None C c && negb (sendThrows (ws c))
          | None => false
          end.
Proof.
  unfold sendToLocalClient, fanout, targeted.
  destruct (localClients st !! C) as [c|] eqn:HC; cbn [mbind option_bind].
  - rewrite bool_decide_eq_true_2 by done. cbn [andb].
    destruct (readyState (ws c) =? 1)%Z.
    + destruct (sendThrows (ws c)) eqn:Ht; cbn [fst snd negb andb].
      * split; [|done]. intros D. rewrite unregisterLocalClient_lookup.
        by repeat case_decide.
      * split; [|done]. intros D. cbn. destruct (decide (D = C)) as [->|Hne].
        -- rewrite lookup_insert_eq. unfold written. by rewrite Ht.
        -- by rewrite lookup_insert_ne.
    + cbn. split; [|done]. intros D. by destruct (decide (D = C)) as [->|Hne].
  - cbn. split; [|done]. intros D. by destruct (decide (D = C)) as [->|Hne].
Qed.

Lemma targeted_split (ch : option string) excl C (c : client Msg) :
  targeted ch excl C c
  = bool_decide (excl ≠ Some C)
    && match ch with Some ch => bool_decide (ch ∈ channels c) | None => true end
    && targeted None None C c.
Proof.
  unfold targeted. rewrite (bool_decide_eq_true_2 (None ≠ Some C)) by done. done.
Qed.

(** A fan-out over a list of clients without repetition. *)
Lemma fanout_fold (ch : option string) (excl : option string) (m : Msg)
    (f : t Msg * nat → string → t Msg * nat) :
  (∀ s n C,
     (∀ D, localClients (f (s, n) C).1 !! D
           = if decide (D = C) then localClients s !! C ≫= fanout ch excl m C
             else localClients s !! D) ∧
     (f (s, n) C).2
     = (n + match localClients s !! C with
            | Some c => if targeted ch excl C c && negb (sendThrows (ws c)) then 1 else 0
            | None => 0
            end)%nat) →
  ∀ (l : list string) s n, NoDup l →
    let res := foldl f (s, n) l in
    (∀ D, localClients res.1 !! D
          = if decide (D ∈ l) then localClients s !! D ≫= fanout ch excl m D
            else localClients s !! D) ∧
    res.2 = (n + length (List.filter
                           (λ C, match localClients s !! C with
                                 | Some c => targeted ch excl C c && negb (sendThrows (ws c))
                                 | None => false
                                 end) l))%nat.
Proof.
  intros Hf l. induction l as [|C l IH]; intros s n Hnd; cbn [foldl fst snd].
  { split; [|cbn; lia]. intros D. rewrite decide_False; [done|]. apply not_elem_of_nil. }
  apply NoDup_cons in Hnd as [HC Hnd].
  destruct (Hf s n C) as [Hl Hn]. destruct (f (s, n) C) as [s1 n1] eqn:Hs1.
  cbn [fst snd] in Hl, Hn.
  destruct (IH s1 n1 Hnd) as [IHl IHn]. split.
  - intros D. rewrite IHl, Hl.
    destruct (decide (D = C)) as [->|Hne].
    + rewrite decide_False by done. rewrite decide_True by (by left). done.
    + destruct (decide (D ∈ l)) as [Hin|Hnin].
      * rewrite decide_True by (by right). done.
      * rewrite decide_False; [done|]. intros [?|?]%elem_of_cons; done.
  - rewrite IHn, Hn.
    assert (List.filter
              (λ C0, match localClients s1 !! C0 with
                     | Some c => targeted ch excl C0 c && negb (sendThrows (ws c))
                     | None => false
                     end) l
            = List.filter
              (λ C0, match localClients s !! C0 with
                     | Some c => targeted ch excl C0 c && negb (sendThrows (ws c))
                     | None => false
                     end) l) as ->.
    { apply List.filter_ext_in. intros D HD. rewrite Hl.
      rewrite decide_False; [done|]. intros ->. apply HC. by apply list_elem_of_In. }
    cbn [List.filter].
    destruct (localClients s !! C) as [c|]; [|cbn; lia].
    destruct (targeted ch excl C c && negb (sendThrows (ws c))); cbn; lia.
Qed.

Lemma reached_length (ch excl : option string) (clients : gmap string (client Msg)) :
  length (reached ch excl clients)
  = length (List.filter
              (λ C, match clients !! C with
                    | Some c => targeted ch excl C c && negb (sendThrows (ws c))
                    | None => false
                    end) (map_to_list clients).*1).
Proof.
  unfold reached.
  assert (∀ l : list (string * client Msg),
            (∀ kv, kv ∈ l → clients !! kv.1 = Some kv.2) →
            length (List.filter (λ kv, targeted ch excl kv.1 kv.2
                                       && negb (sendThrows (ws kv.2))) l)
            = length (List.filter
                        (λ C, match clients !! C with
                              | Some c => targeted ch excl C c && negb (sendThrows (ws c))
                              | None => false
                              end) l.*1)) as H.
  { induction l as [|[k v] l IH]; intros Hl; [done|].
    cbn [fmap list_fmap List.filter fst snd].
    pose proof (Hl (k, v) ltac:(by left)) as Hk. cbn [fst snd] in Hk. rewrite Hk.
    destruct (_ && _); cbn [length]; rewrite IH; try done;
      intros kv Hkv; apply Hl; by right. }
  apply H. intros [k v] Hkv. by apply elem_of_map_to_list in Hkv.
Qed.

Lemma fanout_lookup (ch excl : option string) (m : Msg) (clients : gmap string (client Msg))
    (D : string) :
  (if decide (D ∈ (map_to_list clients).*1) then clients !! D ≫= fanout ch excl m D
   else clients !! D)
  = clients !! D ≫= fanout ch excl m D.
Proof.
  destruct (decide _) as [|Hnin]; [done|].
  destruct (clients !! D) as [c|] eqn:HD; [|done].
  destruct Hnin. apply list_elem_of_fmap. exists (D, c). split; [done|].
  by apply elem_of_map_to_list.
Qed.

(** The two fan-outs, client by client. *)
Lemma broadcastToLocalChannel_spec ch m excl st :
  let res := broadcastToLocalChannel ch m excl st in
  (∀ D, localClients res.1 !! D = localClients st !! D ≫= fanout (Some ch) excl m D) ∧
  res.2 = length (reached (Some ch) excl (localClients st)).
Proof.
  cbn zeta. unfold broadcastToLocalChannel.
  edestruct (fanout_fold (Some ch) excl m) as [Hl Hn];
    [|apply (NoDup_fst_map_to_list (localClients st))|].
  2: { split.
       - intros D. rewrite Hl. by apply fanout_lookup.
       - rewrite Hn, reached_length. done. }
  intros s n C. cbn [fst snd].
  destruct (decide (excl = Some C)) as [He|Hne].
  { cbn [fst snd]. split.
    - intros D. destruct (decide (D = C)) as [->|]; [|done].
      destruct (localClients s !! C) as [c|]; [|done]. cbn.
      unfold fanout, targeted. by rewrite bool_decide_eq_false_2 by (by intros H).
    - destruct (localClients s !! C) as [c|]; [|lia].
      unfold targeted. rewrite bool_decide_eq_false_2 by (by intros H). simpl. lia. }
  destruct (localClients s !! C) as [c|] eqn:HC.
  2: { cbn. split; [|lia]. intros D. destruct (decide (D = C)) as [->|]; [|done].
       by rewrite HC. }
  destruct (decide (ch ∈ channels c)) as [Hin|Hnin].
  - destruct (sendToLocalClient_spec C m s) as [Hl Hn].
    destruct (sendToLocalClient C m s) as [s' ok]. cbn [fst snd] in *.
    rewrite HC in Hn. split.
    + intros D. rewrite Hl. destruct (decide (D = C)) as [->|]; [|done].
      rewrite HC. cbn. unfold fanout. rewrite (targeted_split (Some ch)).
      rewrite !bool_decide_eq_true_2 by done. done.
    + rewrite Hn. rewrite (targeted_split (Some ch)).
      rewrite !bool_decide_eq_true_2 by done. cbn [andb].
      destruct (_ && _); lia.
  - cbn [fst snd]. split.
    + intros D. destruct (decide (D = C)) as [->|]; [|done]. rewrite HC. cbn.
      unfold fanout, targeted. rewrite (bool_decide_eq_false_2 (ch ∈ _)) by done.
      by rewrite andb_false_r.
    + unfold targeted. rewrite (bool_decide_eq_false_2 (ch ∈ _)) by done.
      rewrite andb_false_r. simpl. lia.
Qed.

Lemma broadcastToLocalClients_spec m excl st :
  let res := broadcastToLocalClients m excl st in
  (∀ D, localClients res.1 !! D = localClients st !! D ≫= fanout None excl m D) ∧
  res.2 = length (reached None excl (localClients st)).
Proof.
  cbn zeta. unfold broadcastToLocalClients.
  edestruct (fanout_fold None excl m) as [Hl Hn];
    [|apply (NoDup_fst_map_to_list (localClients st))|].
  2: { split.
       - intros D. rewrite Hl. by apply fanout_lookup.
       - rewrite Hn, reached_length. done. }
  intros s n C. cbn [fst snd].
  destruct (decide (excl = Some C)) as [He|Hne].
  { cbn [fst snd]. split.
    - intros D. destruct (decide (D = C)) as [->|]; [|done].
      destruct (localClients s !! C) as [c|]; [|done]. cbn.
      unfold fanout, targeted. by rewrite bool_decide_eq_false_2 by (by intros H).
    - destruct (localClients s !! C) as [c|]; [|lia].
      unfold targeted. rewrite bool_decide_eq_false_2 by (by intros H). simpl. lia. }
  destruct (sendToLocalClient_spec C m s) as [Hl Hn].
  destruct (sendToLocalClient C m s) as [s' ok]. cbn [fst snd] in *.
  split.
  - intros D. rewrite Hl. destruct (decide (D = C)) as [->|]; [|done].
    destruct (localClients s !! C) as [c|]; [|done]. cbn.
    unfold fanout. rewrite (targeted_split None excl).
    rewrite !bool_decide_eq_true_2 by done. done.
  - rewrite Hn. destruct (localClients s !! C) as [c|]; [|lia].
    rewrite (targeted_split None excl).
    rewrite !bool_decide_eq_true_2 by done. cbn [andb].
    destruct (_ && _); lia.
Qed.

(** What a fan-out makes of a client it does not write to, and of one it
    writes to. *)
Lemma fanout_untargeted (ch excl : option string) (m : Msg) C (c : client Msg) :
  targeted ch excl C c = false → fanout ch excl m C c = Some c.
Proof. intros H. unfold fanout. by rewrite H. Qed.

Lemma fanout_targeted (ch excl : option string) (m : Msg) C (c : client Msg) :
  targeted ch excl C c = true → sendThrows (ws c) = false →
  fanout ch excl m C c = Some (written m c).
Proof. intros H Ht. unfold fanout. by rewrite H, Ht. Qed.

End Delivery.

(** X7.  [broadcastToLocalChannel] writes the message once to every local
    client that has the channel, is not the excluded client and has an open
    connection; such a client is unregistered when the write raises, every
    other client is left as it was, and the number returned is the number
    of writes that went through. *)
Theorem broadcastToLocalChannel_delivers
    (Msg : Type) (st : MessageRouter.t Msg) (channel : string) (message : Msg)
    (excludeClientId : option string) :
  let res := MessageRouter.broadcastToLocalChannel channel message excludeClientId st in
  (∀ D c, MessageRouter.localClients st !! D = Some c →
          MessageRouter.localClients res.1 !! D
          = if targeted (Some channel) excludeClientId D c
            then (if MessageRouter.sendThrows (MessageRouter.ws c) then None
                  else Some (written message c))
            else Some c) ∧
  (∀ D, MessageRouter.localClients st !! D = None →
        MessageRouter.localClients res.1 !! D = None) ∧
  res.2 = length (reached (Some channel) excludeClientId (MessageRouter.localClients st)).
Proof.
  cbn zeta.
  destruct (broadcastToLocalChannel_spec channel message excludeClientId st) as [Hl Hn].
  split; [|split].
  - intros D c HD. rewrite Hl, HD. reflexivity.
  - intros D HD. rewrite Hl, HD. reflexivity.
  - exact Hn.
Qed.

Lemma broadcastToLocalChannel_delivers_witness :
  MessageRouter.localClients
    (MessageRouter.broadcastToLocalChannel "g" "hi" None one_joined).1 !! "a"
  = Some (written "hi"
            joined_client).
Proof.
  destruct (broadcastToLocalChannel_delivers string one_joined "g" "hi" None) as [H _].
  rewrite (H "a" joined_client).
  - reflexivity.
  - vm_compute. reflexivity.
Defined.

(** X8.  [broadcastToLocalClients] writes the message once to every local
    client other than the excluded one whose connection is open, whatever
    its channels; a client is unregistered when the write raises, the others
    are left as they were, and the number returned is the number of writes
    that went through. *)
Theorem broadcastToLocalClients_delivers
    (Msg : Type) (st : MessageRouter.t Msg) (message : Msg)
    (excludeClientId : option string) :
  let res := MessageRouter.broadcastToLocalClients message excludeClientId st in
  (∀ D c, MessageRouter.localClients st !! D = Some c →
          MessageRouter.localClients res.1 !! D
          = if targeted None excludeClientId D c
            then (if MessageRouter.sendThrows (MessageRouter.ws c) then None
                  else Some (written message c))
            else Some c) ∧
  (∀ D, MessageRouter.localClients st !! D = None →
        MessageRouter.localClients res.1 !! D = None) ∧
  res.2 = length (reached None excludeClientId (MessageRouter.localClients st)).
Proof.
  cbn zeta.
  destruct (broadcastToLocalClients_spec message excludeClientId st) as [Hl Hn].
  split; [|split].
  - intros D c HD. rewrite Hl, HD. reflexivity.
  - intros D HD. rewrite Hl, HD. reflexivity.
  - exact Hn.
Qed.

Lemma broadcastToLocalClients_delivers_witness :
  MessageRouter.localClients
    (MessageRouter.broadcastToLocalClients "hi" (Some "a") one_joined).1 !! "a"
  = Some joined_client.
Proof.
  destruct (broadcastToLocalClients_delivers string one_joined "hi" (Some "a")) as [H _].
  rewrite (H "a" joined_client).
  - reflexivity.
  - vm_compute. reflexivity.
Defined.


(** ** Router: the directory lists the local clients *)
Section Listed.
Import MessageRouter.
Context {Msg : Type}.
Implicit Types st : t Msg.











End Listed.


(** ** Router: from a send to the local connections *)
Section EndToEnd.
Import MessageRouter.
Context {Msg : Type}.
Implicit Types st : t Msg.




End EndToEnd.




(** X10.  When the publish goes through, [broadcastToAll] publishes one
    broadcast envelope and writes to no connection; the node that sent the
    envelope ignores it when it comes back, so that the local clients of the
    sender are not written to, while every other node hands it to
    [broadcastToLocalClients]. *)
Theorem broadcastToAll_skips_sender
    (Msg : Type) (st : MessageRouter.t Msg) (message : Msg)
    (excludeClientId : option string) (now : Z) (p : MessageRouter.publisher Msg) :
  MessageRouter.redisPublisher st = Some p →
  head (MessageRouter.pfaults p) ≠ Some true →
  let self := NodeManager.nodeId (MessageRouter.nodeManager st) in
  let env := MessageRouter.Broadcast message excludeClientId self now in
  let st' := MessageRouter.broadcastToAll message excludeClientId now st in
  MessageRouter.redisPublisher st'
  = Some (MessageRouter.mkPub
            (MessageRouter.published p ++ [(MessageRouter.broadcastChannel, env)])
            (tail (MessageRouter.pfaults p))) ∧
  MessageRouter.localClients st' = MessageRouter.localClients st ∧
  MessageRouter.handleBroadcastMessage env st' = st' ∧
  (∀ st2 : MessageRouter.t Msg,
     NodeManager.nodeId (MessageRouter.nodeManager st2) ≠ self →
     MessageRouter.handleBroadcastMessage env st2
     = (MessageRouter.broadcastToLocalClients message excludeClientId st2).1).
Proof.
  intros Hp Hf self env st'. subst st'. unfold MessageRouter.broadcastToAll.
  rewrite Hp. fold self. fold env. rewrite publish_healthy by done.
  split; [done|]. split; [done|]. split.
  - unfold MessageRouter.handleBroadcastMessage, env.
    cbn [MessageRouter.nodeManager MessageRouter.with_publisher].
    fold self. by rewrite decide_True.
  - intros st2 Hne. unfold MessageRouter.handleBroadcastMessage, env.
    rewrite decide_False; [done|]. by apply not_eq_sym.
Qed.

Lemma broadcastToAll_skips_sender_witness :
  MessageRouter.localClients (MessageRouter.broadcastToAll "hi" None 7 lone_router)
  = MessageRouter.localClients lone_router.
Proof.
  destruct (broadcastToAll_skips_sender string lone_router "hi" None 7
              (MessageRouter.mkPub [] [])) as (_ & H & _).
  - reflexivity.
  - simpl. discriminate.
  - exact H.
Defined.

(** X11.  A direct send to a client that is not local, on a store that
    rejects nothing and with the publish going through: when the directory
    names a node for the client, one direct envelope is published on the
    direct channel of that node and the send reports success; when it names
    none, nothing is published and the send reports failure.  The node that
    handles the envelope writes the message to the client if it is one of
    its local clients with an open connection. *)
Theorem sendToClient_routes_by_directory
    (Msg : Type) (st : MessageRouter.t Msg) (C : string) (message : Msg) (now : Z)
    (p : MessageRouter.publisher Msg) (r : Redis.t) :
  MessageRouter.localClients st !! C = None →
  MessageRouter.redisPublisher st = Some p →
  head (MessageRouter.pfaults p) ≠ Some true →
  NodeManager.redis (MessageRouter.nodeManager st) = Some r →
  Redis.faults r = [] →
  let self := NodeManager.nodeId (MessageRouter.nodeManager st) in
  let res := MessageRouter.sendToClient C message now st in
  (∀ n, Redis.kv r !! NodeManager.clientNode C = Some n → n ≠ "" →
        let env := MessageRouter.DirectMessage C message self n now in
        res.2 = true ∧
        MessageRouter.redisPublisher res.1
        = Some (MessageRouter.mkPub
                  (MessageRouter.published p ++ [(MessageRouter.directChannel n, env)])
                  (tail (MessageRouter.pfaults p))) ∧
        ∀ (st2 : MessageRouter.t Msg) c,
          MessageRouter.localClients st2 !! C = Some c →
          MessageRouter.readyState (MessageRouter.ws c) = 1%Z →
          MessageRouter.sendThrows (MessageRouter.ws c) = false →
          MessageRouter.localClients (MessageRouter.handleDirectMessage env st2) !! C
          = Some (written message c)) ∧
  (Redis.kv r !! NodeManager.clientNode C = None → res = (st, false)).
Proof.
  intros HC Hp Hf Hr Hh self res. subst res.
  unfold MessageRouter.sendToClient. rewrite HC, Hp.
  assert (NodeManager.healthy (MessageRouter.nodeManager st)) as Hnm
    by (unfold NodeManager.healthy; by rewrite Hr).
  pose proof (getClientNode_healthy _ C Hnm) as H1.
  pose proof (getClientNode_store _ r C Hr Hh) as H2.
  destruct (NodeManager.getClientNode C (MessageRouter.nodeManager st)) as [nm' node].
  cbn [fst snd] in H1, H2. subst nm'. split.
  - intros n Hn Hne. rewrite Hn in H2.
    destruct (String.eqb_spec n ""); [done|]. subst node. cbn zeta. fold self.
    rewrite publish_healthy by done. cbn [fst snd].
    split; [done|]. split; [by destruct st|].
    intros st2 c Hc Hopen Hthrows. unfold MessageRouter.handleDirectMessage.
    destruct (sendToLocalClient_spec C message st2) as [Hl _].
    rewrite Hl, decide_True by done. rewrite Hc. cbn.
    apply fanout_targeted; [|done]. unfold targeted.
    rewrite bool_decide_eq_true_2 by done. cbn [andb]. by apply Z.eqb_eq.
  - intros Hn. rewrite Hn in H2. subst node. by destruct st as [[] ? ? ? ?].
Qed.

Lemma sendToClient_routes_by_directory_witness :
  MessageRouter.sendToClient "zoe" "hi" 7 lone_router = (lone_router, false).
Proof.
  destruct (sendToClient_routes_by_directory string lone_router "zoe" "hi" 7
              (MessageRouter.mkPub [] []) Redis.empty) as [_ H].
  - reflexivity.
  - reflexivity.
  - simpl. discriminate.
  - reflexivity.
  - reflexivity.
  - apply H. reflexivity.
Defined.





(** X13.  When the store connection rejects the subscription to the route
    channel, [subscribeToChannel] still reports success and the client has
    the channel, but the process holds no new listener and the channel is
    not in [subscribedChannels]; the next [subscribeToChannel] for the
    channel, by any local client, subscribes again, and once that goes
    through the listener is there. *)
Theorem subscribeToChannel_rejected_is_retried
    (Msg : Type) (st : MessageRouter.t Msg) (s : MessageRouter.subscriber)
    (C D c : string) (fs : list bool) (cl dl : MessageRouter.client Msg) :
  MessageRouter.redisSubscriber st = Some s →
  MessageRouter.sfaults s = true :: fs →
  head fs ≠ Some true →
  c ∉ MessageRouter.subscribedChannels st →
  MessageRouter.localClients st !! C = Some cl →
  MessageRouter.localClients st !! D = Some dl →
  let r1 := MessageRouter.subscribeToChannel C c st in
  let r2 := MessageRouter.subscribeToChannel D c r1.1 in
  r1.2 = true ∧
  (c ∉ MessageRouter.subscribedChannels r1.1) ∧
  MessageRouter.routeListeners c r1.1 = MessageRouter.routeListeners c st ∧
  MessageRouter.stillNeeded c r1.1 ∧
  r2.2 = true ∧
  c ∈ MessageRouter.subscribedChannels r2.1 ∧
  MessageRouter.routeListeners c r2.1 = S (MessageRouter.routeListeners c st).
Proof.
  intros Hs Hf Hfs Hc HC HD r1 r2.
  assert (r1 = (MessageRouter.mk
                  (NodeManager.subscribeClientToChannel C c (MessageRouter.nodeManager st))
                  (MessageRouter.redisPublisher st)
                  (Some (MessageRouter.mkSub (MessageRouter.listeners s) fs))
                  (<[C := MessageRouter.with_channels ({[c]} ∪ MessageRouter.channels cl) cl]>
                     (MessageRouter.localClients st))
                  (MessageRouter.subscribedChannels st), true)) as Hr1.
  { subst r1. unfold MessageRouter.subscribeToChannel. rewrite HC.
    cbn [MessageRouter.subscribedChannels]. rewrite decide_False by done.
    unfold MessageRouter.subscribeToRedisChannel.
    cbn [MessageRouter.redisSubscriber MessageRouter.subscribedChannels].
    rewrite Hs, decide_False by done.
    unfold MessageRouter.subscribe. by rewrite Hf. }
  subst r2. rewrite Hr1. cbn [fst snd].
  split; [done|]. split; [done|]. split.
  { unfold MessageRouter.routeListeners. cbn. by rewrite Hs. }
  split.
  { exists C, (MessageRouter.with_channels ({[c]} ∪ MessageRouter.channels cl) cl).
    cbn. split; [by rewrite lookup_insert_eq|]. set_solver. }
  unfold MessageRouter.subscribeToChannel. cbn [MessageRouter.localClients].
  assert (∃ dl', <[C := MessageRouter.with_channels ({[c]} ∪ MessageRouter.channels cl) cl]>
                   (MessageRouter.localClients st) !! D = Some dl') as [dl' ->].
  { destruct (decide (D = C)) as [->|Hne].
    - rewrite lookup_insert_eq. by eexists.
    - rewrite lookup_insert_ne by done. by eexists. }
  cbn [fst snd MessageRouter.subscribedChannels]. rewrite decide_False by done.
  unfold MessageRouter.subscribeToRedisChannel.
  cbn [MessageRouter.redisSubscriber MessageRouter.subscribedChannels].
  rewrite decide_False by done.
  unfold MessageRouter.subscribe. cbn [MessageRouter.sfaults MessageRouter.listeners].
  unfold MessageRouter.routeListeners. rewrite Hs.
  destruct fs as [|[] fs']; [|by destruct Hfs|]; cbn.
  - split; [done|]. split; [set_solver|]. by rewrite lookup_insert_eq.
  - split; [done|]. split; [set_solver|]. by rewrite lookup_insert_eq.
Qed.

Lemma subscribeToChannel_rejected_is_retried_witness :
  (MessageRouter.subscribeToChannel "a" "g" rejecting_router).2 = true.
Proof.
  destruct (subscribeToChannel_rejected_is_retried string rejecting_router
              (MessageRouter.mkSub ∅ [true]) "a" "a" "g" []
              (MessageRouter.mkClient (MessageRouter.mkWs 1 false []) ∅ ∅ 0)
              (MessageRouter.mkClient (MessageRouter.mkWs 1 false []) ∅ ∅ 0))
    as [H _].
  - reflexivity.
  - reflexivity.
  - simpl. discriminate.
  - cbn. set_solver.
  - cbn. apply lookup_insert_eq.
  - cbn. apply lookup_insert_eq.
  - exact H.
Defined.

(** ** Router: the channel distribution *)
Section Distribution.
Import MessageRouter.
Context {Msg : Type}.
Implicit Types st : t Msg.

Lemma countChannel_other d c ch : c ≠ ch → countChannel d c !! ch = d !! ch.
Proof.
  intros Hne. unfold countChannel.
  destruct (String.eqb c "__proto__"); [done|].
  destruct (bool_decide _); [by rewrite lookup_insert_ne|].
  destruct (d !! c) as [[n|]|]; by rewrite lookup_insert_ne.
Qed.

Lemma proto_inherited : "__proto__" ∈ Js.inherited.
Proof. apply (bool_decide_unpack _). vm_compute. exact I. Qed.

Lemma countChannel_self d ch (n : nat) :
  ch ∉ Js.inherited → d !! ch = entryOf n → countChannel d ch !! ch = Some (Some (S n)).
Proof.
  intros Hni Hd. unfold countChannel.
  destruct (String.eqb_spec ch "__proto__") as [->|_];
    [destruct Hni; apply proto_inherited|].
  rewrite bool_decide_eq_false_2 by done. rewrite Hd. unfold entryOf.
  destruct n as [|n]; cbn; by rewrite lookup_insert_eq.
Qed.

Lemma countChannels_entry (l : list string) d ch (n : nat) :
  ch ∉ Js.inherited → NoDup l → d !! ch = entryOf n →
  foldl countChannel d l !! ch = entryOf (if bool_decide (ch ∈ l) then S n else n).
Proof.
  intros Hni. revert d n. induction l as [|c l IH]; intros d n Hnd Hd; cbn [foldl].
  { by rewrite bool_decide_eq_false_2 by apply not_elem_of_nil. }
  apply NoDup_cons in Hnd as [Hc Hnd]. destruct (decide (c = ch)) as [->|Hne].
  - rewrite (IH _ (S n) Hnd) by (by rewrite (countChannel_self d ch n)).
    rewrite bool_decide_eq_false_2 by done.
    by rewrite bool_decide_eq_true_2 by (by left).
  - rewrite (IH _ n Hnd) by (by rewrite countChannel_other).
    destruct (decide (ch ∈ l)) as [Hin|Hnin].
    + rewrite !bool_decide_eq_true_2; [done|by right|done].
    + rewrite !bool_decide_eq_false_2; [done| |done].
      intros [?|?]%elem_of_cons; done.
Qed.

Lemma distribution_entry (L : list (client Msg)) d ch (n : nat) :
  ch ∉ Js.inherited → d !! ch = entryOf n →
  foldl (λ distribution (c : client Msg),
           foldl countChannel distribution (elements (channels c))) d L !! ch
  = entryOf (n + length (List.filter (λ c : client Msg, bool_decide (ch ∈ channels c)) L))%nat.
Proof.
  intros Hni. revert d n. induction L as [|c L IH]; intros d n Hd; cbn [foldl List.filter].
  { cbn. by rewrite Nat.add_0_r. }
  pose proof (countChannels_entry (elements (channels c)) d ch n Hni
                (NoDup_elements _) Hd) as H1.
  destruct (decide (ch ∈ channels c)) as [Hin|Hnin].
  - rewrite bool_decide_eq_true_2 in H1 by (by apply elem_of_elements).
    rewrite (IH _ (S n)) by done. rewrite bool_decide_eq_true_2 by done.
    cbn [length]. by replace (S n + _)%nat with (n + S (length
      (List.filter (λ c0 : client Msg, bool_decide (ch ∈ channels c0)) L)))%nat by lia.
  - rewrite bool_decide_eq_false_2 in H1 by (by rewrite elem_of_elements).
    rewrite (IH _ n) by done. by rewrite bool_decide_eq_false_2 by done.
Qed.

Lemma countChannel_inherited d c ch :
  ch ∈ Js.inherited →
  (d !! ch = None ∨ d !! ch = Some None) →
  countChannel d c !! ch = None ∨ countChannel d c !! ch = Some None.
Proof.
  intros Hin Hd. destruct (decide (c = ch)) as [->|Hne].
  - unfold countChannel. destruct (String.eqb ch "__proto__"); [done|].
    rewrite bool_decide_eq_true_2 by done. right. by rewrite lookup_insert_eq.
  - by rewrite countChannel_other.
Qed.

Lemma distribution_inherited (L : list (client Msg)) d ch :
  ch ∈ Js.inherited →
  (d !! ch = None ∨ d !! ch = Some None) →
  let d' := foldl (λ distribution (c : client Msg),
                     foldl countChannel distribution (elements (channels c))) d L in
  d' !! ch = None ∨ d' !! ch = Some None.
Proof.
  intros Hin. revert d. induction L as [|c L IH]; intros d Hd; cbn [foldl]; [done|].
  apply IH. generalize (elements (channels c)). intros l. revert d Hd.
  induction l as [|x l IHl]; intros d Hd; cbn [foldl]; [done|].
  apply IHl. by apply countChannel_inherited.
Qed.

Lemma filter_channels_nil (ch : string) (clients : gmap string (client Msg)) :
  List.filter (λ c : client Msg, bool_decide (ch ∈ channels c)) (map_to_list clients).*2 = []
  ↔ ¬ map_Exists (λ _ c, ch ∈ channels c) clients.
Proof.
  split.
  - intros Hnil (C & c & HC & Hc).
    assert (c ∈ List.filter (λ c : client Msg, bool_decide (ch ∈ channels c))
                   (map_to_list clients).*2) as Hin.
    { apply list_elem_of_In, List.filter_In. split.
      - apply list_elem_of_In, list_elem_of_fmap. exists (C, c). split; [done|].
        by apply elem_of_map_to_list.
      - by apply bool_decide_eq_true_2. }
    rewrite Hnil in Hin. by apply elem_of_nil in Hin.
  - intros Hno. destruct (List.filter _ _) as [|c l] eqn:Hf; [done|].
    assert (c ∈ c :: l) as Hin by by left. rewrite <- Hf in Hin.
    apply list_elem_of_In, List.filter_In in Hin as [Hin Hc].
    apply list_elem_of_In, list_elem_of_fmap in Hin as ([C c'] & -> & Hin).
    apply elem_of_map_to_list in Hin. apply bool_decide_eq_true in Hc.
    destruct Hno. by exists C, c'.
Qed.

End Distribution.

(** X14.  The channel distribution of the statistics gives, for a channel
    whose name is not the name of an inherited property, the number of local
    clients that have it, and has no entry for it exactly when no local
    client has it; for a channel that bears such a name it never gives a
    count. *)
Theorem getChannelDistribution_counts
    (Msg : Type) (st : MessageRouter.t Msg) (channel : string) :
  let n := length (List.filter
                     (λ c : MessageRouter.client Msg,
                        bool_decide (channel ∈ MessageRouter.channels c))
                     (map_to_list (MessageRouter.localClients st)).*2) in
  let entry := MessageRouter.s_channelDistribution (MessageRouter.getStats st) !! channel in
  (channel ∉ Js.inherited →
     entry = entryOf n ∧
     (entry = None ↔ ¬ MessageRouter.stillNeeded channel st)) ∧
  (channel ∈ Js.inherited → entry = None ∨ entry = Some None).
Proof.
  intros n entry. subst entry. cbn [MessageRouter.getStats MessageRouter.s_channelDistribution].
  unfold MessageRouter.getChannelDistribution. split.
  - intros Hni.
    pose proof (distribution_entry (map_to_list (MessageRouter.localClients st)).*2
                  ∅ channel 0 Hni (lookup_empty _)) as H.
    cbn [Nat.add] in H. fold n in H. split; [exact H|].
    rewrite H. unfold MessageRouter.stillNeeded.
    rewrite <- filter_channels_nil. fold n.
    unfold entryOf. destruct (List.filter _ _) as [|c l] eqn:Hf; subst n; cbn; by split.
  - intros Hin. by apply distribution_inherited; [|left; apply lookup_empty].
Qed.

Lemma getChannelDistribution_counts_witness :
  MessageRouter.s_channelDistribution (MessageRouter.getStats one_joined) !! "g"
  = Some (Some 1%nat).
Proof.
  destruct (getChannelDistribution_counts string one_joined "g") as [H _].
  destruct H as [H _].
  - apply (bool_decide_unpack _). vm_compute. exact I.
  - rewrite H. vm_compute. reflexivity.
Defined.


(** ** Router: cleaning up *)
Section Cleanup.
Import MessageRouter.
Context {Msg : Type}.
Implicit Types st : t Msg.











End Cleanup.




(** ** Chat: joining and leaving *)
Section ChatRooms.
Import ChatService.













End ChatRooms.





(** X17.  In a chat service built on a router, a [history] request with a
    channel and an integer limit changes nothing and is answered by one
    history frame, also when the channel has no history: for a positive
    limit (50 when the frame gives none) it carries the newest messages of
    the channel, as many as the limit allows, oldest first; for the limit 0
    it carries the whole history; for a negative limit it carries the
    history without its first messages, as many as the limit counts. *)
Theorem chat_history_limit
    (st : ChatService.t) (C ch : string) (limit : option Z) (now : Z) :
  ChatService.isDistributed st = true →
  ch ≠ "" →
  let h := history ch st in
  let n := default 50%Z limit in
  let res := ChatService.handleGetHistory C (Some ch) limit now st in
  res.1 = st ∧
  ∃ msgs, res.2 = [SendToClient C (ChatService.History ch msgs now)] ∧
          ((0 < n)%Z → msgs = drop (length h - Z.to_nat n) h ∧
                       length msgs = (Z.to_nat n `min` length h)%nat) ∧
          (n = 0%Z → msgs = h) ∧
          ((n < 0)%Z → msgs = drop (Z.to_nat (- n)) h).
Proof.
  intros Hd Hne h n res. subst res. unfold ChatService.handleGetHistory.
  rewrite missing_Some by done. default_some. cbn [fst snd].
  split; [done|]. unfold ChatService.sendToClient. rewrite Hd.
  eexists. split; [reflexivity|].
  unfold ChatService.getChannelHistory, slice_from. fold (history ch st). fold h. fold n.
  split; [|split].
  - intros Hn. assert ((- n <? 0)%Z = true) as -> by (apply Z.ltb_lt; lia).
    replace (Z.to_nat (Z.of_nat (length h) + - n)) with (length h - Z.to_nat n)%nat by lia.
    split; [done|]. rewrite length_drop. lia.
  - intros ->. done.
  - intros Hn. by assert ((- n <? 0)%Z = false) as -> by (apply Z.ltb_ge; lia).
Qed.

Lemma chat_history_limit_witness :
  (ChatService.handleGetHistory "a" (Some "g") (Some 0%Z) 9 chat_joined).1 = chat_joined.
Proof.
  destruct (chat_history_limit chat_joined "a" "g" (Some 0%Z) 9) as [H _].
  - reflexivity.
  - discriminate.
  - exact H.
Defined.

Section Totals.
Context {A : Type}.

(** The sum that [getStats] takes over the values of a table of lists. *)
Lemma total_bounds (b : nat) (l : list (list A)) (a : nat) :
  (∀ h, h ∈ l → (1 ≤ length h ≤ b)%nat) →
  (a + length l ≤ foldl (λ sum (history : list A), sum + length history)%nat a l
   ≤ a + b * length l)%nat.
Proof.
  revert a. induction l as [|h l IH]; intros a Hl; cbn [foldl length]; [lia|].
  pose proof (Hl h ltac:(by left)) as Hh.
  specialize (IH (a + length h)%nat ltac:(intros x Hx; apply Hl; by right)). nia.
Qed.

End Totals.



(** X19.  When a connection ends, the chat service forgets the client: it is
    a member of no channel any more, the memberships of the other clients
    and the histories stay, a service built on a router asks it once for
    each channel the client was a member of to unsubscribe it, a service
    without a router asks nothing, and a second notification finds nothing
    to do. *)
Theorem chat_disconnect_forgets_client (st : ChatService.t) (C : string) :
  let res := ChatService.onClientDisconnect C st in
  (∀ D ch, joined D ch res.1 ↔ joined D ch st ∧ D ≠ C) ∧
  ChatService.channelHistory res.1 = ChatService.channelHistory st ∧
  (ChatService.isDistributed st = true →
   NoDup res.2 ∧
   ∀ c, c ∈ res.2 ↔ ∃ ch, c = UnsubscribeFromChannel C ch ∧ joined C ch st) ∧
  (ChatService.isDistributed st = false → res.2 = []) ∧
  ChatService.onClientDisconnect C res.1 = (res.1, []).
Proof.
  cbn zeta. unfold ChatService.onClientDisconnect.
  destruct (ChatService.clientChannels st !! C) as [chans|] eqn:HC;
    cbn [fst snd ChatService.clientChannels ChatService.channelHistory
         ChatService.isDistributed].
  - split; [|split; [done|split; [|split]]].
    + intros D ch. unfold joined. cbn. split.
      * intros (s & Hs & Hin). apply lookup_delete_Some in Hs as [Hne Hs].
        split; [by exists s|done].
      * intros [(s & Hs & Hin) Hne]. exists s. by rewrite lookup_delete_ne.
    + intros Hd. rewrite Hd. split.
      * apply NoDup_fmap_2; [|apply NoDup_elements]. intros a b H. by injection H.
      * intros c. rewrite list_elem_of_fmap. split.
        -- intros (ch & -> & Hin). exists ch. split; [done|]. exists chans.
           split; [done|]. by apply elem_of_elements.
        -- intros (ch & -> & (s & Hs & Hin)). exists ch. split; [done|].
           rewrite HC in Hs. injection Hs as <-. by apply elem_of_elements.
    + intros Hd. by rewrite Hd.
    + by rewrite lookup_delete_eq.
  - split; [|split; [done|split; [|split]]].
    + intros D ch. split; [|by intros [H _]]. intros (s & Hs & Hin).
      split; [by exists s|]. intros ->. by rewrite HC in Hs.
    + intros _. split; [constructor|]. intros c. split; [by intros H%elem_of_nil|].
      intros (ch & _ & (s & Hs & _)). by rewrite HC in Hs.
    + done.
    + by rewrite HC.
Qed.


(** ** Reactions: what the rings hold *)
Section ReactionRings.
Import ReactionService.

Lemma record_shelved ch r st : filed ch r → shelved st → shelved (record ch r st).
Proof.
  intros Hf Hs c h Hh. unfold record in Hh. cbn [reactionHistory] in Hh.
  destruct (decide (c = ch)) as [->|Hne].
  - rewrite lookup_insert_eq in Hh. injection Hh as <-.
    assert ((length (default [] (reactionHistory st !! ch)) ≤ 50)%nat ∧
            ∀ x, x ∈ default [] (reactionHistory st !! ch) → filed ch x) as [Hlen Hall].
    { destruct (reactionHistory st !! ch) as [h|] eqn:Hh; simpl.
      - destruct (Hs ch h Hh) as [Hl Ha]. split; [lia|done].
      - split; [lia|]. by intros x Hx%elem_of_nil. }
    unfold maxHistorySize.
    destruct (Nat.ltb _ _) eqn:Hlt.
    + apply Nat.ltb_lt in Hlt. rewrite length_app in Hlt. cbn [length] in Hlt.
      split; [rewrite length_drop, length_app; cbn [length]; lia|].
      intros x Hx. apply subseteq_drop in Hx.
      apply elem_of_app in Hx as [Hx|Hx%list_elem_of_singleton]; [by apply Hall|by subst].
    + apply Nat.ltb_ge in Hlt. rewrite length_app in Hlt |- *. cbn [length] in Hlt |- *.
      split; [lia|].
      intros x [Hx|Hx%list_elem_of_singleton]%elem_of_app; [by apply Hall|by subst].
  - rewrite lookup_insert_ne in Hh by done. by apply Hs.
Qed.

Lemma handleSendReaction_shelved C channel emoji position metadata now rnd st :
  shelved st →
  shelved (handleSendReaction C channel emoji position metadata now rnd st).1.
Proof.
  intros Hs. unfold handleSendReaction.
  destruct (missing channel) eqn:Hmc; [done|].
  destruct (missing emoji) eqn:Hme; [done|]. cbn [orb].
  destruct channel as [ch|]; [|done]. destruct emoji as [e|]; [|done].
  default_some.
  destruct (lookupReaction e) as [eff|] eqn:Hl; [|done]. cbn [fst].
  apply record_shelved; [|done]. split; [done|]. split; [|done].
  intros ->. done.
Qed.

Lemma handle_shelved st e : shelved st → shelved (handle st e).
Proof.
  intros Hs. destruct e as [r|c]; cbn [handle].
  - unfold serve, handleAction.
    destruct (String.eqb _ "subscribe").
    { unfold handleSubscribeToReactions. destruct (missing _); [done|].
      by destruct (_ || _). }
    destruct (String.eqb _ "unsubscribe").
    { unfold handleUnsubscribeFromReactions. destruct (missing _); [done|]. cbn [fst].
      by destruct (clientChannels st !! _). }
    destruct (String.eqb _ "send"); [by apply handleSendReaction_shelved|].
    by destruct (String.eqb _ "getAvailable").
  - unfold handleDisconnect. by destruct (clientChannels st !! c).
Qed.

Lemma runEvents_shelved (es : list event) st : shelved st → shelved (runEvents es st).
Proof.
  revert st. induction es as [|e es IH]; intros st Hs; [done|].
  apply IH. by apply handle_shelved.
Qed.

Lemma new_shelved router : shelved (new router).
Proof. intros ch h H. cbn in H. by rewrite lookup_empty in H. Qed.

Lemma inherited_not_inCatalog e : e ∈ Js.inherited → inCatalog e = false.
Proof.
  unfold Js.inherited. intros H.
  repeat (apply elem_of_cons in H as [->|H]; [by vm_compute|]).
  by apply elem_of_nil in H.
Qed.

Lemma inherited_nonempty e : e ∈ Js.inherited → e ≠ "".
Proof.
  unfold Js.inherited. intros H ->.
  repeat (apply elem_of_cons in H as [?|H]; [done|]).
  by apply elem_of_nil in H.
Qed.

Lemma lookupReaction_accepts e :
  is_Some (lookupReaction e) ↔ inCatalog e = true ∨ e ∈ Js.inherited.
Proof.
  unfold lookupReaction, inCatalog.
  destruct (catalog_find e availableReactions) as [[name eff]|] eqn:Hf.
  - split; [by left|by eexists].
  - destruct (bool_decide (e ∈ Js.inherited)) eqn:Hb.
    + apply bool_decide_eq_true in Hb. split; [by right|by eexists].
    + apply bool_decide_eq_false in Hb. split; [by intros [? ?]|]. by intros [?|?].
Qed.

End ReactionRings.

(** X20.  After every sequence of frames and disconnections, whatever the
    mode of the reaction service: every reaction kept in the ring of a
    channel bears that channel, whose name is not empty, has an emoji of
    the catalog or the name of a property every object inherits, and has
    the effect the reaction table gives for the emoji; a channel that has a
    ring has between 1 and 50 reactions in it; and in the statistics the
    total of the reactions is at least the number of active channels and at
    most fifty times that number. *)
Theorem reaction_ring_holds_accepted_reactions
    (router : bool) (es : list ReactionService.event) (ch : string) :
  let st := ReactionService.runEvents es (ReactionService.new router) in
  let s := ReactionService.getStats st in
  (∀ r, r ∈ ring ch st →
        ReactionService.channel r = ch ∧ ch ≠ "" ∧
        (ReactionService.inCatalog (ReactionService.emoji r) = true ∨
         ReactionService.emoji r ∈ Js.inherited) ∧
        ReactionService.lookupReaction (ReactionService.emoji r)
        = Some (ReactionService.effect r)) ∧
  (is_Some (ReactionService.reactionHistory st !! ch) →
   (1 ≤ length (ring ch st) ≤ 50)%nat) ∧
  (ReactionService.activeChannels s ≤ ReactionService.totalReactions s
   ≤ 50 * ReactionService.activeChannels s)%nat.
Proof.
  intros st s.
  pose proof (runEvents_shelved es _ (new_shelved router)) as Ha. fold st in Ha.
  split; [|split].
  - intros r Hr. unfold ring in Hr.
    destruct (ReactionService.reactionHistory st !! ch) as [h|] eqn:Hh;
      [|by apply elem_of_nil in Hr].
    destruct (Ha ch h Hh) as [_ Hs]. destruct (Hs r Hr) as (H1 & H2 & H3).
    split; [done|]. split; [done|]. split; [|done].
    apply lookupReaction_accepts. rewrite H3. by eexists.
  - intros [h Hh]. unfold ring. rewrite Hh. by destruct (Ha ch h Hh).
  - subst s. cbn [ReactionService.getStats ReactionService.activeChannels
                  ReactionService.totalReactions].
    pose proof (total_bounds 50 (map_to_list (ReactionService.reactionHistory st)).*2 0)
      as H.
    rewrite length_fmap, length_map_to_list in H. cbn [Nat.add] in H. apply H.
    intros h Hin. apply list_elem_of_fmap in Hin as ([c h'] & -> & Hin).
    apply elem_of_map_to_list in Hin. by destruct (Ha c h' Hin).
Qed.

(** X21.  A [send] whose emoji is the name of a property every object
    inherits, such as [constructor], is accepted although the catalog does
    not list it: the reaction is stored as the newest entry of the ring of
    the channel, without an effect, and a service built on a router hands
    it to [sendToChannel] and acknowledges it. *)
Theorem reaction_send_accepts_inherited_names
    (st : ReactionService.t) (C ch e : string) (position metadata : Js.value)
    (now : Z) (rnd : string) :
  ch ≠ "" →
  e ∈ Js.inherited →
  let res := ReactionService.handleSendReaction C (Some ch) (Some e) position metadata
               now rnd st in
  let r := ReactionService.mkReaction (ReactionService.generateReactionId now rnd)
             C ch e None (Js.defaulted Js.JNull position)
             (Js.defaulted (Js.JObj []) metadata) now in
  ReactionService.inCatalog e = false ∧
  res.1 = ReactionService.record ch r st ∧
  last (ring ch res.1) = Some r ∧
  (ReactionService.isDistributed st = true →
   res.2 = [SendToChannel ("reactions:" +:+ ch) (ReactionService.ReactionReceived r) None;
            SendToLocalClient C
              (ReactionService.ReactionSent (ReactionService.id r) e ch now)]).
Proof.
  intros Hch He res r. subst res.
  pose proof (inherited_not_inCatalog e He) as Hcat. split; [done|].
  assert (ReactionService.lookupReaction e = Some None) as Hl.
  { unfold ReactionService.lookupReaction, ReactionService.inCatalog in *.
    destruct (ReactionService.catalog_find e _) as [[? ?]|]; [done|].
    by rewrite bool_decide_eq_true_2. }
  unfold ReactionService.handleSendReaction.
  rewrite !missing_Some by (done || by apply inherited_nonempty).
  cbn [orb]. default_some. rewrite Hl. cbn [fst snd]. fold r.
  split; [done|]. split; [apply record_last|].
  intros Hd. unfold ReactionService.sendSuccess, ReactionService.sendToClient.
  cbn [ReactionService.isDistributed ReactionService.record]. by rewrite Hd.
Qed.

Lemma reaction_send_accepts_inherited_names_witness :
  (ReactionService.handleSendReaction "a" (Some "g") (Some "constructor") Js.JUndefined
     Js.JUndefined 5 "x" (ReactionService.new true)).1
  = ReactionService.record "g"
      (ReactionService.mkReaction (ReactionService.generateReactionId 5 "x")
         "a" "g" "constructor" None (Js.defaulted Js.JNull Js.JUndefined)
         (Js.defaulted (Js.JObj []) Js.JUndefined) 5)
      (ReactionService.new true).
Proof.
  destruct (reaction_send_accepts_inherited_names (ReactionService.new true)
              "a" "g" "constructor" Js.JUndefined Js.JUndefined 5 "x")
    as (_ & H & _).
  - discriminate.
  - unfold Js.inherited. apply elem_of_cons. by left.
  - exact H.
Defined.

(** X22.  When a connection ends, the reaction service forgets the client:
    it is subscribed to the reactions of no channel any more, the
    subscriptions of the other clients and the rings stay, a service built
    on a router asks it once for each channel the client was subscribed to
    to unsubscribe it from [reactions:<channel>], a service without a
    router asks nothing, and a second notification finds nothing to do. *)
Theorem reaction_disconnect_forgets_client (st : ReactionService.t) (C : string) :
  let res := ReactionService.handleDisconnect C st in
  (∀ D ch, watching D ch res.1 ↔ watching D ch st ∧ D ≠ C) ∧
  ReactionService.reactionHistory res.1 = ReactionService.reactionHistory st ∧
  (ReactionService.isDistributed st = true →
   NoDup res.2 ∧
   ∀ c, c ∈ res.2 ↔ ∃ ch, c = UnsubscribeFromChannel C ("reactions:" +:+ ch) ∧
                          watching C ch st) ∧
  (ReactionService.isDistributed st = false → res.2 = []) ∧
  ReactionService.handleDisconnect C res.1 = (res.1, []).
Proof.
  cbn zeta. unfold ReactionService.handleDisconnect.
  destruct (ReactionService.clientChannels st !! C) as [chans|] eqn:HC;
    cbn [fst snd ReactionService.clientChannels ReactionService.reactionHistory
         ReactionService.isDistributed].
  - split; [|split; [done|split; [|split]]].
    + intros D ch. unfold watching. cbn. split.
      * intros (s & Hs & Hin). apply lookup_delete_Some in Hs as [Hne Hs].
        split; [by exists s|done].
      * intros [(s & Hs & Hin) Hne]. exists s. by rewrite lookup_delete_ne.
    + intros Hd. rewrite Hd. split.
      * apply NoDup_fmap_2; [|apply NoDup_elements]. intros a b H.
        injection H as H. by apply string_app_inj_l in H.
      * intros c. rewrite list_elem_of_fmap. split.
        -- intros (ch & -> & Hin). exists ch. split; [done|]. exists chans.
           split; [done|]. by apply elem_of_elements.
        -- intros (ch & -> & (s & Hs & Hin)). exists ch. split; [done|].
           rewrite HC in Hs. injection Hs as <-. by apply elem_of_elements.
    + intros Hd. by rewrite Hd.
    + by rewrite lookup_delete_eq.
  - split; [|split; [done|split; [|split]]].
    + intros D ch. split; [|by intros [H _]]. intros (s & Hs & Hin).
      split; [by exists s|]. intros ->. by rewrite HC in Hs.
    + intros _. split; [constructor|]. intros c. split; [by intros H%elem_of_nil|].
      intros (ch & _ & (s & Hs & _)). by rewrite HC in Hs.
    + done.
    + by rewrite HC.
Qed.


(** ** Cursors: what a client leaves on an earlier channel *)
Section LeftBehind.
Import CursorServiceTTL.









End LeftBehind.





(** ** Cursors: the service without a time to live *)
Section Stranded.
Import CursorService.

Lemma onClientDisconnect_stranded C ch cur c now st :
  stranded C ch cur st →
  stranded C ch cur (onClientDisconnect c now st).1 ∧
  (c = C →
   ∀ x, x ∈ (onClientDisconnect c now st).2 →
        ∃ ch', ch' ≠ ch ∧
               x = SendToChannel ("cursor:" +:+ ch') (Remove ch' C now) None).
Proof.
  intros [(m & Hm & HmC) Hcc]. unfold onClientDisconnect.
  destruct (clientCursors st !! c) as [cur0|] eqn:Hc; cbn [fst snd].
  2:{ split; [by split; [exists m|]|]. by intros _ x Hx%elem_of_nil. }
  assert (∀ cur', delete c (clientCursors st) !! C = Some cur' → channel cur' ≠ ch)
    as Hcc'.
  { intros cur' [_ H]%lookup_delete_Some. by apply Hcc. }
  destruct (channelCursors st !! channel cur0) as [m0|] eqn:Hm0; cbn [fst snd].
  2:{ split; [by split; [exists m|]|]. by intros _ x Hx%elem_of_nil. }
  split.
  - split; [|done]. cbn [channelCursors].
    destruct (decide (channel cur0 = ch)) as [He|Hne].
    + assert (c ≠ C) as Hc0 by (intros ->; by apply (Hcc cur0 Hc)).
      rewrite He in *. rewrite Hm in Hm0. injection Hm0 as <-.
      assert (delete c m !! C = Some cur) as Hd by by rewrite lookup_delete_ne.
      destruct (decide (size (delete c m) = 0%nat)) as [Hz|Hnz].
      * apply map_size_empty_inv in Hz. rewrite Hz in Hd. by rewrite lookup_empty in Hd.
      * exists (delete c m). by rewrite lookup_insert_eq.
    + destruct (decide _).
      * rewrite lookup_delete_ne by done. by exists m.
      * rewrite lookup_insert_ne by done. by exists m.
  - intros -> x Hx. unfold broadcastCursorRemoval in Hx. cbn [isDistributed] in Hx.
    destruct (isDistributed st); [|by apply elem_of_nil in Hx].
    apply list_elem_of_singleton in Hx as ->.
    exists (channel cur0). split; [by apply Hcc|done].
Qed.

Lemma handleUpdateCursor_stranded C ch cur c ch0 pos md now st :
  ¬ (c = C ∧ ch0 = Some ch) →
  stranded C ch cur st →
  stranded C ch cur (handleUpdateCursor c ch0 pos md now st).1.
Proof.
  intros Hnr H. unfold handleUpdateCursor.
  destruct (missing ch0) eqn:Hmiss; [done|]. cbn [orb].
  destruct (negb (Js.truthy pos)); [done|].
  destruct (_ || _); [done|].
  unfold shouldUpdateCursor.
  destruct (_ <? _)%Z; [done|]. cbn [fst snd].
  destruct ch0 as [c0|]; [|done]. default_some.
  destruct H as [(m & Hm & HmC) Hcc]. split; cbn.
  - destruct (decide (c0 = ch)) as [->|Hne].
    + assert (c ≠ C) as Hc by (intros ->; by apply Hnr).
      rewrite lookup_insert_eq. eexists. split; [done|].
      rewrite Hm. cbn. by rewrite lookup_insert_ne.
    + rewrite lookup_insert_ne by done. by exists m.
  - intros cur' Hcur'. destruct (decide (c = C)) as [->|Hne].
    + rewrite lookup_insert_eq in Hcur'. injection Hcur' as <-. cbn.
      intros ->. by apply Hnr.
    + rewrite lookup_insert_ne in Hcur' by done. by apply Hcc.
Qed.

Lemma handle_stranded C ch cur e st :
  ¬ revisiting C ch e → stranded C ch cur st → stranded C ch cur (handle st e).
Proof.
  intros Hnr H. destruct e as [c action data now|c now]; cbn [handle].
  - unfold handleAction.
    destruct (String.eqb action "update") eqn:Hu.
    { apply String.eqb_eq in Hu. apply handleUpdateCursor_stranded; [|done].
      intros [-> He]. by apply Hnr. }
    destruct (String.eqb action "subscribe").
    { unfold handleSubscribeCursors. by destruct (missing _). }
    destruct (String.eqb action "unsubscribe").
    { unfold handleUnsubscribeCursors. by destruct (missing _). }
    destruct (String.eqb action "get").
    { unfold handleGetCursors. by destruct (missing _). }
    done.
  - by apply onClientDisconnect_stranded.
Qed.

Lemma runEvents_stranded C ch cur (es : list event) st :
  Forall (λ e, ¬ revisiting C ch e) es →
  stranded C ch cur st → stranded C ch cur (runEvents es st).
Proof.
  revert st. induction es as [|e es IH]; intros st Hes H; [done|].
  apply Forall_cons in Hes as [He Hes]. apply IH; [done|].
  by apply handle_stranded.
Qed.

End Stranded.

(** X25.  In the cursor service the server loads: once the table of a
    channel holds a cursor of a client whose latest cursor is on another
    channel, or who has none any more, the entry stays through every
    sequence of frames and disconnections in which the client sends no
    update for that channel, and the channel goes on listing it; the
    disconnection of the client itself publishes no [remove] event for that
    channel. *)
Theorem cursor_moved_away_is_never_removed
    (st : CursorService.t) (C ch : string) (cur : CursorService.cursorData)
    (es : list CursorService.event) :
  stranded C ch cur st →
  Forall (λ e, ¬ revisiting C ch e) es →
  let st' := CursorService.runEvents es st in
  stranded C ch cur st' ∧
  cur ∈ CursorService.getChannelCursors ch st' ∧
  (∀ now x, x ∈ (CursorService.onClientDisconnect C now st').2 →
            ∃ ch', ch' ≠ ch ∧
                   x = SendToChannel ("cursor:" +:+ ch')
                         (CursorService.Remove ch' C now) None).
Proof.
  intros H Hes st'.
  pose proof (runEvents_stranded C ch cur es st Hes H) as H'. fold st' in H'.
  split; [done|]. split.
  - destruct H' as [(m & Hm & HmC) _]. unfold CursorService.getChannelCursors.
    rewrite Hm. apply list_elem_of_fmap. exists (C, cur). split; [done|].
    by apply elem_of_map_to_list.
  - intros now x Hx.
    destruct (onClientDisconnect_stranded C ch cur C now st' H') as [_ Hcalls].
    by apply Hcalls.
Qed.

Lemma cursor_moved_away_is_never_removed_witness :
  lingering_cursor
  ∈ CursorService.getChannelCursors "a"
      (CursorService.runEvents [CursorService.OnDisconnect "c1" 1050000] cursor_moved_on).
Proof.
  destruct (cursor_moved_away_is_never_removed cursor_moved_on "c1" "a" lingering_cursor
              [CursorService.OnDisconnect "c1" 1050000]) as (_ & H & _).
  - split.
    + eexists. split; vm_compute; reflexivity.
    + intros cur' Hc. vm_compute in Hc. injection Hc as <-. discriminate.
  - repeat constructor; cbn; tauto.
  - exact H.
Defined.


(** ** Presence: the channel tables *)
Section PresenceTables.
Import PresenceService.
Implicit Types tables acc : gmap string (gmap string ref).

Lemma dropFrom_fold C (leaving : string → bool) (l : list (string * gmap string ref)) acc :
  NoDup l.*1 →
  (∀ k m, (k, m) ∈ l → acc !! k = Some m) →
  ∀ ch,
    foldl (λ acc (kv : string * gmap string ref),
             if bool_decide (is_Some (kv.2 !! C)) && leaving kv.1 then
               let m := delete C kv.2 in
               if decide (size m = 0%nat) then delete kv.1 acc else <[kv.1 := m]> acc
             else acc) acc l !! ch
    = if decide (ch ∈ l.*1) then acc !! ch ≫= dropped C (leaving ch) else acc !! ch.
Proof.
  revert acc. induction l as [|[k m] l IH]; intros acc Hnd Hl ch.
  { cbn [foldl]. rewrite decide_False; [done|]. cbn. apply not_elem_of_nil. }
  cbn [fmap list_fmap fst snd foldl] in *. apply NoDup_cons in Hnd as [Hk Hnd].
  pose proof (Hl k m ltac:(by left)) as Hkm.
  set (acc1 := if bool_decide (is_Some (m !! C)) && leaving k
               then let m0 := delete C m in
                    if decide (size m0 = 0%nat) then delete k acc else <[k := m0]> acc
               else acc).
  assert (∀ k', k' ≠ k → acc1 !! k' = acc !! k') as Hother.
  { intros k' Hne. subst acc1. destruct (_ && _); [|done]. cbn zeta.
    destruct (decide _); [by rewrite lookup_delete_ne|by rewrite lookup_insert_ne]. }
  assert (acc1 !! k = dropped C (leaving k) m) as Hself.
  { subst acc1. unfold dropped. destruct (_ && _); [|done]. cbn zeta.
    destruct (decide _); [by rewrite lookup_delete_eq|by rewrite lookup_insert_eq]. }
  rewrite IH; [|done|].
  - destruct (decide (ch = k)) as [->|Hne].
    + rewrite decide_False by done. rewrite decide_True by (by left).
      by rewrite Hself, Hkm.
    + rewrite Hother by done. destruct (decide (ch ∈ l.*1)) as [Hin|Hnin].
      * rewrite decide_True by (by right). done.
      * rewrite decide_False; [done|]. intros [?|?]%elem_of_cons; done.
  - intros k' m' Hin. rewrite Hother; [apply Hl; by right|].
    intros ->. apply Hk. apply list_elem_of_fmap. by exists (k, m').
Qed.

Lemma dropFrom_lookup C leaving tables ch :
  dropFrom C leaving tables !! ch = tables !! ch ≫= dropped C (leaving ch).
Proof.
  unfold dropFrom. rewrite dropFrom_fold.
  - destruct (decide _) as [|Hnin]; [done|].
    destruct (tables !! ch) as [m|] eqn:Hm; [|done].
    exfalso. apply Hnin. apply list_elem_of_fmap. exists (ch, m). split; [done|].
    by apply elem_of_map_to_list.
  - apply NoDup_fst_map_to_list.
  - intros k m Hin. by apply elem_of_map_to_list.
Qed.

Lemma slot_dropFrom C leaving tables ch D :
  slot ch D (dropFrom C leaving tables)
  = if bool_decide (D = C) && leaving ch then None else slot ch D tables.
Proof.
  unfold slot. rewrite dropFrom_lookup.
  destruct (tables !! ch) as [m|] eqn:Hm; cbn; [|by destruct (_ && _)].
  unfold dropped. destruct (leaving ch); rewrite ?andb_false_r, ?andb_true_r; [|done].
  destruct (bool_decide (is_Some (m !! C))) eqn:Hhas.
  - destruct (decide _) as [Hz|Hnz]; cbn.
    + apply map_size_empty_inv in Hz.
      destruct (bool_decide (D = C)) eqn:HD; [done|].
      apply bool_decide_eq_false in HD.
      rewrite <- (lookup_delete_ne m C D) by done. by rewrite Hz, lookup_empty.
    + destruct (bool_decide (D = C)) eqn:HD.
      * apply bool_decide_eq_true in HD as ->. apply lookup_delete_eq.
      * apply bool_decide_eq_false in HD. by rewrite lookup_delete_ne.
  - cbn. apply bool_decide_eq_false in Hhas.
    destruct (bool_decide (D = C)) eqn:HD; [|done].
    apply bool_decide_eq_true in HD as ->.
    destruct (m !! C) eqn:HmC; [|done]. exfalso. apply Hhas. by eexists.
Qed.

Lemma dropFrom_nonempty C leaving tables :
  (∀ ch m, tables !! ch = Some m → m ≠ ∅) →
  ∀ ch m, dropFrom C leaving tables !! ch = Some m → m ≠ ∅.
Proof.
  intros Hne ch m. rewrite dropFrom_lookup.
  destruct (tables !! ch) as [m0|] eqn:Hm0; [|done]. cbn. unfold dropped.
  destruct (_ && _).
  - destruct (decide _) as [|Hnz]; [done|]. intros [= <-] He. apply Hnz.
    rewrite He. apply map_size_empty.
  - intros [= <-]. by apply (Hne ch).
Qed.

Lemma joinChannels_lookup C r (newChannels : list string) tables ch :
  joinChannels C r newChannels tables !! ch
  = if decide (ch ∈ newChannels)
    then Some (<[C := r]> (default ∅ (tables !! ch)))
    else tables !! ch.
Proof.
  unfold joinChannels. revert tables.
  induction newChannels as [|c cs IH]; intros tables; cbn [foldl].
  { rewrite decide_False; [done|]. apply not_elem_of_nil. }
  rewrite IH. destruct (decide (ch = c)) as [->|Hne].
  - rewrite lookup_insert_eq. rewrite (decide_True (P := c ∈ c :: cs)) by (by left).
    destruct (decide (c ∈ cs)); [|done]. cbn. by rewrite insert_insert_eq.
  - rewrite lookup_insert_ne by done.
    destruct (decide (ch ∈ cs)) as [Hin|Hnin].
    + rewrite decide_True by (by right). done.
    + rewrite decide_False; [done|]. intros [?|?]%elem_of_cons; done.
Qed.

Lemma slot_joinChannels C r newChannels tables ch D :
  slot ch D (joinChannels C r newChannels tables)
  = if bool_decide (D = C) && bool_decide (ch ∈ newChannels) then Some r
    else slot ch D tables.
Proof.
  unfold slot. rewrite joinChannels_lookup.
  destruct (decide (ch ∈ newChannels)) as [Hin|Hnin].
  - rewrite (bool_decide_eq_true_2 _ Hin), andb_true_r. cbn.
    destruct (bool_decide (D = C)) eqn:HD.
    + apply bool_decide_eq_true in HD as ->. apply lookup_insert_eq.
    + apply bool_decide_eq_false in HD. rewrite lookup_insert_ne by done.
      destruct (tables !! ch); [done|]. cbn. apply lookup_empty.
  - by rewrite (bool_decide_eq_false_2 _ Hnin), andb_false_r.
Qed.

Lemma joinChannels_nonempty C r newChannels tables :
  (∀ ch m, tables !! ch = Some m → m ≠ ∅) →
  ∀ ch m, joinChannels C r newChannels tables !! ch = Some m → m ≠ ∅.
Proof.
  intros Hne ch m. rewrite joinChannels_lookup. destruct (decide _).
  - intros [= <-]. apply insert_non_empty.
  - apply Hne.
Qed.

Lemma slot_updateChannelPresence C r newChannels st ch D :
  slot ch D (channelPresence (updateChannelPresence C r newChannels st))
  = if bool_decide (D = C)
    then (if bool_decide (ch ∈ newChannels) then Some r else None)
    else slot ch D (channelPresence st).
Proof.
  unfold updateChannelPresence. cbn [channelPresence].
  rewrite slot_joinChannels, slot_dropFrom.
  destruct (bool_decide (D = C)); [|done]. cbn.
  by destruct (bool_decide (ch ∈ newChannels)).
Qed.

Lemma updateChannelPresence_nonempty C r newChannels st :
  (∀ ch m, channelPresence st !! ch = Some m → m ≠ ∅) →
  ∀ ch m, channelPresence (updateChannelPresence C r newChannels st) !! ch = Some m →
          m ≠ ∅.
Proof.
  intros Hne. unfold updateChannelPresence. cbn [channelPresence].
  by apply joinChannels_nonempty, dropFrom_nonempty.
Qed.

End PresenceTables.


(** ** Presence: the tables agree *)
Section PresenceCoherent.
Import PresenceService.

(** Filing the record [p] of a client under the reference [r], which no
    other client uses, and under the channels of the record. *)
Lemma coherent_file C r p a st :
  coherent st →
  clientId p = C → status p ∈ validStatuses →
  (allocated st ≤ a)%nat → (r < a)%nat →
  (∀ D r', clientPresence st !! D = Some r' → D ≠ C → r' ≠ r) →
  coherent
    (updateChannelPresence C r (channels p)
       (mk (<[r := p]> (heap st)) a (<[C := r]> (clientPresence st))
           (channelPresence st) (timers st) (nodeManager st) (isDistributed st))).
Proof.
  intros (Hh & Hc & Hn & Hs) HpC Hps Ha Hr Hfree.
  split; [|split; [|split]].
  - intros x [q Hq]. cbn in Hq |- *.
    destruct (decide (x = r)) as [->|Hne]; [done|].
    rewrite lookup_insert_ne in Hq by done.
    pose proof (Hh x ltac:(by eexists)). lia.
  - intros D x HD. cbn in HD |- *.
    destruct (decide (D = C)) as [->|Hne].
    + rewrite lookup_insert_eq in HD. injection HD as <-.
      exists p. by rewrite lookup_insert_eq.
    + rewrite lookup_insert_ne in HD by done.
      destruct (Hc D x HD) as (q & Hq & HqD & Hqs).
      exists q. rewrite lookup_insert_ne; [done|].
      intros <-. by apply (Hfree D r).
  - apply updateChannelPresence_nonempty. cbn. apply Hn.
  - intros ch D x. rewrite slot_updateChannelPresence.
    cbn [channelPresence clientPresence heap updateChannelPresence].
    destruct (bool_decide (D = C)) eqn:HD.
    + apply bool_decide_eq_true in HD as ->. rewrite lookup_insert_eq.
      destruct (bool_decide (ch ∈ channels p)) eqn:Hch.
      * apply bool_decide_eq_true in Hch. split.
        -- intros [= <-]. split; [done|]. exists p. by rewrite lookup_insert_eq.
        -- by intros [[= <-] _].
      * apply bool_decide_eq_false in Hch. split; [done|].
        intros [[= <-] (q & Hq & Hin)]. rewrite lookup_insert_eq in Hq.
        injection Hq as <-. done.
    + apply bool_decide_eq_false in HD. rewrite lookup_insert_ne by done.
      rewrite Hs. split.
      * intros [HDx (q & Hq & Hin)]. split; [done|]. exists q.
        rewrite lookup_insert_ne; [done|]. intros <-. by apply (Hfree D r).
      * intros [HDx (q & Hq & Hin)]. split; [done|]. exists q.
        rewrite lookup_insert_ne in Hq; [done|]. intros <-. by apply (Hfree D r).
Qed.

Lemma coherent_others C r st :
  coherent st → clientPresence st !! C = Some r →
  ∀ D r', clientPresence st !! D = Some r' → D ≠ C → r' ≠ r.
Proof.
  intros (_ & Hc & _) HC D r' HD Hne ->.
  destruct (Hc C r HC) as (q & Hq & HqC & _).
  destruct (Hc D r HD) as (q' & Hq' & HqD & _). congruence.
Qed.

Lemma handleSetPresence_coherent C status metadata channels now st :
  coherent st → coherent (handleSetPresence C status metadata channels now st).1.
Proof.
  intros Hco. unfold handleSetPresence.
  destruct (missing status); [done|].
  destruct (bool_decide _) eqn:Hv; [|done]. apply bool_decide_eq_true in Hv.
  cbn [negb fst].
  apply (coherent_file C (allocated st)
           (mkPresence C (default "" status) (Js.defaulted (Js.JObj []) metadata)
              (default [] channels) (default "local" (nodeManager st)) now now)
           (S (allocated st)) st); [done|done|done|lia|lia|].
  intros D r' HD _. destruct Hco as (Hh & Hc & _).
  destruct (Hc D r' HD) as (q & Hq & _).
  pose proof (Hh r' ltac:(by eexists)). lia.
Qed.

Lemma setClientOffline_coherent C now st :
  coherent st → coherent (setClientOffline C now st).1.
Proof.
  intros Hco. unfold setClientOffline, deref.
  destruct (clientPresence st !! C) as [r|] eqn:HC; [|done].
  destruct (heap st !! r) as [p|] eqn:Hp; [|done].
  destruct (negb _); [|done]. cbn [fst].
  pose proof Hco as (Hh & Hc & _).
  destruct (Hc C r HC) as (q & Hq & HqC & Hqs).
  rewrite Hp in Hq. injection Hq as <-.
  rewrite <- (insert_id (clientPresence st) C r HC) at 1.
  apply (coherent_file C r (markOffline now p) (allocated st) st);
    [done|done| |lia| |].
  - cbn. unfold validStatuses. set_solver.
  - apply Hh. by eexists.
  - by apply (coherent_others C r).
Qed.

Lemma handleHeartbeat_coherent C now st :
  coherent st → coherent (handleHeartbeat C now st).1.
Proof.
  intros (Hh & Hc & Hn & Hs). unfold handleHeartbeat.
  destruct (clientPresence st !! C) as [r|] eqn:HC; [|done]. cbn [fst].
  assert (∀ x q, alter (touch now) r (heap st) !! x = Some q →
                 ∃ q0, heap st !! x = Some q0 ∧ clientId q = clientId q0 ∧
                       status q = status q0 ∧ channels q = channels q0) as Hold.
  { intros x q. destruct (decide (x = r)) as [->|Hne].
    - rewrite lookup_alter_eq. destruct (heap st !! r) as [q0|]; [|done].
      intros [= <-]. by exists q0.
    - rewrite lookup_alter_ne by done. intros Hq. by exists q. }
  assert (∀ x q0, heap st !! x = Some q0 →
                  ∃ q, alter (touch now) r (heap st) !! x = Some q ∧
                       clientId q = clientId q0 ∧ status q = status q0 ∧
                       channels q = channels q0) as Hnew.
  { intros x q0 Hq0. destruct (decide (x = r)) as [->|Hne].
    - rewrite lookup_alter_eq, Hq0. by eexists.
    - rewrite lookup_alter_ne by done. by exists q0. }
  split; [|split; [|split]]; cbn.
  - intros x [q Hq]. destruct (Hold x q Hq) as (q0 & Hq0 & _). apply Hh. by eexists.
  - intros D x HD. destruct (Hc D x HD) as (q0 & Hq0 & HqD & Hqs).
    destruct (Hnew x q0 Hq0) as (q & Hq & H1 & H2 & H3).
    exists q. by rewrite H1, H2.
  - done.
  - intros ch D x. rewrite Hs. split.
    + intros [HD (q0 & Hq0 & Hin)]. split; [done|].
      destruct (Hnew x q0 Hq0) as (q & Hq & H1 & H2 & H3). exists q. by rewrite H3.
    + intros [HD (q & Hq & Hin)]. split; [done|].
      destruct (Hold x q Hq) as (q0 & Hq0 & H1 & H2 & H3). exists q0. by rewrite <- H3.
Qed.

Lemma forget_coherent C st : coherent st → coherent (forget C st).
Proof.
  intros (Hh & Hc & Hn & Hs). unfold forget.
  split; [|split; [|split]]; cbn.
  - done.
  - intros D x [_ HD]%lookup_delete_Some. by apply Hc.
  - by apply dropFrom_nonempty.
  - intros ch D x. rewrite slot_dropFrom, andb_true_r.
    destruct (bool_decide (D = C)) eqn:HD.
    + apply bool_decide_eq_true in HD as ->. rewrite lookup_delete_eq.
      split; [done|by intros [? _]].
    + apply bool_decide_eq_false in HD. by rewrite lookup_delete_ne.
Qed.

Lemma onTimeout_coherent st : coherent st → coherent (onTimeout st).
Proof.
  intros Hco. unfold onTimeout. destruct (timers st) as [|c rest]; [done|].
  by apply forget_coherent.
Qed.

Lemma onClientDisconnect_coherent C now st :
  coherent st → coherent (onClientDisconnect C now st).1.
Proof.
  intros Hco. unfold onClientDisconnect.
  destruct (clientPresence st !! C); [|done].
  pose proof (setClientOffline_coherent C now st Hco) as H.
  by destruct (setClientOffline C now st).
Qed.

Lemma offline_all_coherent now (l : list string) st acc :
  coherent st →
  coherent (foldl (λ (a : t * list (call msg)) clientId,
                     let '(s, calls) := setClientOffline clientId now a.1 in
                     (s, a.2 ++ calls)) (st, acc) l).1.
Proof.
  revert st acc. induction l as [|c l IH]; intros st acc Hco; [done|].
  cbn [foldl fst snd].
  pose proof (setClientOffline_coherent c now st Hco) as H.
  destruct (setClientOffline c now st) as [st1 calls]. by apply IH.
Qed.

Lemma handleAction_coherent C action data now st :
  coherent st → coherent (handleAction C action data now st).1.
Proof.
  intros Hco. unfold handleAction.
  destruct (String.eqb action "set"); [by apply handleSetPresence_coherent|].
  destruct (String.eqb action "get").
  { unfold handleGetPresence. destruct (negb _).
    - by destruct (_ ≫= _).
    - by destruct (negb _). }
  destruct (String.eqb action "subscribe").
  { unfold handleSubscribePresence. by destruct (missing _). }
  destruct (String.eqb action "unsubscribe").
  { unfold handleUnsubscribePresence. by destruct (missing _). }
  destruct (String.eqb action "heartbeat"); [by apply handleHeartbeat_coherent|].
  done.
Qed.

Lemma handle_coherent st e : coherent st → coherent (handle st e).
Proof.
  intros Hco. destruct e; cbn [handle].
  - by apply handleAction_coherent.
  - by apply handleSetPresence_coherent.
  - by apply onClientDisconnect_coherent.
  - by apply onTimeout_coherent.
  - by apply offline_all_coherent.
Qed.

Lemma runEvents_coherent (es : list event) st :
  coherent st → coherent (runEvents es st).
Proof.
  revert st. induction es as [|e es IH]; intros st Hco; [done|].
  apply IH. by apply handle_coherent.
Qed.

Lemma new_coherent router nm : coherent (new router nm).
Proof.
  split; [|split; [|split]]; cbn.
  - intros r [p Hp]. by rewrite lookup_empty in Hp.
  - intros C r H. by rewrite lookup_empty in H.
  - intros ch m H. by rewrite lookup_empty in H.
  - intros ch C r. unfold slot. rewrite !lookup_empty. cbn. split; [done|by intros [? _]].
Qed.

Lemma elem_of_getChannelPresence ch p st :
  p ∈ getChannelPresence ch st ↔ ∃ C, shown C p ch st.
Proof.
  unfold getChannelPresence, shown, slot.
  destruct (channelPresence st !! ch) as [m|] eqn:Hm; cbn.
  - rewrite list_elem_of_omap. split.
    + intros (r & Hin & Hr). apply list_elem_of_fmap in Hin as ([C r'] & -> & Hin).
      apply elem_of_map_to_list in Hin. exists C, r'. done.
    + intros (C & r & HC & Hr). exists r. split; [|done].
      apply list_elem_of_fmap. exists (C, r). split; [done|].
      by apply elem_of_map_to_list.
  - split; [by intros H%elem_of_nil|]. by intros (C & r & ? & _).
Qed.

End PresenceCoherent.

(** X26.  After every sequence of frames, connections, disconnections,
    delayed clean-ups and heartbeat sweeps, whatever the mode of the
    presence service: the table of a channel shows a record for a client
    exactly when it is the record the client table holds for the client and
    the channels of the record include the channel, so that a channel lists
    the latest heartbeat and status of its clients; the record of a client
    bears its identifier and one of the four statuses; and no channel table
    is empty. *)
Theorem presence_tables_agree
    (router : bool) (nm : option string) (es : list PresenceService.event) :
  let st := PresenceService.runEvents es (PresenceService.new router nm) in
  (∀ C p ch, shown C p ch st ↔ recorded C p st ∧ ch ∈ PresenceService.channels p) ∧
  (∀ ch p, p ∈ PresenceService.getChannelPresence ch st ↔
           ∃ C, recorded C p st ∧ ch ∈ PresenceService.channels p) ∧
  (∀ C p, recorded C p st →
          PresenceService.clientId p = C ∧
          PresenceService.status p ∈ PresenceService.validStatuses) ∧
  (∀ ch, is_Some (PresenceService.channelPresence st !! ch) →
         PresenceService.getChannelPresence ch st ≠ []).
Proof.
  intros st.
  pose proof (runEvents_coherent es _ (new_coherent router nm)) as Hco. fold st in Hco.
  destruct Hco as (Hh & Hc & Hn & Hs).
  assert (∀ C p ch, shown C p ch st ↔
                    recorded C p st ∧ ch ∈ PresenceService.channels p) as Hshown.
  { intros C p ch. unfold shown, recorded. split.
    - intros (r & Hr & Hp). apply Hs in Hr as [HC (q & Hq & Hin)].
      rewrite Hp in Hq. injection Hq as <-. split; [by exists r|done].
    - intros [(r & HC & Hp) Hin]. exists r. split; [|done]. apply Hs.
      split; [done|]. by exists p. }
  split; [done|]. split; [|split].
  - intros ch p. rewrite elem_of_getChannelPresence. split.
    + intros [C H]. exists C. by apply Hshown.
    + intros [C H]. exists C. by apply Hshown.
  - intros C p (r & HC & Hp). destruct (Hc C r HC) as (q & Hq & H1 & H2).
    rewrite Hp in Hq. by injection Hq as <-.
  - intros ch [m Hm] Hnil. pose proof (Hn ch m Hm) as Hne.
    destruct (map_choose m Hne) as (C & r & HCr).
    assert (slot ch C (PresenceService.channelPresence st) = Some r) as Hslot
      by (unfold slot; by rewrite Hm).
    apply Hs in Hslot as [HC (q & Hq & Hin)].
    assert (q ∈ PresenceService.getChannelPresence ch st) as Hel.
    { apply elem_of_getChannelPresence. exists C, r. split; [|done].
      unfold slot. by rewrite Hm. }
    rewrite Hnil in Hel. by apply elem_of_nil in Hel.
Qed.


(** ** Presence: the offline mark and the sweep *)
Section PresenceSweep.
Import PresenceService.

Lemma handle_config st e :
  nodeManager (handle st e) = nodeManager st ∧
  isDistributed (handle st e) = isDistributed st.
Proof.
  assert (∀ C now s, nodeManager (setClientOffline C now s).1 = nodeManager s ∧
                     isDistributed (setClientOffline C now s).1 = isDistributed s) as Hoff.
  { intros C now s. unfold setClientOffline.
    destruct (clientPresence s !! C); [|done]. destruct (deref s _); [|done].
    by destruct (negb _). }
  assert (∀ C status md cs now s,
            nodeManager (handleSetPresence C status md cs now s).1 = nodeManager s ∧
            isDistributed (handleSetPresence C status md cs now s).1 = isDistributed s)
    as Hset.
  { intros C status md cs now s. unfold handleSetPresence.
    destruct (missing _); [done|]. by destruct (negb _). }
  destruct e as [c action data now|c now|c now| |now]; cbn [handle].
  - unfold handleAction.
    destruct (String.eqb action "set"); [apply Hset|].
    destruct (String.eqb action "get").
    { unfold handleGetPresence. destruct (negb _).
      - by destruct (_ ≫= _).
      - by destruct (negb _). }
    destruct (String.eqb action "subscribe").
    { unfold handleSubscribePresence. by destruct (missing _). }
    destruct (String.eqb action "unsubscribe").
    { unfold handleUnsubscribePresence. by destruct (missing _). }
    destruct (String.eqb action "heartbeat"); [|done].
    unfold handleHeartbeat. by destruct (clientPresence st !! _).
  - apply Hset.
  - unfold onClientDisconnect. destruct (clientPresence st !! _); [|done].
    pose proof (Hoff c now st) as H.
    by destruct (setClientOffline c now st).
  - unfold onTimeout. by destruct (timers st).
  - unfold cleanupStalePresence. generalize (@nil (call msg)).
    generalize (staleClients now st). intros l. 
    assert (∀ s acc, 
              nodeManager (foldl (λ (a : t * list (call msg)) clientId,
                     let '(s, calls) := setClientOffline clientId now a.1 in
                     (s, a.2 ++ calls)) (s, acc) l).1 = nodeManager s ∧
              isDistributed (foldl (λ (a : t * list (call msg)) clientId,
                     let '(s, calls) := setClientOffline clientId now a.1 in
                     (s, a.2 ++ calls)) (s, acc) l).1 = isDistributed s) as Hfold.
    { induction l as [|c l IH]; intros s acc; [done|]. cbn [foldl fst snd].
      pose proof (Hoff c now s) as [H1 H2].
      destruct (setClientOffline c now s) as [s1 calls]. cbn [fst] in *.
      destruct (IH s1 (acc ++ calls)) as [H3 H4]. split; congruence. }
    intros acc. apply Hfold.
Qed.

Lemma runEvents_config (es : list event) st :
  nodeManager (runEvents es st) = nodeManager st ∧
  isDistributed (runEvents es st) = isDistributed st.
Proof.
  revert st. induction es as [|e es IH]; intros st; [done|].
  cbn [runEvents foldl]. destruct (IH (handle st e)) as [H1 H2].
  destruct (handle_config st e) as [H3 H4]. unfold runEvents in *. split; congruence.
Qed.

(** Filing a record again under its own channels changes no table. *)
Lemma updateChannelPresence_same C r p (h : gmap ref presenceData) st :
  coherent st →
  clientPresence st !! C = Some r → heap st !! r = Some p →
  channelPresence
    (updateChannelPresence C r (channels p)
       (mk h (allocated st) (clientPresence st) (channelPresence st) (timers st)
           (nodeManager st) (isDistributed st)))
  = channelPresence st.
Proof.
  intros (Hh & Hc & Hn & Hs) HC Hp. unfold updateChannelPresence.
  cbn [channelPresence]. apply map_eq. intros ch.
  rewrite joinChannels_lookup, dropFrom_lookup. cbn beta.
  destruct (decide (ch ∈ channels p)) as [Hin|Hnin].
  - rewrite (bool_decide_eq_true_2 _ Hin). cbn [negb].
    assert (slot ch C (channelPresence st) = Some r) as Hslot.
    { apply Hs. split; [done|]. by exists p. }
    unfold slot in Hslot. destruct (channelPresence st !! ch) as [m|]; [|done].
    cbn in Hslot |- *. unfold dropped. rewrite andb_false_r. cbn.
    by rewrite insert_id.
  - destruct (channelPresence st !! ch) as [m|] eqn:Hm; [|done]. cbn.
    unfold dropped. destruct (bool_decide (is_Some (m !! C))) eqn:Hhas; [|done].
    apply bool_decide_eq_true in Hhas as [x Hx]. exfalso.
    assert (slot ch C (channelPresence st) = Some x) as Hslot
      by (unfold slot; by rewrite Hm).
    apply Hs in Hslot as [HCx (q & Hq & Hin)].
    rewrite HC in HCx. injection HCx as <-. rewrite Hp in Hq. by injection Hq as <-.
Qed.

Lemma setClientOffline_spec C r p now st :
  coherent st →
  clientPresence st !! C = Some r → heap st !! r = Some p →
  setClientOffline C now st
  = (mk (<[r := offlined now p]> (heap st)) (allocated st) (clientPresence st)
        (channelPresence st) (timers st) (nodeManager st) (isDistributed st),
     if String.eqb (status p) "offline" then []
     else broadcastPresenceUpdate (markOffline now p) now st).
Proof.
  intros Hco HC Hp. unfold setClientOffline, deref, offlined. rewrite HC, Hp.
  destruct (String.eqb (status p) "offline") eqn:Hoff; cbn [negb].
  - rewrite insert_id by done. by destruct st.
  - pose proof (updateChannelPresence_same C r p
                  (<[r := markOffline now p]> (heap st)) st Hco HC Hp) as Hsame.
    unfold updateChannelPresence in *.
    cbn [channelPresence heap allocated clientPresence timers nodeManager
         isDistributed markOffline channels fst snd] in Hsame |- *.
    by rewrite Hsame.
Qed.

Lemma setClientOffline_absent C now st :
  clientPresence st !! C = None → setClientOffline C now st = (st, []).
Proof. intros HC. unfold setClientOffline. by rewrite HC. Qed.

(** The calls of [setClientOffline] depend on the record of the client
    only. *)
Lemma setClientOffline_calls C now st st' :
  isDistributed st' = isDistributed st →
  clientPresence st' !! C = clientPresence st !! C →
  (∀ r, clientPresence st !! C = Some r → heap st' !! r = heap st !! r) →
  coherent st → coherent st' →
  (setClientOffline C now st').2 = (setClientOffline C now st).2.
Proof.
  intros Hd Hcp Hheap Hco Hco'.
  destruct (clientPresence st !! C) as [r|] eqn:HC.
  - pose proof Hco as (_ & Hc & _). destruct (Hc C r HC) as (p & Hp & _).
    rewrite (setClientOffline_spec C r p now st Hco HC Hp).
    rewrite (setClientOffline_spec C r p now st' Hco' Hcp); [|by rewrite Hheap].
    cbn [snd]. unfold broadcastPresenceUpdate. by rewrite Hd.
  - rewrite !setClientOffline_absent by done. done.
Qed.

(** Marking the clients of a list without repetition offline. *)
Lemma offline_all_spec now (l : list string) st acc :
  coherent st → NoDup l →
  let res := foldl (λ (a : t * list (call msg)) clientId,
                      let '(s, calls) := setClientOffline clientId now a.1 in
                      (s, a.2 ++ calls)) (st, acc) l in
  coherent res.1 ∧
  clientPresence res.1 = clientPresence st ∧
  channelPresence res.1 = channelPresence st ∧
  timers res.1 = timers st ∧ isDistributed res.1 = isDistributed st ∧
  (∀ C r, clientPresence st !! C = Some r →
          heap res.1 !! r
          = if decide (C ∈ l) then offlined now <$> heap st !! r else heap st !! r) ∧
  res.2 = acc ++ flat_map (λ C, (setClientOffline C now st).2) l.
Proof.
  revert st acc. induction l as [|c l IH]; intros st acc Hco Hnd; cbn zeta.
  { cbn [foldl fst snd flat_map]. rewrite app_nil_r.
    do 5 (split; [done|]). split; [|done].
    intros C r _. rewrite decide_False; [done|]. apply not_elem_of_nil. }
  apply NoDup_cons in Hnd as [Hc Hnd]. cbn [foldl fst snd flat_map].
  pose proof (setClientOffline_coherent c now st Hco) as Hco1.
  assert (clientPresence (setClientOffline c now st).1 = clientPresence st ∧
          channelPresence (setClientOffline c now st).1 = channelPresence st ∧
          timers (setClientOffline c now st).1 = timers st ∧
          isDistributed (setClientOffline c now st).1 = isDistributed st ∧
          ∀ C r, clientPresence st !! C = Some r →
                 heap (setClientOffline c now st).1 !! r
                 = if decide (C = c) then offlined now <$> heap st !! r
                   else heap st !! r) as (E1 & E2 & E3 & E4 & E5).
  { destruct (clientPresence st !! c) as [rc|] eqn:Hrc.
    - pose proof Hco as (_ & Hcc & _). destruct (Hcc c rc Hrc) as (pc & Hpc & _).
      rewrite (setClientOffline_spec c rc pc now st Hco Hrc Hpc).
      cbn [fst clientPresence channelPresence timers isDistributed heap].
      do 4 (split; [done|]). intros C r HC.
      destruct (decide (C = c)) as [->|Hne].
      + rewrite Hrc in HC. injection HC as <-. by rewrite lookup_insert_eq, Hpc.
      + rewrite lookup_insert_ne; [done|].
        intros <-. by apply (coherent_others c rc st Hco Hrc C rc).
    - rewrite setClientOffline_absent by done. cbn [fst].
      do 4 (split; [done|]). intros C r HC.
      destruct (decide (C = c)) as [->|Hne]; [congruence|done]. }
  destruct (setClientOffline c now st) as [st1 calls1] eqn:Hst1. cbn [fst snd] in *.
  destruct (IH st1 (acc ++ calls1) Hco1 Hnd) as (I0 & I1 & I2 & I3 & I4 & I5 & I6).
  split; [done|]. split; [congruence|]. split; [congruence|]. split; [congruence|].
  split; [congruence|]. split.
  - intros C r HC. rewrite (I5 C r) by (by rewrite E1). rewrite (E5 C r HC).
    destruct (decide (C = c)) as [->|Hne].
    + rewrite decide_False by done. rewrite decide_True by (by left). done.
    + destruct (decide (C ∈ l)) as [Hin|Hnin].
      * rewrite decide_True by (by right). done.
      * rewrite decide_False; [done|]. intros [?|?]%elem_of_cons; done.
  - rewrite I6, <- app_assoc. f_equal. f_equal.
    assert (∀ l', (∀ C, C ∈ l' → C ≠ c) →
                  flat_map (λ C, (setClientOffline C now st1).2) l'
                  = flat_map (λ C, (setClientOffline C now st).2) l') as Hsame.
    { induction l' as [|C l' IHl]; intros Hl'; [done|]. cbn [flat_map].
      rewrite IHl by (intros D HD; apply Hl'; by right). f_equal.
      apply setClientOffline_calls; [done|by rewrite E1| |done|done].
      intros r HC. rewrite (E5 C r HC). rewrite decide_False; [done|].
      apply Hl'. by left. }
    apply Hsame. intros C HC ->. done.
Qed.

Lemma staleClients_NoDup now st : NoDup (staleClients now st).
Proof.
  unfold staleClients. apply NoDup_fmap_fst.
  - intros C c1 c2 [_ H1%elem_of_map_to_list]%list_elem_of_filter
                   [_ H2%elem_of_map_to_list]%list_elem_of_filter.
    congruence.
  - apply NoDup_filter, NoDup_map_to_list.
Qed.

Lemma elem_of_staleClients C now st :
  C ∈ staleClients now st ↔
  ∃ r, clientPresence st !! C = Some r ∧ stale now st r = true.
Proof.
  unfold staleClients. rewrite list_elem_of_fmap. split.
  - intros ([C' r] & -> & [Hs Hin%elem_of_map_to_list]%list_elem_of_filter).
    by exists r.
  - intros (r & HC & Hs). exists (C, r). split; [done|].
    apply list_elem_of_filter. split; [done|]. by apply elem_of_map_to_list.
Qed.

(** What a sweep does to a state whose tables agree. *)
Lemma cleanupStalePresence_spec now st :
  coherent st →
  let res := cleanupStalePresence now st in
  coherent res.1 ∧
  clientPresence res.1 = clientPresence st ∧
  channelPresence res.1 = channelPresence st ∧
  timers res.1 = timers st ∧ isDistributed res.1 = isDistributed st ∧
  (∀ C p, recorded C p st →
          recorded C (if expired now p then offlined now p else p) res.1) ∧
  res.2 = flat_map (λ C, (setClientOffline C now st).2) (staleClients now st).
Proof.
  intros Hco. cbn zeta. unfold cleanupStalePresence.
  destruct (offline_all_spec now (staleClients now st) st [] Hco
              (staleClients_NoDup now st)) as (H0 & H1 & H2 & H3 & H4 & H5 & H6).
  do 5 (split; [done|]). split; [|done].
  intros C p (r & HC & Hp). exists r. split; [by rewrite H1|].
  rewrite (H5 C r HC), Hp. unfold expired.
  destruct (decide (C ∈ staleClients now st)) as [Hin|Hnin].
  - apply elem_of_staleClients in Hin as (r' & HC' & Hs).
    rewrite HC in HC'. injection HC' as <-. unfold stale, deref in Hs.
    rewrite Hp in Hs. by rewrite Hs.
  - destruct (_ <? _)%Z eqn:Hlt; [|done]. exfalso. apply Hnin.
    apply elem_of_staleClients. exists r. split; [done|].
    unfold stale, deref. by rewrite Hp.
Qed.

End PresenceSweep.


(** ** Presence: what the handlers send *)
Section PresenceCalls.
Import PresenceService.

Lemma broadcastPresenceUpdate_distributed p now st :
  isDistributed st = true →
  broadcastPresenceUpdate p now st
  = (λ ch, SendToChannel ("presence:" +:+ ch) (Update p now) (Some (clientId p)))
    <$> channels p.
Proof.
  intros Hd. unfold broadcastPresenceUpdate. rewrite Hd.
  induction (channels p) as [|ch l IH]; [done|]. cbn. by rewrite IH.
Qed.

Lemma broadcastPresenceUpdate_local p now st :
  isDistributed st = false → broadcastPresenceUpdate p now st = [].
Proof.
  intros Hd. unfold broadcastPresenceUpdate. rewrite Hd.
  induction (channels p) as [|ch l IH]; [done|]. cbn. by rewrite IH.
Qed.

Lemma validStatuses_nonempty s : s ∈ validStatuses → s ≠ "".
Proof.
  unfold validStatuses. intros H ->.
  repeat (apply elem_of_cons in H as [?|H]; [done|]). by apply elem_of_nil in H.
Qed.




Lemma forget_spec C st :
  coherent st →
  (∀ q, ¬ recorded C q (forget C st)) ∧
  (∀ ch q, ¬ shown C q ch (forget C st)) ∧
  (∀ D q, D ≠ C →
          (recorded D q (forget C st) ↔ recorded D q st) ∧
          ∀ ch, shown D q ch (forget C st) ↔ shown D q ch st).
Proof.
  intros Hco. unfold forget, recorded, shown. cbn.
  split; [|split].
  - intros q (r & Hr & _). by rewrite lookup_delete_eq in Hr.
  - intros ch q (r & Hr & _). rewrite slot_dropFrom in Hr.
    by rewrite bool_decide_eq_true_2 in Hr.
  - intros D q Hne. split.
    + by rewrite lookup_delete_ne.
    + intros ch. rewrite slot_dropFrom. by rewrite bool_decide_eq_false_2.
Qed.

End PresenceCalls.

(** X27.  After every sequence of events of the presence service, a [set]
    with one of the four statuses gives the client a new record, with that
    status and the channels of the frame and with the instant of the call
    as its time stamp and last sighting: the tables of exactly these
    channels show the record for the client, the records of the other
    clients and what the tables show for them stay, and a service built on
    a router publishes one update for each channel of the frame, on
    [presence:<channel>] and excluding the client, and then acknowledges
    the [set]; a service without a router sends nothing. *)
Theorem presence_set_files_client
    (router : bool) (nm : option string) (es : list PresenceService.event)
    (C s : string) (md : Js.value) (cs : option (list string)) (now : Z) :
  let st := PresenceService.runEvents es (PresenceService.new router nm) in
  s ∈ PresenceService.validStatuses →
  let p := PresenceService.mkPresence C s (Js.defaulted (Js.JObj []) md)
             (default [] cs) (default "local" nm) now now in
  let res := PresenceService.handleSetPresence C (Some s) md cs now st in
  recorded C p res.1 ∧
  (∀ ch q, shown C q ch res.1 ↔ q = p ∧ ch ∈ default [] cs) ∧
  (∀ D q, D ≠ C →
          (recorded D q res.1 ↔ recorded D q st) ∧
          ∀ ch, shown D q ch res.1 ↔ shown D q ch st) ∧
  res.2 = (if router
           then ((λ ch, SendToChannel ("presence:" +:+ ch)
                          (PresenceService.Update p now) (Some C)) <$> default [] cs)
                ++ [SendToClient C (PresenceService.SetAck p now)]
           else []).
Proof.
  intros st Hs p res.
  pose proof (runEvents_coherent es _ (new_coherent router nm)) as Hco.
  destruct (runEvents_config es (PresenceService.new router nm)) as [Hnm Hd].
  fold st in Hco, Hnm, Hd. cbn in Hnm, Hd.
  subst res. unfold PresenceService.handleSetPresence.
  rewrite missing_Some by (by apply validStatuses_nonempty).
  default_some. rewrite (bool_decide_eq_true_2 _ Hs). cbn [negb fst snd].
  rewrite Hnm. fold p.
  destruct Hco as (Hh & Hc & Hn & Hsl).
  assert (∀ x, is_Some (PresenceService.heap st !! x) →
               <[PresenceService.allocated st := p]> (PresenceService.heap st) !! x
               = PresenceService.heap st !! x) as Hold.
  { intros x Hx. rewrite lookup_insert_ne; [done|].
    intros <-. pose proof (Hh _ Hx). lia. }
  split; [|split; [|split]].
  - exists (PresenceService.allocated st). cbn. by rewrite !lookup_insert_eq.
  - intros ch q. unfold shown. rewrite slot_updateChannelPresence.
    rewrite bool_decide_eq_true_2 by done. cbn. split.
    + intros (r & Hr & Hq). destruct (bool_decide (ch ∈ default [] cs)) eqn:Hch; [|done].
      apply bool_decide_eq_true in Hch. injection Hr as <-.
      rewrite lookup_insert_eq in Hq. by injection Hq as <-.
    + intros [-> Hch]. exists (PresenceService.allocated st).
      rewrite (bool_decide_eq_true_2 _ Hch). by rewrite lookup_insert_eq.
  - intros D q Hne. split.
    + unfold recorded. cbn. rewrite lookup_insert_ne by done. split.
      * intros (r & Hr & Hq). exists r. split; [done|].
        destruct (Hc D r Hr) as (q0 & Hq0 & _).
        rewrite Hold in Hq by (by eexists). done.
      * intros (r & Hr & Hq). exists r. split; [done|].
        rewrite Hold by (by eexists). done.
    + intros ch. unfold shown. rewrite slot_updateChannelPresence.
      rewrite bool_decide_eq_false_2 by done. cbn. split.
      * intros (r & Hr & Hq). exists r. split; [done|].
        apply Hsl in Hr as [_ (q0 & Hq0 & _)].
        rewrite Hold in Hq by (by eexists). done.
      * intros (r & Hr & Hq). exists r. split; [done|].
        rewrite Hold by (by eexists). done.
  - unfold PresenceService.sendToClient.
    cbn [PresenceService.isDistributed PresenceService.updateChannelPresence].
    rewrite Hd. destruct router.
    + by rewrite broadcastPresenceUpdate_distributed by done.
    + rewrite broadcastPresenceUpdate_local by done. done.
Qed.

Lemma presence_set_files_client_witness :
  recorded "a"
    (PresenceService.mkPresence "a" "busy" (Js.defaulted (Js.JObj []) Js.JUndefined)
       (default [] (Some ["g"])) (default "local" (Some "n1")) 2000 2000)
    (PresenceService.handleSetPresence "a" (Some "busy") Js.JUndefined (Some ["g"]) 2000
       (PresenceService.runEvents presence_connected
          (PresenceService.new true (Some "n1")))).1.
Proof.
  destruct (presence_set_files_client true (Some "n1") presence_connected "a" "busy"
              Js.JUndefined (Some ["g"]) 2000) as [H _].
  - unfold PresenceService.validStatuses. set_solver.
  - exact H.
Defined.


(** X28.  After every sequence of events of the presence service, a
    [heartbeat] of a client that has a record writes the instant of the
    call to the last sighting of the record and changes nothing else of it,
    so that a record marked offline stays offline; it sends nothing; the
    table of every channel of the record lists the refreshed record; the
    records of the other clients stay; and a sweep no later than 60 s after
    the heartbeat leaves the record as it is and publishes no update for
    the client. *)
Theorem presence_heartbeat_refreshes_record
    (router : bool) (nm : option string) (es : list PresenceService.event)
    (C : string) (p : PresenceService.presenceData) (data : PresenceService.frame)
    (now : Z) :
  let st := PresenceService.runEvents es (PresenceService.new router nm) in
  recorded C p st →
  let res := PresenceService.handleAction C "heartbeat" data now st in
  res.2 = [] ∧
  recorded C (PresenceService.touch now p) res.1 ∧
  (∀ ch, ch ∈ PresenceService.channels p →
         PresenceService.touch now p ∈ PresenceService.getChannelPresence ch res.1) ∧
  (∀ D q, D ≠ C → recorded D q res.1 ↔ recorded D q st) ∧
  (∀ now', (now' - now ≤ PresenceService.presenceTimeout)%Z →
           let swept := PresenceService.cleanupStalePresence now' res.1 in
           recorded C (PresenceService.touch now p) swept.1 ∧
           ∀ ch q t, SendToChannel ch (PresenceService.Update q t) (Some C) ∉ swept.2).
Proof.
  intros st (r & HC & Hp) res.
  pose proof (runEvents_coherent es _ (new_coherent router nm)) as Hco. fold st in Hco.
  pose proof (handleHeartbeat_coherent C now st Hco) as Hco'.
  assert (res = PresenceService.handleHeartbeat C now st) as -> by done.
  unfold PresenceService.handleHeartbeat in *. rewrite HC in *. cbn [fst snd] in *.
  set (st' := PresenceService.mk _ _ _ _ _ _ _) in *.
  assert (recorded C (PresenceService.touch now p) st') as Hrec.
  { exists r. split; [done|]. cbn. by rewrite lookup_alter_eq, Hp. }
  split; [done|]. split; [done|]. split; [|split].
  - intros ch Hch. apply elem_of_getChannelPresence. exists C.
    destruct Hco' as (_ & _ & _ & Hs). destruct Hrec as (r' & HC' & Hp').
    exists r'. split; [|done]. apply Hs. split; [done|].
    by exists (PresenceService.touch now p).
  - intros D q Hne. unfold recorded. cbn. split.
    + intros (x & Hx & Hq). exists x. split; [done|].
      rewrite lookup_alter_ne in Hq; [done|].
      intros <-. by apply (coherent_others C r st Hco HC D r).
    + intros (x & Hx & Hq). exists x. split; [done|].
      rewrite lookup_alter_ne; [done|].
      intros <-. by apply (coherent_others C r st Hco HC D r).
  - intros now' Hlate.
    destruct (cleanupStalePresence_spec now' st' Hco')
      as (Hco2 & _ & _ & _ & _ & Hrecs & Hcalls).
    assert (expired now' (PresenceService.touch now p) = false) as Hfresh.
    { unfold expired. cbn. apply Z.ltb_ge. lia. }
    split.
    + pose proof (Hrecs C _ Hrec) as H. by rewrite Hfresh in H.
    + intros ch q t Hin. rewrite Hcalls in Hin.
      apply list_elem_of_In, in_flat_map in Hin as (D & HD%list_elem_of_In & Hin).
      apply list_elem_of_In in Hin.
      apply elem_of_staleClients in HD as (x & Hx & Hstale).
      destruct Hco' as (Hh' & Hc' & Hn' & Hs').
      destruct (Hc' D x Hx) as (q0 & Hq0 & HqD & _).
      rewrite (setClientOffline_spec D x q0 now' st') in Hin by done.
      cbn [snd] in Hin. destruct (String.eqb _ _); [by apply elem_of_nil in Hin|].
      unfold PresenceService.broadcastPresenceUpdate in Hin.
      apply list_elem_of_In, in_flat_map in Hin as (c & _ & Hin).
      destruct (PresenceService.isDistributed st'); [|done].
      destruct Hin as [Hin|[]]. injection Hin as _ _ _ HDC. cbn in HDC.
      rewrite HqD in HDC. subst D.
      destruct Hrec as (r' & HC' & Hp'). rewrite Hx in HC'. injection HC' as <-.
      unfold PresenceService.stale, PresenceService.deref in Hstale.
      rewrite Hp' in Hstale. unfold expired in Hfresh. congruence.
Qed.

Lemma presence_heartbeat_refreshes_record_witness :
  recorded "a" (PresenceService.touch 5000 online_record)
    (PresenceService.handleAction "a" "heartbeat"
       (PresenceService.mkFrame None Js.JUndefined None None None) 5000
       (PresenceService.runEvents presence_connected
          (PresenceService.new true (Some "n1")))).1.
Proof.
  destruct (presence_heartbeat_refreshes_record true (Some "n1") presence_connected
              "a" online_record
              (PresenceService.mkFrame None Js.JUndefined None None None) 5000)
    as (_ & H & _).
  - exists 0%nat. split; vm_compute; reflexivity.
  - exact H.
Defined.


(** X30.  After every sequence of events of the presence service, the
    disconnection of a client that has a record marks the record offline,
    unless it is offline already, and schedules the clean-up of the client;
    the record and the table entries of the client stay until then, and a
    service built on a router publishes one update for each channel of the
    record when it marks it.  When the clean-up runs, whatever has happened
    since, the client has no record and no table shows one for it, and the
    records and table entries of the other clients stay. *)
Theorem presence_disconnect_then_cleanup
    (router : bool) (nm : option string) (es es2 : list PresenceService.event)
    (C : string) (p : PresenceService.presenceData) (now : Z) :
  let st := PresenceService.runEvents es (PresenceService.new router nm) in
  recorded C p st →
  let res := PresenceService.onClientDisconnect C now st in
  recorded C (offlined now p) res.1 ∧
  (∀ ch, ch ∈ PresenceService.channels p →
         offlined now p ∈ PresenceService.getChannelPresence ch res.1) ∧
  PresenceService.timers res.1 = PresenceService.timers st ++ [C] ∧
  res.2 = (if router && negb (String.eqb (PresenceService.status p) "offline")
           then (λ ch, SendToChannel ("presence:" +:+ ch)
                         (PresenceService.Update (PresenceService.markOffline now p) now)
                         (Some C)) <$> PresenceService.channels p
           else []) ∧
  let st2 := PresenceService.runEvents es2 res.1 in
  (head (PresenceService.timers st2) = Some C →
   let st3 := PresenceService.onTimeout st2 in
   (∀ q, ¬ recorded C q st3) ∧
   (∀ ch q, ¬ shown C q ch st3) ∧
   (∀ D q, D ≠ C →
           (recorded D q st3 ↔ recorded D q st2) ∧
           ∀ ch, shown D q ch st3 ↔ shown D q ch st2) ∧
   PresenceService.timers st3 = tail (PresenceService.timers st2)).
Proof.
  intros st (r & HC & Hp) res.
  pose proof (runEvents_coherent es _ (new_coherent router nm)) as Hco.
  destruct (runEvents_config es (PresenceService.new router nm)) as [_ Hd].
  fold st in Hco, Hd. cbn in Hd.
  pose proof (onClientDisconnect_coherent C now st Hco) as Hco'. fold res in Hco'.
  assert (res = (PresenceService.mk
                   (<[r := offlined now p]> (PresenceService.heap st))
                   (PresenceService.allocated st) (PresenceService.clientPresence st)
                   (PresenceService.channelPresence st)
                   (PresenceService.timers st ++ [C]) (PresenceService.nodeManager st)
                   (PresenceService.isDistributed st),
                 if String.eqb (PresenceService.status p) "offline" then []
                 else PresenceService.broadcastPresenceUpdate
                        (PresenceService.markOffline now p) now st)) as Hres.
  { subst res. unfold PresenceService.onClientDisconnect. rewrite HC.
    by rewrite (setClientOffline_spec C r p now st Hco HC Hp). }
  assert (recorded C (offlined now p) res.1) as Hrec.
  { rewrite Hres. exists r. split; [done|]. cbn. by rewrite lookup_insert_eq. }
  split; [done|]. split; [|split; [|split]].
  - intros ch Hch. apply elem_of_getChannelPresence. exists C.
    destruct Hco' as (_ & _ & _ & Hs). destruct Hrec as (r' & HC' & Hp').
    exists r'. split; [|done]. apply Hs. split; [done|].
    exists (offlined now p). split; [done|].
    unfold offlined. by destruct (String.eqb _ _).
  - by rewrite Hres.
  - rewrite Hres. cbn [snd].
    destruct (String.eqb (PresenceService.status p) "offline");
      [by rewrite andb_false_r|].
    rewrite andb_true_r. destruct router.
    + rewrite broadcastPresenceUpdate_distributed by done. cbn.
      pose proof Hco as (_ & Hc & _). destruct (Hc C r HC) as (p' & Hp' & HpC & _).
      rewrite Hp in Hp'. injection Hp' as <-. by rewrite HpC.
    + by rewrite broadcastPresenceUpdate_local.
  - intros st2 Hhead st3.
    pose proof (runEvents_coherent es2 _ Hco') as Hco2. fold st2 in Hco2.
    subst st3. unfold PresenceService.onTimeout.
    destruct (PresenceService.timers st2) as [|c rest] eqn:Ht; [done|].
    injection Hhead as ->.
    set (st2' := PresenceService.mk _ _ _ _ rest _ _).
    assert (coherent st2') as Hco2' by done.
    destruct (forget_spec C st2' Hco2') as (H1 & H2 & H3).
    split; [done|]. split; [done|]. split; [|done].
    intros D q Hne. destruct (H3 D q Hne) as [H4 H5]. done.
Qed.

Lemma presence_disconnect_then_cleanup_witness :
  recorded "a" (offlined 9000 online_record)
    (PresenceService.onClientDisconnect "a" 9000
       (PresenceService.runEvents presence_connected
          (PresenceService.new true (Some "n1")))).1.
Proof.
  destruct (presence_disconnect_then_cleanup true (Some "n1") presence_connected []
              "a" online_record 9000) as (H & _).
  - exists 0%nat. split; vm_compute; reflexivity.
  - exact H.
Defined.
